(** * pssg: a shallow embedding of the static-site generator's core

    The development follows the Go packages of the repository:
    [entity] (slugs), [taxonomy] (grouping, pagination, letter groups),
    [output] (sitemap splitting), [loader] (markdown loader) and [build]
    (the orchestrating [Builder.Build]).

    Go strings are byte strings and are modelled by [string] (a list of
    [ascii] bytes); Go's [int] is the 64-bit two's-complement integer and is
    modelled by [Z] with the wrap-around written out; Go maps are [gmap]s.
    Functions of Go's standard library that the repository calls but does
    not define are fields of the class [Go.Lib]; what the proofs need to know
    about them is stated as named laws, each a documented fact of the Go
    library, and discharged for a reference instance at the end of [Go]. *)

From Stdlib Require Import ZArith Lia Ascii String OrderedTypeEx.
From stdpp Require Import gmap strings list fin_maps pretty sorting.

Set Warnings "-register-all".
#[local] Open Scope string_scope.
#[local] Open Scope list_scope.
#[local] Open Scope Z_scope.

(** ** Go: machine integers, byte strings, and the standard library *)

Module Go.

(** *** [int]: 64-bit signed integers *)

Definition int_bits : Z := 64.
Definition max_int : Z := 2 ^ 63 - 1.
Definition min_int : Z := - 2 ^ 63.

(** The value an arithmetic result takes once it is stored in an [int]. *)
Definition wrap (z : Z) : Z := (z + 2 ^ 63) mod 2 ^ 64 - 2 ^ 63.

Definition add (a b : Z) : Z := wrap (a + b).
Definition sub (a b : Z) : Z := wrap (a - b).
Definition mul (a b : Z) : Z := wrap (a * b).

(** Integer division truncates toward zero and panics on a zero divisor;
    [None] is the panic. *)
Definition div (a b : Z) : option Z :=
  if b =? 0 then None else Some (wrap (Z.quot a b)).

Definition in_int (z : Z) : Prop := min_int <= z <= max_int.

(** [len] of a slice or string. *)
Definition len {A} (l : list A) : Z := Z.of_nat (length l).

(** A slice expression [l[i:j]] with [0 <= i <= j <= len l]. *)
Definition slice {A} (l : list A) (i j : Z) : list A :=
  take (Z.to_nat (j - i)) (drop (Z.to_nat i) l).

Definition sumZ (l : list Z) : Z := foldr Z.add 0 l.

(** *** Bytes and byte strings *)

Definition byte_val (c : ascii) : Z := Z.of_N (N_of_ascii c).

Definition is_ascii_byte (c : ascii) : bool := byte_val c <? 128.
Definition is_upper_byte (c : ascii) : bool :=
  (65 <=? byte_val c) && (byte_val c <=? 90).
Definition is_lower_byte (c : ascii) : bool :=
  (97 <=? byte_val c) && (byte_val c <=? 122).
Definition is_digit_byte (c : ascii) : bool :=
  (48 <=? byte_val c) && (byte_val c <=? 57).

Definition byte_of (z : Z) : ascii := ascii_of_N (Z.to_N (z mod 256)).

Definition lower_byte (c : ascii) : ascii :=
  if is_upper_byte c then byte_of (byte_val c + 32) else c.

Definition upper_byte (c : ascii) : ascii :=
  if is_lower_byte c then byte_of (byte_val c - 32) else c.

Fixpoint map_bytes (f : ascii -> ascii) (s : string) : string :=
  match s with
  | EmptyString => EmptyString
  | String c r => String (f c) (map_bytes f r)
  end.

Fixpoint all_bytes (p : ascii -> bool) (s : string) : bool :=
  match s with
  | EmptyString => true
  | String c r => p c && all_bytes p r
  end.

Definition slen (s : string) : Z := Z.of_nat (String.length s).

(** [strings.HasPrefix] and [strings.HasSuffix]. *)
Definition HasPrefix (s pre : string) : bool := String.prefix pre s.

Definition HasSuffix (s suf : string) : bool :=
  (String.length suf <=? String.length s)%nat &&
  String.eqb (String.substring (String.length s - String.length suf)
                               (String.length suf) s) suf.

(** [s[n:]] for [n <= len s]. *)
Definition from (n : nat) (s : string) : string :=
  String.substring n (String.length s - n) s.

(** [strings.TrimSuffix]. *)
Definition TrimSuffix (s suf : string) : string :=
  if HasSuffix s suf
  then String.substring 0 (String.length s - String.length suf) s
  else s.

(** [strings.Split] for a non-empty separator: the pieces between the
    non-overlapping occurrences of [sep], found left to right.  [skip]
    counts the bytes of a matched separator still to be passed over. *)
Fixpoint split_from (sep : string) (skip : nat) (s : string)
  : string * list string :=
  match s with
  | EmptyString => (EmptyString, [])
  | String c r =>
      match skip with
      | S k => split_from sep k r
      | O =>
          if String.prefix sep s
          then (EmptyString,
                let '(p, ps) := split_from sep (String.length sep - 1) r in
                p :: ps)
          else let '(p, ps) := split_from sep 0 r in (String c p, ps)
      end
  end.

Definition Split (s sep : string) : list string :=
  let '(p, ps) := split_from sep 0 s in p :: ps.

(** [strings.Trim(s, "-")] goes through [trimRightByte] and
    [trimLeftByte]. *)
Fixpoint trimLeftByte (s : string) (c : ascii) : string :=
  match s with
  | EmptyString => EmptyString
  | String d r => if Ascii.eqb d c then trimLeftByte r c else s
  end.

Fixpoint trimRightByte (s : string) (c : ascii) : string :=
  match s with
  | EmptyString => EmptyString
  | String d r =>
      match trimRightByte r c with
      | EmptyString => if Ascii.eqb d c then EmptyString else String d EmptyString
      | r' => String d r'
      end
  end.

Definition TrimByte (s : string) (c : ascii) : string :=
  trimLeftByte (trimRightByte s c) c.

(** [string(r)] for a rune [r]: its UTF-8 encoding, U+FFFD for a value
    that is not a Unicode scalar. *)
Definition utf8_of_rune (r : Z) : string :=
  if (r <? 0) || (1114111 <? r) || ((55296 <=? r) && (r <=? 57343))
  then String (byte_of 239) (String (byte_of 191) (String (byte_of 189) ""))
  else if r <? 128 then String (byte_of r) ""
  else if r <? 2048 then
    String (byte_of (192 + Z.shiftr r 6))
      (String (byte_of (128 + Z.land r 63)) "")
  else if r <? 65536 then
    String (byte_of (224 + Z.shiftr r 12))
      (String (byte_of (128 + Z.land (Z.shiftr r 6) 63))
         (String (byte_of (128 + Z.land r 63)) ""))
  else
    String (byte_of (240 + Z.shiftr r 18))
      (String (byte_of (128 + Z.land (Z.shiftr r 12) 63))
         (String (byte_of (128 + Z.land (Z.shiftr r 6) 63))
            (String (byte_of (128 + Z.land r 63)) ""))).

(** [fmt.Sprintf("%d", n)]. *)
Definition fmt_d (n : Z) : string := pretty n.

(** [strings.Index]: the byte offset of the first occurrence of [sub],
    or [-1]. *)
Fixpoint index_of (sub s : string) : option nat :=
  if String.prefix sub s then Some O
  else match s with
       | EmptyString => None
       | String _ r => S <$> index_of sub r
       end.

Definition Index (s sub : string) : Z :=
  match index_of sub s with
  | Some i => Z.of_nat i
  | None => -1
  end.

(** [strings.ReplaceAll] for a non-empty [old]: the non-overlapping
    occurrences of [old], found left to right, are replaced by [new].
    [skip] counts the bytes of a matched [old] still to be passed over. *)
Fixpoint replace_from (old new : string) (skip : nat) (s : string) : string :=
  match s with
  | EmptyString => EmptyString
  | String c r =>
      match skip with
      | S k => replace_from old new k r
      | O =>
          if String.prefix old s
          then (new ++ replace_from old new (String.length old - 1) r)%string
          else String c (replace_from old new 0 r)
      end
  end.

Definition ReplaceAll (s old new : string) : string := replace_from old new 0 s.

(** Every byte replaced by a string. *)
Fixpoint expand (f : ascii -> string) (s : string) : string :=
  match s with
  | EmptyString => EmptyString
  | String c r => (f c ++ expand f r)%string
  end.

(** [strings.Join] *)
Definition Join (elems : list string) (sep : string) : string :=
  String.concat sep elems.

(** [strings.TrimPrefix] *)
Definition TrimPrefix (s pre : string) : string :=
  if HasPrefix s pre then from (String.length pre) s else s.

(** [s[i:j]] on a string, for [0 <= i <= j <= len s]. *)
Definition sslice (s : string) (i j : Z) : string :=
  String.substring (Z.to_nat i) (Z.to_nat (j - i)) s.

(** *** The standard library functions the repository relies on *)

Class Lib := {
  (** [strings.ToLower] *)
  strings_ToLower : string -> string;
  (** [unicode.ToUpper] and [unicode.IsLetter], on runes *)
  unicode_ToUpper : Z -> Z;
  unicode_IsLetter : Z -> bool;
  (** [sort.Slice(l, less)], [less] given on elements *)
  sort_Slice : forall A : Type, (A -> A -> bool) -> list A -> list A;
  (** [sort.Strings] *)
  sort_Strings : list string -> list string;
  (** [xml.MarshalIndent(v, "", "  ")]; [None] is a marshalling error *)
  xml_MarshalIndent : forall A : Type, A -> option string;
}.

Arguments sort_Slice {_ A} _ _.
Arguments xml_MarshalIndent {_ A} _.

(** [strings.ToLower] maps the bytes [A]-[Z] to [a]-[z] and leaves every
    other byte of an ASCII-only string alone. *)
Definition ToLower_ascii `{Lib} : Prop :=
  forall s, all_bytes is_ascii_byte s = true ->
            strings_ToLower s = map_bytes lower_byte s.

(** [unicode.ToUpper] and [unicode.IsLetter] on ASCII runes. *)
Definition ToUpper_ascii `{Lib} : Prop :=
  forall r, 0 <= r < 128 ->
            unicode_ToUpper r = if (97 <=? r) && (r <=? 122) then r - 32 else r.

Definition IsLetter_ascii `{Lib} : Prop :=
  forall r, 0 <= r < 128 ->
            unicode_IsLetter r =
              ((65 <=? r) && (r <=? 90)) || ((97 <=? r) && (r <=? 122)).

(** A comparison function that [sort.Slice] may be given: a strict weak
    order. *)
Record strict_weak {A} (less : A -> A -> bool) : Prop := {
  sw_irrefl : forall a, less a a = false;
  sw_trans : forall a b c, less a b = true -> less b c = true -> less a c = true;
  sw_incomp : forall a b c,
    less a b = false -> less b c = false -> less a c = false;
}.

(** [sort.Slice] rearranges the slice, and leaves no later element less
    than an earlier one. *)
Definition Slice_permutes `{Lib} : Prop :=
  forall A (less : A -> A -> bool) l, sort_Slice less l ≡ₚ l.

Definition Slice_sorts `{Lib} : Prop :=
  forall A (less : A -> A -> bool) l,
    strict_weak less ->
    StronglySorted (fun a b => less b a = false) (sort_Slice less l).

(** [sort.Strings] sorts in increasing byte-wise order. *)
Definition Strings_sorts `{Lib} : Prop :=
  forall l, sort_Strings l ≡ₚ l /\
            StronglySorted (fun a b => String.leb a b = true) (sort_Strings l).

(** *** White space *)

(** [s[i:]] on a string, for [0 <= i <= len s]. *)
Definition sfrom (s : string) (i : Z) : string := from (Z.to_nat i) s.

(** [strings.SplitN(s, sep, 2)]: [s] cut at the first [sep], if any. *)
Definition SplitN2 (s sep : string) : list string :=
  match index_of sep s with
  | Some i => [String.substring 0 i s; from (i + String.length sep) s]
  | None => [s]
  end.

(** The loop of [strconv.Atoi] over the digits: [n = n*10 + int(ch)]. *)
Fixpoint decimalFrom (n : Z) (digits : string) : Z :=
  match digits with
  | EmptyString => n
  | String ch r => decimalFrom (n * 10 + (byte_val ch - 48)) r
  end.

(** [strconv.Atoi], the value it returns: its callers here drop the
    error.  A text that is not a decimal number, with or without a sign,
    gives 0, and a number beyond the range of [int] gives the bound on
    its side. *)
Definition Atoi (s : string) : Z :=
  match s with
  | EmptyString => 0
  | String c r =>
      let neg := Ascii.eqb c "-" in
      let digits := if neg || Ascii.eqb c "+" then r else s in
      match digits with
      | EmptyString => 0
      | String _ _ =>
          if all_bytes is_digit_byte digits
          then let n := decimalFrom 0 digits in
               if neg then Z.max (- n) min_int else Z.min n max_int
          else 0
      end
  end.

(** [strings.TrimSpace], which goes by Unicode's notion of white space. *)
Class Spaces := {
  strings_TrimSpace : string -> string;
}.

(** The ASCII white space: tab, line feed, vertical tab, form feed,
    carriage return and space. *)
Definition is_space_byte (c : ascii) : bool :=
  ((9 <=? byte_val c) && (byte_val c <=? 13)) || (byte_val c =? 32).

Fixpoint lastByte (s : string) : option ascii :=
  match s with
  | EmptyString => None
  | String c EmptyString => Some c
  | String _ r => lastByte r
  end.

(** An ASCII byte that is not white space. *)
Definition plainByte (c : ascii) : bool :=
  is_ascii_byte c && negb (is_space_byte c).

(** A text that is empty, or starts and ends with ASCII bytes that are
    not white space: it has no white space to trim. *)
Definition tidy (s : string) : bool :=
  match s, lastByte s with
  | String c _, Some d => plainByte c && plainByte d
  | String _ _, None => false
  | EmptyString, _ => true
  end.

(** [strings.TrimSpace] removes the white space around a tidy text. *)
Definition TrimSpace_trims `{Spaces} : Prop :=
  forall l m r,
    all_bytes is_space_byte l = true -> all_bytes is_space_byte r = true ->
    tidy m = true ->
    strings_TrimSpace (l ++ m ++ r) = m.

End Go.

(** ** Package [entity] *)

Module entity.
Import Go.

(** A value of type [interface{}] as the YAML and JSON decoders produce
    it, together with the [[]string] that [toStringSlice] also accepts. *)
Inductive Value : Type :=
| VNil
| VBool (b : bool)
| VInt (z : Z)
| VString (s : string)
| VStrings (l : list string)
| VList (l : list Value)
| VMap (m : gmap string Value).

Record FAQ := { Question : string; Answer : string }.

Inductive SectionContent :=
| SecList (items : list string)
| SecFAQs (faqs : list FAQ)
| SecText (text : string).

Record Entity := {
  Slug : string;
  SourceFile : string;
  Fields : gmap string Value;
  Sections : gmap string SectionContent;
  Body : string;
}.

(** [GetString]: a string field, or the empty string. *)
Definition GetString (e : Entity) (key : string) : string :=
  match Fields e !! key with
  | Some (VString s) => s
  | _ => ""
  end.

(** [GetStringSlice]: a list field, its strings. *)
Definition GetStringSlice (e : Entity) (key : string) : list string :=
  match Fields e !! key with
  | Some (VStrings val) => val
  | Some (VList val) =>
      omap (fun item => match item with VString s => Some s | _ => None end) val
  | _ => []
  end.

(** [GetIngredients]: the section of this name, when it is a list of
    strings. *)
Definition GetIngredients (e : Entity) : list string :=
  match Sections e !! "ingredients" with
  | Some (SecList s) => s
  | _ => []
  end.

(** [HasField]: the field exists and is not empty. *)
Definition HasField (e : Entity) (key : string) : bool :=
  match Fields e !! key with
  | None => false
  | Some (VString val) => negb (String.eqb val "")
  | Some (VList val) => 0 <? len val
  | Some (VStrings val) => 0 <? len val
  | Some VNil => false
  | Some _ => true
  end.

(** The character class of [nonAlnum = `[^a-z0-9]+`], complemented. *)
Definition alnum (c : ascii) : bool := is_lower_byte c || is_digit_byte c.

(** [nonAlnum.ReplaceAllString(s, repl)]: every maximal run of bytes
    outside [a-z0-9] becomes one [repl].  A rune of more than one byte has
    only bytes above 127, so runs of runes and runs of bytes coincide.
    [in_run] tells that the previous byte belonged to a run. *)
Fixpoint replaceRuns (repl : string) (in_run : bool) (s : string) : string :=
  match s with
  | EmptyString => EmptyString
  | String c r =>
      if alnum c then String c (replaceRuns repl false r)
      else if in_run then replaceRuns repl true r
      else (repl ++ replaceRuns repl true r)%string
  end.

Definition nonAlnum_ReplaceAllString (s repl : string) : string :=
  replaceRuns repl false s.

Definition ToSlug `{Lib} (s : string) : string :=
  let s := strings_ToLower s in
  let s := nonAlnum_ReplaceAllString s "-" in
  let s := TrimByte s "-" in
  s.

(** *** The shape of a slug *)

Abbreviation hyphen := ("-"%char) (only parsing).

(** Bytes are alphanumeric or hyphens, and no hyphen follows a hyphen;
    [after_hyphen] also forbids a hyphen in first position. *)
Fixpoint separated (after_hyphen : bool) (s : string) : bool :=
  match s with
  | EmptyString => true
  | String c r =>
      if alnum c then separated false r
      else Ascii.eqb c hyphen && negb after_hyphen && separated true r
  end.

Fixpoint ends_with_hyphen (s : string) : bool :=
  match s with
  | EmptyString => false
  | String c EmptyString => Ascii.eqb c hyphen
  | String _ r => ends_with_hyphen r
  end.

End entity.

(** ** Package [config]: the parts of the configuration the core reads *)

Module config.

Record TaxonomyConfig := {
  Name : string;
  Label : string;
  LabelSingular : string;
  Field : string;
  MultiValue : bool;
  MinEntities : Z;
  LetterPageThreshold : Z;
  Invert : bool;
  EnrichmentOverrideField : string;
  IndexDescription : string;
}.

Module BodySection.
Record t := mk {
  Name : string;
  Header : string;
  Type_ : string;
}.
End BodySection.

(** The fields of [Config] that the core reads; a field of a nested struct
    is named by its path. *)
Record Config := {
  Site_Name : string;
  Site_BaseURL : string;
  Site_CNAME : string;
  Paths_Data : string;
  Paths_Output : string;
  Paths_Static : string;
  Data_EntitySlug_Source : string;
  Taxonomies : list TaxonomyConfig;
  Pagination_EntitiesPerPage : Z;
  Enrichment_CacheDir : string;
  Sitemap_MaxURLsPerFile : Z;
  Sitemap_Priorities : gmap string string;
  Sitemap_ChangeFreqs : gmap string string;
  RSS_Enabled : bool;
  RSS_MainFeed : string;
  RSS_CategoryFeeds : bool;
  RSS_CategoryTaxonomy : string;
  LlmsTxt_Enabled : bool;
  Search_Enabled : bool;
  Templates_StaticPages : gmap string string;
  Output_ExtractCSS : string;
  Output_ExtractJS : string;
}.

End config.

(** ** Package [taxonomy] *)

Module taxonomy.
Import Go entity.

Module Entry.
Record t := mk {
  Name : string;
  Slug : string;
  Entities : list Entity;
}.
End Entry.

Module Taxonomy.
Record t := mk {
  Name : string;
  Label : string;
  LabelSingular : string;
  Config : config.TaxonomyConfig;
  Entries : list Entry.t;
}.
End Taxonomy.

Record PageURL := { Number : Z; URL : string }.

Record PaginationInfo := {
  CurrentPage : Z;
  TotalPages : Z;
  TotalItems : Z;
  StartIndex : Z;
  EndIndex : Z;
  PrevURL : string;
  NextURL : string;
  PageURLs : list PageURL;
}.

Module LetterGroup.
Record t := mk {
  Letter : string;
  Entries : list Entry.t;
}.
End LetterGroup.

(** The enrichment side-table: slug -> decoded JSON object.  A [nil] map
    and an empty map answer every lookup alike and are both [∅]. *)
Abbreviation EnrichmentData := (gmap string (gmap string Value)).

(** The order in which one [for ... range] loop visits a map.  Go leaves
    it unspecified; all that is known is that every binding is visited
    once. *)
Definition MapOrder : Type := forall V : Type, gmap string V -> list (string * V).

Definition visits_each_once (order : MapOrder) : Prop :=
  forall V (m : gmap string V), order V m ≡ₚ map_to_list m.

Definition string_items (val : list Value) : list string :=
  omap (fun item => match item with VString s => Some s | _ => None end) val.

Definition toStringSlice (v : Value) : list string :=
  match v with
  | VStrings val => val
  | VList val => string_items val
  | VString val => [val]
  | _ => []
  end.

(** [getEnrichmentOverrides] supports paths like
    ["ingredients[].normalizedName"]. *)
Definition getEnrichmentOverrides (data : gmap string Value) (field : string)
  : list string :=
  match Split field "[]." with
  | [arrayField; subField] =>
      match data !! arrayField with
      | Some (VList items) =>
          omap (fun item =>
                  match item with
                  | VMap m =>
                      match m !! subField with
                      | Some (VString s) =>
                          if String.eqb s "" then None else Some s
                      | _ => None
                      end
                  | _ => None
                  end) items
      | _ => []
      end
  | _ =>
      match data !! field with
      | Some v => toStringSlice v
      | None => []
      end
  end.

Definition extractValues (e : Entity) (tc : config.TaxonomyConfig)
    (enrichmentData : EnrichmentData) : list string :=
  let fromField :=
    match Fields e !! config.Field tc with
    | None => []
    | Some v =>
        if config.MultiValue tc then toStringSlice v
        else match v with
             | VString s => if String.eqb s "" then [] else [s]
             | _ => []
             end
    end in
  if negb (String.eqb (config.EnrichmentOverrideField tc) "") then
    match enrichmentData !! Slug e with
    | Some ed =>
        let overrides :=
          getEnrichmentOverrides ed (config.EnrichmentOverrideField tc) in
        if 0 <? len overrides then overrides else fromField
    | None => fromField
    end
  else fromField.

(** One turn of the inner loop of [buildOne]: entity [e] joins the group
    of value [val], which is created on first use. *)
Definition addValue `{Lib} (e : Entity) (groups : gmap string Entry.t)
    (val : string) : gmap string Entry.t :=
  let slug := ToSlug val in
  if String.eqb slug "" then groups
  else
    let groups :=
      match groups !! slug with
      | None => <[slug := Entry.mk val slug []]> groups
      | Some _ => groups
      end in
    alter (fun g => Entry.mk (Entry.Name g) (Entry.Slug g)
                             (Entry.Entities g ++ [e])) slug groups.

(** The grouping loop of [buildOne]. *)
Definition groupEntities `{Lib} (entities : list Entity)
    (tc : config.TaxonomyConfig) (enrichmentData : EnrichmentData)
  : gmap string Entry.t :=
  foldl (fun groups e =>
           let values := extractValues e tc enrichmentData in
           if config.Invert tc then groups
           else foldl (addValue e) groups values)
        ∅ entities.

Definition bySlug (a b : Entry.t) : bool :=
  String.ltb (Entry.Slug a) (Entry.Slug b).

Definition buildOne `{Lib} (order : MapOrder) (entities : list Entity)
    (tc : config.TaxonomyConfig) (enrichmentData : EnrichmentData)
  : Taxonomy.t :=
  let groups := groupEntities entities tc enrichmentData in
  let entries :=
    filter (fun entry => config.MinEntities tc <= len (Entry.Entities entry))
           ((order _ groups).*2) in
  let entries := sort_Slice bySlug entries in
  Taxonomy.mk (config.Name tc) (config.Label tc) (config.LabelSingular tc)
              tc entries.

Definition BuildAll `{Lib} (order : MapOrder) (entities : list Entity)
    (taxConfigs : list config.TaxonomyConfig) (enrichmentData : EnrichmentData)
  : list Taxonomy.t :=
  (fun tc => buildOne order entities tc enrichmentData) <$> taxConfigs.

Definition HubPageURL (taxonomyName entrySlug : string) (page : Z) : string :=
  if page =? 1
  then ("/" ++ taxonomyName ++ "/" ++ entrySlug ++ ".html")%string
  else ("/" ++ taxonomyName ++ "/" ++ entrySlug ++ "-page-" ++ fmt_d page
            ++ ".html")%string.

(** [ComputePagination]; [None] is the division panic of a zero
    [perPage].  The loop over [p] is the list [1 .. totalPages], empty
    when [totalPages < 1]. *)
Definition ComputePagination (entry : Entry.t) (page perPage : Z)
    (taxonomyName : string) : option PaginationInfo :=
  let total := len (Entry.Entities entry) in
  totalPages ← div (sub (add total perPage) 1) perPage;
  let totalPages := if totalPages =? 0 then 1 else totalPages in
  let start := mul (sub page 1) perPage in
  let end_ := add start perPage in
  let end_ := if total <? end_ then total else end_ in
  Some {|
    CurrentPage := page;
    TotalPages := totalPages;
    TotalItems := total;
    StartIndex := start;
    EndIndex := end_;
    PageURLs :=
      (fun p => {| Number := p;
                   URL := HubPageURL taxonomyName (Entry.Slug entry) p |})
        <$> seqZ 1 totalPages;
    PrevURL :=
      if 1 <? page
      then HubPageURL taxonomyName (Entry.Slug entry) (sub page 1) else "";
    NextURL :=
      if page <? totalPages
      then HubPageURL taxonomyName (Entry.Slug entry) (add page 1) else "";
  |}.

(** The bucket of [GroupByLetter] for a display name: none for the empty
    name, else decided by the first byte, read as a rune. *)
Definition letterOf `{Lib} (name : string) : option string :=
  match name with
  | EmptyString => None
  | String c _ =>
      let first := unicode_ToUpper (byte_val c) in
      Some (if unicode_IsLetter first then utf8_of_rune first else "#")
  end.

(** The first loop of [GroupByLetter]: the buckets, and their labels in
    order of first appearance. *)
Definition letterStep `{Lib} (st : gmap string (list Entry.t) * list string)
    (entry : Entry.t) : gmap string (list Entry.t) * list string :=
  let '(groups, letters) := st in
  match letterOf (Entry.Name entry) with
  | None => st
  | Some letter =>
      let letters :=
        match groups !! letter with
        | None => letters ++ [letter]
        | Some _ => letters
        end in
      (<[letter := default [] (groups !! letter) ++ [entry]]> groups, letters)
  end.

Definition GroupByLetter `{Lib} (entries : list Entry.t) : list LetterGroup.t :=
  let '(groups, letters) := foldl letterStep (∅, []) entries in
  let letters := sort_Strings letters in
  (fun letter => LetterGroup.mk letter (default [] (groups !! letter)))
    <$> letters.

(** [FindEntry]: the first entry with the given slug. *)
Definition FindEntry (t : Taxonomy.t) (slug : string) : option Entry.t :=
  list_find (fun e => Entry.Slug e = slug) (Taxonomy.Entries t) ≫= (Some ∘ snd).

Definition LetterPageURL `{Lib} (taxonomyName letter : string) : string :=
  let l := strings_ToLower letter in
  let l := if String.eqb l "#" then "num" else l in
  ("/" ++ taxonomyName ++ "/letter-" ++ l ++ ".html")%string.

(** The comparison [TopEntries] sorts by: more members first. *)
Definition moreMembers (a b : Entry.t) : bool :=
  len (Entry.Entities b) <? len (Entry.Entities a).

(** [TopEntries]: the first [n] entries of a copy sorted by member count,
    largest first; [None] is the panic of [sorted[:n]] for a negative
    [n]. *)
Definition TopEntries `{Lib} (entries : list Entry.t) (n : Z)
  : option (list Entry.t) :=
  let sorted := sort_Slice moreMembers entries in
  let n := if len sorted <? n then len sorted else n in
  if n <? 0 then None else Some (slice sorted 0 n).

(** *** Vocabulary of the properties *)

(** The (entity, value) pairs in the order the loops of [buildOne] meet
    them. *)
Definition filings (entities : list Entity) (tc : config.TaxonomyConfig)
    (ed : EnrichmentData) : list (Entity * string) :=
  concat ((fun e => (fun v => (e, v)) <$> extractValues e tc ed) <$> entities).

(** One turn of the inner loop of [buildOne], on a pair. *)
Definition file `{Lib} (groups : gmap string Entry.t) (p : Entity * string)
  : gmap string Entry.t := addValue p.1 groups p.2.

(** Those of them whose value has the slug [slug]. *)
Definition filedUnder `{Lib} (entities : list Entity)
    (tc : config.TaxonomyConfig) (ed : EnrichmentData) (slug : string)
  : list (Entity * string) :=
  filter (fun p => ToSlug p.2 = slug) (filings entities tc ed).

(** The non-empty strings found under [sub] in a list of objects. *)
Definition subFieldStrings (sub : string) (items : list (gmap string Value))
  : list string :=
  omap (fun m => match m !! sub with
                 | Some (VString s) => if String.eqb s "" then None else Some s
                 | _ => None
                 end) items.

(** Every group is filed under its own slug. *)
Definition keyed (groups : gmap string Entry.t) : Prop :=
  forall k g, groups !! k = Some g -> Entry.Slug g = k.

(** The entries that pass the threshold, as one map iteration meets them. *)
Definition kept `{Lib} (order : MapOrder) (entities : list Entity)
    (tc : config.TaxonomyConfig) (ed : EnrichmentData) : list Entry.t :=
  filter (fun entry => config.MinEntities tc <= len (Entry.Entities entry))
         ((order _ (groupEntities entities tc ed)).*2).

(** Strictly ascending slugs, compared byte-wise as Go's [<] on strings. *)
Definition ascending (l : list Entry.t) : Prop :=
  StronglySorted (fun a b => String.ltb (Entry.Slug a) (Entry.Slug b) = true) l.

(** A name that is empty or starts with an ASCII byte. *)
Definition asciiInitial (name : string) : bool :=
  match name with
  | EmptyString => true
  | String c _ => is_ascii_byte c
  end.

(** The entries of a list that fall into bucket [letter]. *)
Definition bucketOf `{Lib} (entries : list Entry.t) (letter : string)
  : list Entry.t :=
  filter (fun e => letterOf (Entry.Name e) = Some letter) entries.

(** What the first loop of [GroupByLetter] has built after a prefix of
    the entries. *)
Definition letters_state `{Lib} (es : list Entry.t)
    (st : gmap string (list Entry.t) * list string) : Prop :=
  (forall k, st.1 !! k = if decide (bucketOf es k = []) then None
                         else Some (bucketOf es k)) /\
  NoDup st.2 /\
  (forall k, k ∈ st.2 <-> bucketOf es k <> []).

(** The size of the window [ComputePagination] gives to a page. *)
Definition windowSize (entry : Entry.t) (perPage : Z) (taxonomyName : string)
    (page : Z) : Z :=
  match ComputePagination entry page perPage taxonomyName with
  | Some info => EndIndex info - StartIndex info
  | None => 0
  end.

(** The pagination invariant for one entry and page size: a page count
    that every call reports, that is the ceiling of members over page
    size and at least one, and whose windows add up to the members. *)
Definition pagination_invariant (entry : Entry.t) (perPage : Z)
    (taxonomyName : string) : Prop :=
  let total := len (Entry.Entities entry) in
  exists totalPages,
    (forall page, exists info,
       ComputePagination entry page perPage taxonomyName = Some info /\
       TotalPages info = totalPages) /\
    (exists c, (c - 1) * perPage < total <= c * perPage /\
               totalPages = Z.max 1 c) /\
    sumZ (windowSize entry perPage taxonomyName <$> seqZ 1 totalPages) = total.

End taxonomy.

(** ** Package [output]: the sitemap *)

Module output.
Import Go.

Module SitemapEntry.
Record t := mk {
  Loc : string;
  Lastmod : string;
  Priority : string;
  ChangeFreq : string;
}.
End SitemapEntry.

Module urlEntry.
Record t := mk {
  Loc : string;
  Lastmod : string;
  Priority : string;
  ChangeFreq : string;
}.
End urlEntry.

Module urlSet.
Record t := mk { XMLNS : string; URLs : list urlEntry.t }.
End urlSet.

Module sitemapEntry.
Record t := mk { Loc : string; Lastmod : string }.
End sitemapEntry.

Module sitemapIndex.
Record t := mk { XMLNS : string; Sitemaps : list sitemapEntry.t }.
End sitemapIndex.

Record SitemapFile := { Filename : string; Content : string }.

Definition quote : string := String (byte_of 34) "".
Definition newline : string := String (byte_of 10) "".

(** [xml.Header] *)
Definition xml_Header : string :=
  ("<?xml version=" ++ quote ++ "1.0" ++ quote ++ " encoding=" ++ quote
     ++ "UTF-8" ++ quote ++ "?>" ++ newline)%string.

Definition sitemap_ns : string := "http://www.sitemaps.org/schemas/sitemap/0.9".

Definition generateSitemap `{Lib} (entries : list SitemapEntry.t) : string :=
  let us :=
    urlSet.mk sitemap_ns
      ((fun e => urlEntry.mk (SitemapEntry.Loc e) (SitemapEntry.Lastmod e)
                             (SitemapEntry.Priority e)
                             (SitemapEntry.ChangeFreq e)) <$> entries) in
  match xml_MarshalIndent us with
  | None => ""
  | Some data => (xml_Header ++ data)%string
  end.

Definition generateSitemapIndex `{Lib} (entries : list sitemapEntry.t) : string :=
  let si := sitemapIndex.mk sitemap_ns entries in
  match xml_MarshalIndent si with
  | None => ""
  | Some data => (xml_Header ++ data)%string
  end.

(** [l[i:j]], which panics ([None]) unless [0 <= i <= j <= len l]. *)
Definition slice_checked {A} (l : list A) (i j : Z) : option (list A) :=
  if (0 <=? i) && (i <=? j) && (j <=? len l) then Some (slice l i j) else None.

(** The loop of [chunkEntries] from index [i] on.  Each turn spends one
    unit of [fuel]; [None] is a panic of the slice expression, or a loop
    still running when the fuel is gone. *)
Fixpoint chunkLoop (fuel : nat) (entries : list SitemapEntry.t) (size i : Z)
  : option (list (list SitemapEntry.t)) :=
  if i <? len entries then
    match fuel with
    | O => None
    | S fuel =>
        let end_ := add i size in
        let end_ := if len entries <? end_ then len entries else end_ in
        chunk ← slice_checked entries i end_;
        chunks ← chunkLoop fuel entries size (add i size);
        Some (chunk :: chunks)
    end
  else Some [].

(** With a size of at least one the loop takes at most [len entries]
    turns. *)
Definition chunkEntries (entries : list SitemapEntry.t) (size : Z)
  : option (list (list SitemapEntry.t)) :=
  chunkLoop (length entries) entries size 0.

Definition chunkFilename (i : nat) : string :=
  ("sitemap-" ++ fmt_d (add (Z.of_nat i) 1) ++ ".xml")%string.

Definition GenerateSitemapFiles `{Lib} (entries : list SitemapEntry.t)
    (baseURL : string) (maxPerFile : Z) : option (list SitemapFile) :=
  let maxPerFile := if maxPerFile <=? 0 then 50000 else maxPerFile in
  if len entries <=? maxPerFile then
    Some [ {| Filename := "sitemap.xml"; Content := generateSitemap entries |} ]
  else
    let lastmod :=
      match entries with
      | e :: _ => SitemapEntry.Lastmod e
      | [] => ""
      end in
    chunks ← chunkEntries entries maxPerFile;
    let files :=
      imap (fun i chunk => {| Filename := chunkFilename i;
                              Content := generateSitemap chunk |}) chunks in
    let indexEntries :=
      imap (fun i _ => sitemapEntry.mk (baseURL ++ "/" ++ chunkFilename i)%string
                                       lastmod) chunks in
    Some ({| Filename := "sitemap.xml";
             Content := generateSitemapIndex indexEntries |} :: files).

Definition NewSitemapEntry (baseURL path lastmod priority changefreq : string)
  : SitemapEntry.t :=
  let loc := (baseURL ++ path)%string in
  let loc := trimRightByte loc "/" in
  let loc := if String.eqb path "/" then (baseURL ++ "/")%string else loc in
  SitemapEntry.mk loc lastmod priority changefreq.

(** [xmlEscape] of the feed generator. *)
Definition xmlEscape (s : string) : string :=
  let s := ReplaceAll s "&" "&amp;" in
  let s := ReplaceAll s "<" "&lt;" in
  let s := ReplaceAll s ">" "&gt;" in
  let s := ReplaceAll s quote "&quot;" in
  s.

(** What [xmlEscape] makes of one byte. *)
Definition escapeByte (c : ascii) : string :=
  if Ascii.eqb c "&" then "&amp;"
  else if Ascii.eqb c "<" then "&lt;"
  else if Ascii.eqb c ">" then "&gt;"
  else if Ascii.eqb c (byte_of 34) then "&quot;"
  else String c "".

(** A byte that marks up XML text: [<], [>] or the double quote. *)
Definition markup (c : ascii) : bool :=
  Ascii.eqb c "<" || Ascii.eqb c ">" || Ascii.eqb c (byte_of 34).

End output.

(** ** Package [render]: share-image helpers *)

Module render.
Import Go.

Record NameCount := { Name : string; Count : Z }.

(** [svgEscape] *)
Definition svgEscape (s : string) : string :=
  let s := ReplaceAll s "&" "&amp;" in
  let s := ReplaceAll s "<" "&lt;" in
  let s := ReplaceAll s ">" "&gt;" in
  let s := ReplaceAll s output.quote "&quot;" in
  s.

(** The UTF-8 encoding of U+2026, the horizontal ellipsis. *)
Definition ellipsis : string :=
  String (byte_of 226) (String (byte_of 128) (String (byte_of 166) "")).

(** [truncate]; [None] is the panic of [s[:max-1]] when [max - 1] is
    not an index into [s]. *)
Definition truncate (s : string) (max : Z) : option string :=
  if slen s <=? max then Some s
  else
    let hi := sub max 1 in
    if (0 <=? hi) && (hi <=? slen s)
    then Some (sslice s 0 hi ++ ellipsis)%string
    else None.

(** *** Numbers *)

(** The loop of [formatNumber] from byte [i] of the [n] bytes on:
    [result] takes each byte of [rest], after a comma where one is due. *)
Fixpoint separate (n i : Z) (rest result : string) : string :=
  match rest with
  | EmptyString => result
  | String c r =>
      let result :=
        if (0 <? i) && (Z.rem (n - i) 3 =? 0)
        then (result ++ ",")%string else result in
      separate n (i + 1) r (result ++ String c "")
  end.

(** [formatNumber], for an [int] or an [int64]. *)
Definition formatNumber (num : Z) : string :=
  let s := fmt_d num in
  if slen s <=? 3 then s else separate (slen s) 0 s "".

(** *** Durations

    [isoDuration] is the regular expression
    [PT(?:(\d+)H)?(?:(\d+)M)?(?:(\d+)S)?].  Each of its three groups is
    optional, so it matches wherever [PT] stands, and the leftmost match
    starts at the first [PT].  A group matches when a run of ASCII digits
    is followed by its unit letter; the run is then the longest one, as no
    shorter run is followed by a letter.  Package [schema] has the same
    expression and the same two functions, as [parseDurationMinutes] and
    [computeTotalTime]. *)

(** The longest run of digits at the start of [s], and what follows it. *)
Fixpoint digitRun (s : string) : string * string :=
  match s with
  | EmptyString => (EmptyString, EmptyString)
  | String c r =>
      if is_digit_byte c
      then let '(digits, rest) := digitRun r in (String c digits, rest)
      else (EmptyString, s)
  end.

(** One group [(?:(\d+)U)?] at the start of [s]: what it captures, which
    is nothing when it does not match, and what follows it. *)
Definition durationGroup (unit : ascii) (s : string) : string * string :=
  match digitRun s with
  | (String d digits, String c rest) =>
      if Ascii.eqb c unit then (String d digits, rest) else (EmptyString, s)
  | _ => (EmptyString, s)
  end.

(** [isoDuration.FindStringSubmatch]: the matched text and the three
    captures, or [None] for [nil]. *)
Definition isoDuration_FindStringSubmatch (d : string) : option (list string) :=
  match index_of "PT" d with
  | None => None
  | Some i =>
      let '(hours, s1) := durationGroup "H" (from (i + 2) d) in
      let '(minutes, s2) := durationGroup "M" s1 in
      let '(seconds, s3) := durationGroup "S" s2 in
      Some [String.substring i (String.length d - i - String.length s3) d;
            hours; minutes; seconds]
  end.

(** [durationMinutes] *)
Definition durationMinutes (d : string) : Z :=
  match isoDuration_FindStringSubmatch d with
  | None => 0
  | Some matches =>
      let hours := Atoi (default "" (matches !! 1%nat)) in
      let minutes := Atoi (default "" (matches !! 2%nat)) in
      add (mul hours 60) minutes
  end.

(** [totalTime]; the division by the constant 60 neither panics nor
    overflows. *)
Definition totalTime (d1 d2 : string) : string :=
  let total := add (durationMinutes d1) (durationMinutes d2) in
  let hours := Z.quot total 60 in
  let minutes := Z.rem total 60 in
  if (0 <? hours) && (0 <? minutes)
  then ("PT" ++ fmt_d hours ++ "H" ++ fmt_d minutes ++ "M")%string
  else if 0 <? hours then ("PT" ++ fmt_d hours ++ "H")%string
  else ("PT" ++ fmt_d minutes ++ "M")%string.

End render.

(** ** Package [schema]: step names *)

Module schema.
Import Go.

(** The first sentence of an instruction step, when it ends early. *)
Definition firstSentence (step sep : string) : option string :=
  let idx := Index step sep in
  if (0 <? idx) && (idx <? 80) then Some (sslice step 0 (add idx 1)) else None.

(** [stepName]: the two separators are tried in order. *)
Definition stepName (step : string) : string :=
  match firstSentence step ". " with
  | Some name => name
  | None =>
      match firstSentence step ("." ++ output.newline)%string with
      | Some name => name
      | None =>
          if 80 <? slen step then (sslice step 0 77 ++ "...")%string
          else step
      end
  end.

End schema.

(** ** Package [loader] *)

Module loader.
Import Go entity.

Fixpoint has_byte (c : ascii) (s : string) : bool :=
  match s with
  | EmptyString => false
  | String d r => Ascii.eqb d c || has_byte c r
  end.

(** The part of a path after its last separator. *)
Fixpoint lastElement (path : string) : string :=
  match path with
  | EmptyString => EmptyString
  | String c r =>
      if has_byte "/" r then lastElement r
      else if Ascii.eqb c "/" then r else path
  end.

(** [filepath.Base] on a Unix path. *)
Definition filepath_Base (path : string) : string :=
  if String.eqb path "" then "."
  else
    let path := trimRightByte path "/" in
    let path := lastElement path in
    if String.eqb path "" then "/" else path.

(** [filepath.Ext]: the suffix from the last dot of the last element. *)
Fixpoint filepath_Ext (path : string) : string :=
  match path with
  | EmptyString => EmptyString
  | String c r =>
      match filepath_Ext r with
      | EmptyString =>
          if Ascii.eqb c "." && negb (has_byte "/" r) then path else EmptyString
      | ext => ext
      end
  end.

(** [filepath.Join] of a clean directory and a directory entry's name. *)
Definition filepath_Join (dir name : string) : string :=
  (dir ++ "/" ++ name)%string.

Record DirEntry := { Name : string; IsDir : bool }.

(** The data directory as the loader sees it.  [ReadDir] lists a
    directory, sorted by name, and [ReadFile] reads a file; [None] is an
    error.  [frontmatter] stands for [splitFrontmatter] followed by
    [yaml.Unmarshal]: the decoded fields and the body of a file's content,
    or an error.  [parseSections] is the body-section parser. *)
Record Source := {
  ReadDir : string -> option (list DirEntry);
  ReadFile : string -> option string;
  frontmatter : string -> option (gmap string Value * string);
  parseSections : string -> gmap string SectionContent;
}.

Definition deriveSlug `{Lib} (cfg : config.Config) (path : string)
    (fields : gmap string Value) : string :=
  let source := config.Data_EntitySlug_Source cfg in
  let fromField :=
    if HasPrefix source "field:" then
      let fieldName := from 6 source in
      match fields !! fieldName with
      | Some (VString s) => Some (ToSlug s)
      | _ => None
      end
    else None in
  match fromField with
  | Some slug => slug
  | None =>
      let base := filepath_Base path in
      TrimSuffix base (filepath_Ext base)
  end.

Definition parseFile `{Lib} (cfg : config.Config) (src : Source) (path : string)
  : option Entity :=
  content ← ReadFile src path;
  '(fields, body) ← frontmatter src content;
  let slug := deriveSlug cfg path fields in
  let sections := parseSections src body in
  Some {| Slug := slug; SourceFile := path; Fields := fields;
          Sections := sections; Body := body |}.

(** What [Load] does with one directory entry: directories and files
    without the [.md] suffix are passed over, and so, with a warning, are
    files that fail to parse. *)
Definition loadEntry `{Lib} (cfg : config.Config) (src : Source)
    (entry : DirEntry) : option Entity :=
  if IsDir entry || negb (HasSuffix (Name entry) ".md") then None
  else parseFile cfg src (filepath_Join (config.Paths_Data cfg) (Name entry)).

(** [MarkdownLoader.Load]; [None] is the error of an unreadable data
    directory. *)
Definition Load `{Lib} (cfg : config.Config) (src : Source)
  : option (list Entity) :=
  match ReadDir src (config.Paths_Data cfg) with
  | None => None
  | Some entries => Some (omap (loadEntry cfg src) entries)
  end.

(** [splitFrontmatter]: the front matter between the [---] fences and
    the body; [None] is the error of a fence that is not closed. *)
Definition splitFrontmatter `{Spaces} (content : string)
  : option (string * string) :=
  let content := strings_TrimSpace content in
  if negb (HasPrefix content "---") then Some ("", content)
  else
    let rest := from 3 content in
    let idx := Index rest (output.newline ++ "---") in
    if idx <? 0 then None
    else
      let fm := strings_TrimSpace (sslice rest 0 idx) in
      let body := strings_TrimSpace (sfrom rest (add idx 4)) in
      Some (fm, body).

(** [extractSection]: the text under a [##] heading, up to the next
    one. *)
Definition extractSection `{Spaces} (body header : string) : string :=
  let marker := ("## " ++ header)%string in
  let idx := Index body marker in
  if idx <? 0 then ""
  else
    let start := add idx (slen marker) in
    let nlIdx := Index (sfrom body start) output.newline in
    if nlIdx <? 0 then ""
    else
      let start := add start (add nlIdx 1) in
      let rest := sfrom body start in
      let nextH2 := Index rest (output.newline ++ "## ") in
      let rest := if 0 <=? nextH2 then sslice rest 0 nextH2 else rest in
      strings_TrimSpace rest.

(** One line of [parseUnorderedList]. *)
Definition bulletItem `{Spaces} (line : string) : option string :=
  let line := strings_TrimSpace line in
  if HasPrefix line "- " then Some (TrimPrefix line "- ")
  else if HasPrefix line "* " then Some (TrimPrefix line "* ")
  else None.

Definition parseUnorderedList `{Spaces} (content : string) : list string :=
  omap bulletItem (Split content output.newline).

(** One line of [parseOrderedList].  The prefix check ranges over runes;
    a rune that is not one byte is no digit, so it comes to a check of
    the bytes. *)
Definition numberedItem `{Spaces} (line : string) : option string :=
  let line := strings_TrimSpace line in
  if 3 <=? slen line then
    let dotIdx := Index line ". " in
    if (0 <? dotIdx) && (dotIdx <=? 4) then
      let prefix := sslice line 0 dotIdx in
      if all_bytes is_digit_byte prefix
      then Some (sfrom line (add dotIdx 2))
      else None
    else None
  else None.

Definition parseOrderedList `{Spaces} (content : string) : list string :=
  omap numberedItem (Split content output.newline).

(** One part of [parseFAQs]: a question line and the answer under it. *)
Definition faqOf `{Spaces} (part : string) : option FAQ :=
  let lines := SplitN2 part output.newline in
  let question := strings_TrimSpace (default "" (head lines)) in
  let answer :=
    match lines with
    | _ :: a :: _ => strings_TrimSpace a
    | _ => ""
    end in
  if String.eqb question "" then None
  else Some {| Question := question; Answer := answer |}.

Definition parseFAQs `{Spaces} (content : string) : list FAQ :=
  let parts :=
    Split (output.newline ++ content) (output.newline ++ "### ") in
  omap faqOf (drop 1 parts).

(** The [switch] of [parseSections]. *)
Definition parseSection `{Spaces} (type content : string) : SectionContent :=
  if String.eqb type "unordered_list" then SecList (parseUnorderedList content)
  else if String.eqb type "ordered_list" then SecList (parseOrderedList content)
  else if String.eqb type "faq" then SecFAQs (parseFAQs content)
  else SecText content.

(** [MarkdownLoader.parseSections], for the configured body sections. *)
Definition MarkdownLoader_parseSections `{Spaces}
    (bodySections : list config.BodySection.t) (body : string)
  : gmap string SectionContent :=
  foldl (fun sections sectionCfg =>
           let content :=
             extractSection body (config.BodySection.Header sectionCfg) in
           if String.eqb content "" then sections
           else <[config.BodySection.Name sectionCfg :=
                    parseSection (config.BodySection.Type_ sectionCfg) content]>
                  sections)
        ∅ bodySections.

(** *** Vocabulary of the properties *)

(** A file with front matter [fm] between fences, and [body] after. *)
Definition document (fm body : string) : string :=
  ("---" ++ output.newline ++ fm ++ output.newline ++ "---"
     ++ output.newline ++ body)%string.

(** No line of the front matter starts with [---]: the first such line
    after it is the closing fence. *)
Definition fenceFree (fm : string) : Prop :=
  Index (output.newline ++ fm ++ output.newline ++ "---")
        (output.newline ++ "---") = 1 + slen fm.

(** No line of the text starts with a [##] heading. *)
Definition headingFree (text : string) : Prop :=
  Index (text ++ output.newline ++ "## ") (output.newline ++ "## ")
  = slen text.

(** A section: its heading line and the text under it. *)
Definition sectionOf (header text : string) : string :=
  ("## " ++ header ++ output.newline ++ text)%string.

(** What may follow a section: nothing, or the next heading. *)
Definition following (more : option string) : string :=
  match more with
  | None => ""
  | Some rest => (output.newline ++ "## " ++ rest)%string
  end.

(** A list item: not empty, tidy, and on one line. *)
Definition oneLine (item : string) : Prop :=
  item <> "" /\ tidy item = true /\ has_byte (byte_of 10) item = false.

(** A bullet line, with a star or a dash. *)
Definition bulletLine (b : bool * string) : string :=
  ((if b.1 then "* " else "- ") ++ b.2)%string.

(** The lines of a numbered list. *)
Definition numberedLines (items : list string) : list string :=
  imap (fun i item => (fmt_d (Z.of_nat i + 1) ++ ". " ++ item)%string) items.

(** A question and its answer, as a FAQ section writes them: the question
    on a [###] line, the answer below it. *)
Definition faqText (f : FAQ) : string :=
  ("### " ++ Question f ++ output.newline ++ Answer f)%string.

(** An answer in which no line starts with [### ]. *)
Definition questionFree (answer : string) : Prop :=
  Index (output.newline ++ answer ++ output.newline ++ "### ")
        (output.newline ++ "### ")
  = 1 + slen answer.

End loader.

(** ** Package [build]: the orchestrator

    [Builder.Build] is embedded with its control flow and its error
    handling as written.  What it hands to its collaborators is abstracted:
    a page context is identified by the page it is for ([Page]), a file or
    directory operation by its target ([File], [Dir]), and the markup that
    travels from the render engine to the file is left out.  The outcome
    of every such call is decided by the environment [Env].  Informational
    [log.Printf] lines are left out; warnings are kept as [Logged]
    events.  The advisory inputs that only reach page contexts (favorites,
    contributors, affiliate links) are left out with those contexts. *)

Module build.
Import Go entity taxonomy output.
#[local] Open Scope string_scope.
#[local] Open Scope Z_scope.

Definition error : Type := string.

(** Pages the render engine is asked for. *)
Inductive Page :=
| EntityPage (slug : string)
| HubPage (taxonomyName entrySlug : string) (page : Z)
| TaxonomyIndexPage (taxonomyName : string)
| LetterPage (taxonomyName letter : string)
| AllEntitiesPage (page : Z)
| Homepage
| StaticPage (path : string).

(** Targets of [os.WriteFile]. *)
Inductive File :=
| FPage (p : Page)
| FShare (filename : string)
| FCSS
| FJS
| FSearchIndex
| FSitemap (filename : string)
| FRSS (relativePath : string)
| FRobots
| FLlms
| FManifest
| FCNAME.

(** Targets of [os.MkdirAll]. *)
Inductive Dir :=
| DOut
| DShare
| DTaxonomy (taxonomyName : string)
| DAll
| DStatic (path : string)
| DRSS (relativePath : string).

(** What [Build] consults and does not decide itself.  An [option error]
    is [None] on success. *)
Record Env := {
  source : loader.Source;
  order : MapOrder;
  (** the order in which the entity goroutines get their turn *)
  schedule : list Entity -> list Entity;
  today : string;
  ReadAllCaches : string -> error + EnrichmentData;
  MkdirAll : Dir -> option error;
  WriteFile : File -> option error;
  NewEngine : option error;
  RenderCSS : error + string;
  RenderJS : error + string;
  Render : Page -> option error;
  copyDir : option error;
}.

Inductive Event :=
| Logged (message : string)
| Wrote (f : File).

(** The variables of [Build] that the closures and goroutines share, and
    the trace of what has been logged and written. *)
Record State := {
  sitemapEntries : list SitemapEntry.t;
  entityErrors : Z;
  events : list Event;
}.

Definition initial : State :=
  {| sitemapEntries := []; entityErrors := 0; events := [] |}.

(** How a call ends: normally, by returning an error, or in a panic. *)
Inductive outcome (A : Type) :=
| Done (a : A)
| Failed (err : error)
| Panicked.
Arguments Done {A} a.
Arguments Failed {A} err.
Arguments Panicked {A}.

Definition M (A : Type) : Type := State -> outcome A * State.

Definition ret {A} (a : A) : M A := fun st => (Done a, st).

Definition bind {A B} (m : M A) (f : A -> M B) : M B :=
  fun st =>
    match m st with
    | (Done a, st') => f a st'
    | (Failed err, st') => (Failed err, st')
    | (Panicked, st') => (Panicked, st')
    end.

Notation "x <- m ;; k" := (bind m (fun x => k))
  (at level 100, m at next level, right associativity).
Notation "m ;;; k" := (bind m (fun _ => k))
  (at level 100, right associativity).

(** [return err] *)
Definition fail {A} (err : error) : M A := fun st => (Failed err, st).

(** A value whose computation may panic. *)
Definition orPanic {A} (o : option A) : M A :=
  fun st => match o with Some a => (Done a, st) | None => (Panicked, st) end.

(** [if err != nil { return fmt.Errorf(prefix + "%w", err) }] *)
Definition check (prefix : string) (o : option error) : M unit :=
  match o with
  | None => ret tt
  | Some err => fail (prefix ++ err)%string
  end.

(** Run [m]; an error it returns is handed to [handler] instead of being
    returned. *)
Definition recover {A} (m : M A) (handler : error -> M A) : M A :=
  fun st =>
    match m st with
    | (Failed err, st') => handler err st'
    | r => r
    end.

Fixpoint forEach {A} (l : list A) (body : A -> M unit) : M unit :=
  match l with
  | [] => ret tt
  | x :: l => body x ;;; forEach l body
  end.

Definition emit (ev : Event) : M unit :=
  fun st => (Done tt, {| sitemapEntries := sitemapEntries st;
                         entityErrors := entityErrors st;
                         events := (events st ++ [ev])%list |}).

Definition warn (message : string) : M unit := emit (Logged message).

(** [os.WriteFile] with its trace. *)
Definition write (env : Env) (f : File) : M (option error) :=
  match WriteFile env f with
  | None => emit (Wrote f) ;;; ret None
  | Some err => ret (Some err)
  end.

Definition getSitemap : M (list SitemapEntry.t) :=
  fun st => (Done (sitemapEntries st), st).

Definition getEntityErrors : M Z :=
  fun st => (Done (entityErrors st), st).

(** The counting loop of [countFieldDistribution]. *)
Definition countValues (entities : list Entity) (field : string)
  : gmap string Z :=
  foldl (fun counts e =>
           let val := GetString e field in
           if String.eqb val "" then counts
           else <[val := add (default 0 (counts !! val)) 1]> counts)
        ∅ entities.

Definition higherCount (a b : render.NameCount) : bool :=
  render.Count b <? render.Count a.

(** [countFieldDistribution]: the values of a string field with their
    numbers of occurrences, most frequent first, at most [limit] of them
    when [limit] is positive. *)
Definition countFieldDistribution `{Lib} (order : MapOrder)
    (entities : list Entity) (field : string) (limit : Z)
  : list render.NameCount :=
  let counts := countValues entities field in
  let result :=
    (fun kv => {| render.Name := kv.1; render.Count := kv.2 |})
      <$> order _ counts in
  let result := sort_Slice higherCount result in
  if (0 <? limit) && (limit <? len result) then slice result 0 limit
  else result.

Section Builder.
Context `{Lib} (cfg : config.Config) (env : Env).

Definition priority (key : string) : string :=
  default "" (config.Sitemap_Priorities cfg !! key).
Definition changeFreq (key : string) : string :=
  default "" (config.Sitemap_ChangeFreqs cfg !! key).

(** The closure [addSitemapEntry]: one append under the mutex. *)
Definition addSitemapEntry (path priority changefreq : string) : M unit :=
  fun st =>
    (Done tt,
     {| sitemapEntries :=
          (sitemapEntries st ++
             [NewSitemapEntry (config.Site_BaseURL cfg) path (today env)
                              priority changefreq])%list;
        entityErrors := entityErrors st;
        events := events st |}).

(** [atomic.AddInt64(&entityErrors, 1)] *)
Definition countEntityError : M unit :=
  fun st => (Done tt, {| sitemapEntries := sitemapEntries st;
                         entityErrors := add (entityErrors st) 1;
                         events := events st |}).

Definition writeShareSVG (filename : string) : M (option error) :=
  match MkdirAll env DShare with
  | Some err => ret (Some err)
  | None => write env (FShare filename)
  end.

(** A share image whose write may fail with a warning only. *)
Definition shareImage (filename what : string) : M unit :=
  r <- writeShareSVG filename ;;
  match r with
  | Some err =>
      warn ("Warning: failed to write " ++ what ++ ": " ++ err)%string
  | None => ret tt
  end.

(** [buildSlugMap]: the slug lookup of step 2; a later entity replaces
    an earlier one with the same slug. *)
Definition buildSlugMap (entities : list Entity) : gmap string Entity :=
  foldl (fun slugMap e => <[Slug e := e]> slugMap) ∅ entities.

Definition outPath (name : string) : string :=
  loader.filepath_Join (config.Paths_Output cfg) name.

(** The engine renders a page and the markup is written to its file; an
    error of either is returned behind its prefix. *)
Definition renderAndWrite (renderPrefix writePrefix : string) (p : Page)
  : M unit :=
  check renderPrefix (Render env p) ;;;
  w <- write env (FPage p) ;;
  check writePrefix w.

Definition renderEntityPage (e : Entity) : M unit :=
  shareImage (Slug e ++ ".svg") ("entity share SVG for " ++ Slug e) ;;;
  renderAndWrite "" ("writing " ++ outPath (Slug e ++ ".html") ++ ": ")
                 (EntityPage (Slug e)) ;;;
  addSitemapEntry ("/" ++ Slug e ++ ".html") (priority "entity")
                  (changeFreq "entity").

(** One goroutine of step 11. *)
Definition entityWorker (e : Entity) : M unit :=
  recover (renderEntityPage e)
    (fun err =>
       countEntityError ;;;
       warn ("Warning: failed to render " ++ Slug e ++ ": " ++ err ++ newline)).

(** Step 11: the goroutines, each run at its turn; [wg.Wait()] is the end
    of the loop. *)
Definition renderEntityPages (entities : list Entity) : M unit :=
  forEach (schedule env entities) entityWorker.

(** [(n + perPage - 1) / perPage], and 1 in place of 0. *)
Definition pageTotal (n perPage : Z) : option Z :=
  totalPages ← div (sub (add n perPage) 1) perPage;
  Some (if totalPages =? 0 then 1 else totalPages).

(** The entities shown on a hub page. *)
Definition pageEntities (entry : Entry.t) (pagination : PaginationInfo)
  : option (list Entity) :=
  let n := len (Entry.Entities entry) in
  if StartIndex pagination <? n then
    let end_ := EndIndex pagination in
    let end_ := if n <? end_ then n else end_ in
    slice_checked (Entry.Entities entry) (StartIndex pagination) end_
  else Some (Entry.Entities entry).

Definition hubFilename (entry : Entry.t) (page : Z) : string :=
  if page =? 1 then (Entry.Slug entry ++ ".html")%string
  else (Entry.Slug entry ++ "-page-" ++ fmt_d page ++ ".html")%string.

Definition renderHubPage (tax : Taxonomy.t) (entry : Entry.t) (perPage page : Z)
  : M unit :=
  let name := Taxonomy.Name tax in
  pagination <- orPanic (ComputePagination entry page perPage name) ;;
  _ <- orPanic (pageEntities entry pagination) ;;
  renderAndWrite ("rendering hub " ++ name ++ "/" ++ Entry.Slug entry
                    ++ " page " ++ fmt_d page ++ ": ")
                 "writing hub page: "
                 (HubPage name (Entry.Slug entry) page) ;;;
  let filename := hubFilename entry page in
  let prio := if 1 <? page then priority "hub_page_n"
              else priority "hub_page_1" in
  addSitemapEntry ("/" ++ name ++ "/" ++ filename) prio (changeFreq "hub").

Definition renderHubPages (tax : Taxonomy.t) (perPage : Z) (entry : Entry.t)
  : M unit :=
  let name := Taxonomy.Name tax in
  totalPages <- orPanic (pageTotal (len (Entry.Entities entry)) perPage) ;;
  (if 1 <=? totalPages
   then shareImage (name ++ "-" ++ Entry.Slug entry ++ ".svg")
                   ("hub share SVG for " ++ name ++ "/" ++ Entry.Slug entry)
   else ret tt) ;;;
  forEach (seqZ 1 totalPages) (renderHubPage tax entry perPage).

Definition letterSlug (letter : string) : string :=
  if String.eqb letter "#" then "num" else strings_ToLower letter.

Definition renderLetterPage (tax : Taxonomy.t) (lg : LetterGroup.t) : M unit :=
  let name := Taxonomy.Name tax in
  let letter := LetterGroup.Letter lg in
  shareImage (name ++ "-letter-" ++ letterSlug letter ++ ".svg")
             ("letter share SVG for " ++ name ++ "/" ++ letter) ;;;
  let letterFile := ("letter-" ++ letterSlug letter ++ ".html")%string in
  renderAndWrite ("rendering letter page " ++ name ++ "/" ++ letter ++ ": ")
                 "writing letter page: " (LetterPage name letter) ;;;
  addSitemapEntry ("/" ++ name ++ "/" ++ letterFile) (priority "letter_page")
                  (changeFreq "letter_page").

Definition renderTaxonomyPages (tax : Taxonomy.t) : M unit :=
  let name := Taxonomy.Name tax in
  check "creating taxonomy dir: " (MkdirAll env (DTaxonomy name)) ;;;
  let perPage := config.Pagination_EntitiesPerPage cfg in
  forEach (Taxonomy.Entries tax) (renderHubPages tax perPage) ;;;
  let hasLetters :=
    config.LetterPageThreshold (Taxonomy.Config tax)
      <=? len (Taxonomy.Entries tax) in
  let letterGroups := GroupByLetter (Taxonomy.Entries tax) in
  shareImage (name ++ "-index.svg")
             ("taxonomy index share SVG for " ++ name) ;;;
  renderAndWrite ("rendering taxonomy index " ++ name ++ ": ")
                 "writing taxonomy index: " (TaxonomyIndexPage name) ;;;
  addSitemapEntry ("/" ++ name ++ "/") (priority "taxonomy_index")
                  (changeFreq "taxonomy_index") ;;;
  if hasLetters then forEach letterGroups (renderLetterPage tax) else ret tt.

Definition allFilename (page : Z) : string :=
  if 1 <? page then ("page-" ++ fmt_d page ++ ".html")%string else "index.html".

Definition renderAllEntitiesPage (entities : list Entity) (perPage page : Z)
  : M unit :=
  let start := mul (sub page 1) perPage in
  let end_ := add start perPage in
  let end_ := if len entities <? end_ then len entities else end_ in
  _ <- orPanic (slice_checked entities start end_) ;;
  renderAndWrite ("rendering all-entities page " ++ fmt_d page ++ ": ")
                 "writing all-entities page: " (AllEntitiesPage page) ;;;
  addSitemapEntry ("/all/" ++ allFilename page) "0.5" "weekly".

Definition renderAllEntitiesPages (entities : list Entity) : M unit :=
  check "creating all dir: " (MkdirAll env DAll) ;;;
  shareImage "all-entities.svg" "all-entities share SVG" ;;;
  let perPage := config.Pagination_EntitiesPerPage cfg in
  totalPages <- orPanic (pageTotal (len entities) perPage) ;;
  forEach (seqZ 1 totalPages) (renderAllEntitiesPage entities perPage).

Definition renderHomepage : M unit :=
  shareImage "homepage.svg" "homepage share SVG" ;;;
  renderAndWrite "" "" Homepage.

Definition generateSearchIndex : M (option error) :=
  if config.Search_Enabled cfg then write env FSearchIndex else ret None.

(** Steps 10: the extracted style sheet and script. *)
Definition extract (name : string) (rendered : error + string) (f : File)
    (what : string) : M unit :=
  if String.eqb name "" then ret tt
  else
    match rendered with
    | inl err => warn ("Warning: failed to render " ++ what ++ ": " ++ err)
    | inr content =>
        if String.eqb content "" then ret tt
        else w <- write env f ;; check ("writing " ++ what ++ ": ") w
    end.

Definition renderStaticPage (page : string * string) : M unit :=
  let '(path, tmpl) := page in
  match Render env (StaticPage path) with
  | Some err =>
      warn ("Warning: failed to render static page " ++ path ++ ": " ++ err)
  | None =>
      check ("creating dir for " ++ path ++ ": ") (MkdirAll env (DStatic path)) ;;;
      w <- write env (FPage (StaticPage path)) ;;
      check ("writing " ++ path ++ ": ") w
  end.

(** The relative paths of the feeds of [output.GenerateRSSFeeds]. *)
Definition rssFeedPaths (taxonomies : list Taxonomy.t) : list string :=
  if config.RSS_Enabled cfg then
    let mainPath :=
      if String.eqb (config.RSS_MainFeed cfg) "" then "feed.xml"
      else config.RSS_MainFeed cfg in
    let categoryEntries : gmap string (list Entity) :=
      foldl (fun m tax =>
               if String.eqb (Taxonomy.Name tax) (config.RSS_CategoryTaxonomy cfg)
               then foldl (fun m entry =>
                             <[Entry.Slug entry := Entry.Entities entry]> m)
                          m (Taxonomy.Entries tax)
               else m) ∅ taxonomies in
    mainPath ::
      (if config.RSS_CategoryFeeds cfg
       then (fun kv => (config.RSS_CategoryTaxonomy cfg ++ "/" ++ kv.1
                          ++ "/feed.xml")%string)
              <$> order env _ categoryEntries
       else [])
  else [].

Definition writeFeed (relativePath : string) : M unit :=
  check ("creating dir for RSS " ++ relativePath ++ ": ")
        (MkdirAll env (DRSS relativePath)) ;;;
  w <- write env (FRSS relativePath) ;;
  check ("writing RSS " ++ relativePath ++ ": ") w.

(** Steps 1 to 10: load and set up.  The result is what the later steps
    work on: the entities and the taxonomies. *)
Definition prepare : M (list Entity * list Taxonomy.t) :=
  entities <-
    match loader.Load cfg (source env) with
    | Some entities => ret entities
    | None =>
        fail ("loading entities: reading data dir " ++ config.Paths_Data cfg)
    end ;;
  enrichmentData <-
    (if String.eqb (config.Enrichment_CacheDir cfg) "" then ret ∅
     else match ReadAllCaches env (config.Enrichment_CacheDir cfg) with
          | inl err =>
              warn ("Warning: failed to load enrichment cache: " ++ err) ;;;
              ret ∅
          | inr data => ret data
          end) ;;
  let taxonomies :=
    BuildAll (order env) entities (config.Taxonomies cfg) enrichmentData in
  check "creating output dir: " (MkdirAll env DOut) ;;;
  check "initializing render engine: " (NewEngine env) ;;;
  extract (config.Output_ExtractCSS cfg) (RenderCSS env) FCSS "CSS" ;;;
  extract (config.Output_ExtractJS cfg) (RenderJS env) FJS "JS" ;;;
  ret (entities, taxonomies).

(** Steps 11 and 11b: the entity pages and the search index. *)
Definition content (entities : list Entity) : M unit :=
  renderEntityPages entities ;;;
  failures <- getEntityErrors ;;
  (if 0 <? failures
   then warn ("  " ++ fmt_d failures ++ " entity pages had errors")
   else ret tt) ;;;
  if 0 <? len entities then
    r <- generateSearchIndex ;;
    match r with
    | Some err =>
        warn ("Warning: failed to generate search index: " ++ err)
    | None => ret tt
    end
  else ret tt.

(** Steps 12 to 13: the pages the navigation rests on. *)
Definition structure (entities : list Entity) (taxonomies : list Taxonomy.t)
  : M unit :=
  forEach taxonomies
    (fun tax =>
       recover (renderTaxonomyPages tax)
         (fun err => fail ("rendering taxonomy " ++ Taxonomy.Name tax ++ ": "
                             ++ err))) ;;;
  recover (renderAllEntitiesPages entities)
    (fun err => fail ("rendering all-entities pages: " ++ err)) ;;;
  recover renderHomepage (fun err => fail ("rendering homepage: " ++ err)) ;;;
  addSitemapEntry "/index.html" (priority "homepage") (changeFreq "homepage").

(** Steps 14 to 21: static pages, sitemap, feeds and the small files. *)
Definition finish (taxonomies : list Taxonomy.t) : M unit :=
  forEach (order env _ (config.Templates_StaticPages cfg)) renderStaticPage ;;;
  entries <- getSitemap ;;
  sitemapFiles <-
    orPanic (GenerateSitemapFiles entries (config.Site_BaseURL cfg)
                                  (config.Sitemap_MaxURLsPerFile cfg)) ;;
  forEach sitemapFiles
    (fun sf => w <- write env (FSitemap (Filename sf)) ;;
               check ("writing " ++ Filename sf ++ ": ") w) ;;;
  forEach (rssFeedPaths taxonomies) writeFeed ;;;
  w <- write env FRobots ;; check "writing robots.txt: " w ;;;
  (if config.LlmsTxt_Enabled cfg
   then w <- write env FLlms ;; check "writing llms.txt: " w
   else ret tt) ;;;
  w <- write env FManifest ;; check "writing manifest.json: " w ;;;
  (if String.eqb (config.Site_CNAME cfg) "" then ret tt
   else w <- write env FCNAME ;; check "writing CNAME: " w) ;;;
  if String.eqb (config.Paths_Static cfg) "" then ret tt
  else match copyDir env with
       | Some err => warn ("Warning: failed to copy static assets: " ++ err)
       | None => ret tt
       end.

Definition run : M unit :=
  prepared <- prepare ;;
  let '(entities, taxonomies) := prepared in
  content entities ;;;
  structure entities taxonomies ;;;
  finish taxonomies.

(** [Builder.Build]: the error it returns, if any, and what it has done. *)
Definition Build : outcome unit * State := run initial.

(** *** Vocabulary of the properties *)

(** Rendering or writing the page fails. *)
Definition failsPage (p : Page) : Prop :=
  Render env p <> None \/ WriteFile env (FPage p) <> None.

Definition failsPageb (p : Page) : bool :=
  match Render env p, WriteFile env (FPage p) with
  | None, None => false
  | _, _ => true
  end.

(** The warning [entityWorker] logs for an entity. *)
Definition entityWarning (e : Entity) (err : error) : Event :=
  Logged ("Warning: failed to render " ++ Slug e ++ ": " ++ err ++ newline).

(** The number of entities whose page fails. *)
Definition entityFailures (entities : list Entity) : Z :=
  len (filter (fun e => failsPageb (EntityPage (Slug e)) = true) entities).

(** The pages of one taxonomy: hubs, index and, past the threshold,
    letters. *)
Definition hubPagesOf (tax : Taxonomy.t) (entry : Entry.t) : list Page :=
  match pageTotal (len (Entry.Entities entry))
                  (config.Pagination_EntitiesPerPage cfg) with
  | Some totalPages =>
      HubPage (Taxonomy.Name tax) (Entry.Slug entry) <$> seqZ 1 totalPages
  | None => []
  end.

Definition letterPagesOf (tax : Taxonomy.t) : list Page :=
  if config.LetterPageThreshold (Taxonomy.Config tax)
       <=? len (Taxonomy.Entries tax)
  then (fun lg => LetterPage (Taxonomy.Name tax) (LetterGroup.Letter lg))
         <$> GroupByLetter (Taxonomy.Entries tax)
  else [].

Definition taxonomyPagesOf (tax : Taxonomy.t) : list Page :=
  (concat (hubPagesOf tax <$> Taxonomy.Entries tax)
     ++ TaxonomyIndexPage (Taxonomy.Name tax) :: letterPagesOf tax)%list.

Definition allEntitiesPagesOf (entities : list Entity) : list Page :=
  match pageTotal (len entities) (config.Pagination_EntitiesPerPage cfg) with
  | Some totalPages => AllEntitiesPage <$> seqZ 1 totalPages
  | None => []
  end.

(** The pages of steps 12 to 13. *)
Definition structuralPages (entities : list Entity)
    (taxonomies : list Taxonomy.t) : list Page :=
  (concat (taxonomyPagesOf <$> taxonomies)
     ++ allEntitiesPagesOf entities ++ [Homepage])%list.

(** The lengths of the slices the page loops run over are [int]s. *)
Definition slicesFit (entities : list Entity) (taxonomies : list Taxonomy.t)
  : Prop :=
  len entities <= max_int /\
  forall tax entry,
    tax ∈ taxonomies -> entry ∈ Taxonomy.Entries tax ->
    len (Entry.Entities entry) <= max_int.

(** Nothing but entity pages fails: the data directory is readable, and
    every directory, every file other than an entity page, and every page
    other than an entity page is made, written and rendered. *)
Definition onlyEntityPagesFail : Prop :=
  loader.Load cfg (source env) <> None /\
  NewEngine env = None /\
  (forall d, MkdirAll env d = None) /\
  (forall p, (forall slug, p <> EntityPage slug) -> Render env p = None) /\
  (forall f, (forall slug, f <> FPage (EntityPage slug)) ->
             WriteFile env f = None).

End Builder.

(** The members [renderHubPage] shows on page [page] of an entry's hub;
    [None] is a panic. *)
Definition hubPageMembers (entry : Entry.t) (perPage : Z)
    (taxonomyName : string) (page : Z) : option (list Entity) :=
  info ← ComputePagination entry page perPage taxonomyName;
  pageEntities entry info.

(** *** The sitemap and the pages written *)

(** The sitemap entry that [Build] adds for a page once the page is
    written; static pages get none. *)
Definition sitemapEntryOf `{Lib} (cfg : config.Config) (env : Env) (p : Page)
  : option SitemapEntry.t :=
  let entry path prio freq :=
    Some (NewSitemapEntry (config.Site_BaseURL cfg) path (today env)
                          prio freq) in
  match p with
  | EntityPage slug =>
      entry ("/" ++ slug ++ ".html") (priority cfg "entity")
            (changeFreq cfg "entity")
  | HubPage name slug page =>
      entry (HubPageURL name slug page)
            (if 1 <? page then priority cfg "hub_page_n"
             else priority cfg "hub_page_1")
            (changeFreq cfg "hub")
  | TaxonomyIndexPage name =>
      entry ("/" ++ name ++ "/") (priority cfg "taxonomy_index")
            (changeFreq cfg "taxonomy_index")
  | LetterPage name letter =>
      entry ("/" ++ name ++ "/" ++ "letter-" ++ letterSlug letter ++ ".html")
            (priority cfg "letter_page") (changeFreq cfg "letter_page")
  | AllEntitiesPage page => entry ("/all/" ++ allFilename page) "0.5" "weekly"
  | Homepage =>
      entry "/index.html" (priority cfg "homepage") (changeFreq cfg "homepage")
  | StaticPage _ => None
  end.

(** The pages whose files have been written, in the order of the trace. *)
Definition writtenPages (evs : list Event) : list Page :=
  omap (fun ev => match ev with Wrote (FPage p) => Some p | _ => None end) evs.

(** The sitemap holds the entries of the pages written so far. *)
Definition listsWritten `{Lib} (cfg : config.Config) (env : Env) (st : State)
  : Prop :=
  sitemapEntries st = omap (sitemapEntryOf cfg env) (writtenPages (events st)).

(** The same, but for the entry of the page written last. *)
Definition awaits `{Lib} (cfg : config.Config) (env : Env) (p : Page)
    (st : State) : Prop :=
  exists evs,
    events st = (evs ++ [Wrote (FPage p)])%list /\
    sitemapEntries st = omap (sitemapEntryOf cfg env) (writtenPages evs).

(** From a state with [P], the computation ends in a state with [Q] when
    it completes and in a state with [R] when it fails or panics. *)
Definition ends {A} (P Q R : State -> Prop) (m : M A) : Prop :=
  forall st, P st ->
    match m st with
    | (Done _, st') => Q st'
    | (_, st') => R st'
    end.

(** Events of steps 1 to 13. *)
Definition early (ev : Event) : Prop :=
  match ev with
  | Logged _ => True
  | Wrote (FPage (StaticPage _)) => False
  | Wrote (FPage _) | Wrote (FShare _) | Wrote FCSS | Wrote FJS
  | Wrote FSearchIndex => True
  | Wrote _ => False
  end.

(** A computation keeps the property [P] of the state, returns an error
    only if [mayFail], and panics only if [mayPanic]. *)
Definition safe {A} (P : State -> Prop) (mayFail mayPanic : Prop) (m : M A)
  : Prop :=
  forall st, P st ->
    P (m st).2 /\
    match (m st).1 with
    | Done _ => True
    | Failed _ => mayFail
    | Panicked => mayPanic
    end.

(** [Q] holds whenever the computation completes. *)
Definition onDone {A} (m : M A) (Q : Prop) : Prop :=
  forall st a st', m st = (Done a, st') -> Q.

(** A property of the state that appending a sitemap entry keeps, and that
    recording an event of kind [ok] keeps. *)
Record stable (ok : Event -> Prop) (P : State -> Prop) : Prop := {
  stable_sitemap : forall st entries,
    P st -> P {| sitemapEntries := entries; entityErrors := entityErrors st;
                 events := events st |};
  stable_event : forall st ev,
    ok ev -> P st ->
    P {| sitemapEntries := sitemapEntries st; entityErrors := entityErrors st;
         events := (events st ++ [ev])%list |};
}.

(** Such a property that does not look at the error count either. *)
Definition countless (P : State -> Prop) : Prop :=
  forall st n,
    P st -> P {| sitemapEntries := sitemapEntries st; entityErrors := n;
                 events := events st |}.

(** The state after some more events. *)
Definition extend (st : State) (evs : list Event) : State :=
  {| sitemapEntries := sitemapEntries st; entityErrors := entityErrors st;
     events := (events st ++ evs)%list |}.

(** No event of step 14 or later has happened. *)
Definition quiet (st : State) : Prop := Forall early (events st).

End build.

(** ** A reference instance of the library

    It agrees with Go on ASCII input, sorts by insertion, and visits a map
    in key order of its internal representation.  It serves to run the
    embedding on concrete inputs. *)

Module reference.
Import Go.

Fixpoint insert_sorted {A} (less : A -> A -> bool) (x : A) (l : list A) : list A :=
  match l with
  | [] => [x]
  | y :: r => if less x y then x :: l else y :: insert_sorted less x r
  end.

Definition insertion_sort {A} (less : A -> A -> bool) (l : list A) : list A :=
  foldr (insert_sorted less) [] l.

Definition ascii_upper (r : Z) : Z :=
  if (97 <=? r) && (r <=? 122) then r - 32 else r.

Definition ascii_letter (r : Z) : bool :=
  ((65 <=? r) && (r <=? 90)) || ((97 <=? r) && (r <=? 122)).

#[export] Instance lib : Lib := {|
  strings_ToLower := map_bytes lower_byte;
  unicode_ToUpper := ascii_upper;
  unicode_IsLetter := ascii_letter;
  sort_Slice := @insertion_sort;
  sort_Strings := insertion_sort String.ltb;
  xml_MarshalIndent := fun _ _ => Some "<xml/>";
|}.

Fixpoint trimLeftSpaces (s : string) : string :=
  match s with
  | EmptyString => EmptyString
  | String c r => if is_space_byte c then trimLeftSpaces r else s
  end.

Fixpoint trimRightSpaces (s : string) : string :=
  match s with
  | EmptyString => EmptyString
  | String c r =>
      match trimRightSpaces r with
      | EmptyString => if is_space_byte c then EmptyString else String c EmptyString
      | r' => String c r'
      end
  end.

#[export] Instance spaces : Spaces := {|
  strings_TrimSpace := fun s => trimRightSpaces (trimLeftSpaces s);
|}.

Definition order : taxonomy.MapOrder := fun V m => map_to_list m.

Definition reversed : taxonomy.MapOrder := fun V m => reverse (map_to_list m).

End reference.

(** ** Sample inputs *)

Module sample.
Import Go entity taxonomy.

Definition recipe (slug category : string) (tags : list string) : Entity := {|
  Slug := slug;
  SourceFile := ("data/" ++ slug ++ ".md")%string;
  Fields := {[ "recipe_category" := VString category;
               "tags" := VList (VString <$> tags) ]};
  Sections := ∅;
  Body := "";
|}.

Definition corpus : list Entity := [
  recipe "pho" "Soup" ["Beef"; "noodles"];
  recipe "flan" "Dessert" ["eggs"];
  recipe "ramen" "soup" ["noodles"; "Eggs"];
  recipe "caesar" "Salad" [];
  recipe "tiramisu" "dessert!" ["eggs"; "coffee"]
].

Definition byCategory : config.TaxonomyConfig := {|
  config.Name := "category";
  config.Label := "Categories";
  config.LabelSingular := "Category";
  config.Field := "recipe_category";
  config.MultiValue := false;
  config.MinEntities := 2;
  config.LetterPageThreshold := 50;
  config.Invert := false;
  config.EnrichmentOverrideField := "";
  config.IndexDescription := "";
|}.

Definition byTag : config.TaxonomyConfig := {|
  config.Name := "tag";
  config.Label := "Tags";
  config.LabelSingular := "Tag";
  config.Field := "tags";
  config.MultiValue := true;
  config.MinEntities := 1;
  config.LetterPageThreshold := 50;
  config.Invert := false;
  config.EnrichmentOverrideField := "ingredients[].normalizedName";
  config.IndexDescription := "";
|}.

(** The tag taxonomy with [Invert] set. *)
Definition inverted : config.TaxonomyConfig := {|
  config.Name := "tag";
  config.Label := "Tags";
  config.LabelSingular := "Tag";
  config.Field := "tags";
  config.MultiValue := true;
  config.MinEntities := 1;
  config.LetterPageThreshold := 50;
  config.Invert := true;
  config.EnrichmentOverrideField := "";
  config.IndexDescription := "";
|}.

(** An entry that holds the whole corpus. *)
Definition everything : Entry.t := Entry.mk "All" "all" corpus.

Definition ingredient (name : string) : Value :=
  VMap {[ "normalizedName" := VString name; "amount" := VInt 1 ]}.

Definition enrichment : EnrichmentData :=
  {[ "pho" := {[ "ingredients" := VList [ingredient "beef"; VNil;
                                         ingredient "rice noodles"] ]};
     "flan" := {[ "ingredients" := VList [] ]} ]}.

(** What is compared of an entry: name, slug and member slugs. *)
Definition summary (e : Entry.t) : string * string * list string :=
  (Entry.Name e, Entry.Slug e, Slug <$> Entry.Entities e).

Definition page (n : Z) : output.SitemapEntry.t :=
  output.SitemapEntry.mk ("https://x.test/" ++ fmt_d n ++ ".html")%string
                         "2026-01-02" "0.8" "weekly".

Definition pages : list output.SitemapEntry.t := page <$> seqZ 1 130.

Definition fileNames (files : option (list output.SitemapFile))
  : option (list string) :=
  match files with
  | Some fs => Some (output.Filename <$> fs)
  | None => None
  end.

Definition slugsOf (entities : option (list Entity)) : option (list string) :=
  match entities with
  | Some es => Some (Slug <$> es)
  | None => None
  end.

Definition chunkSizes (chunks : option (list (list output.SitemapEntry.t)))
  : option (list Z) :=
  match chunks with
  | Some cs => Some (len <$> cs)
  | None => None
  end.

(** A site configuration with the given slug source and page size. *)
Definition site (slugSource : string) (perPage : Z) : config.Config := {|
  config.Site_Name := "Recipes";
  config.Site_BaseURL := "https://x.test";
  config.Site_CNAME := "";
  config.Paths_Data := "data";
  config.Paths_Output := "docs";
  config.Paths_Static := "";
  config.Data_EntitySlug_Source := slugSource;
  config.Taxonomies := [byCategory];
  config.Pagination_EntitiesPerPage := perPage;
  config.Enrichment_CacheDir := "";
  config.Sitemap_MaxURLsPerFile := 50000;
  config.Sitemap_Priorities := ∅;
  config.Sitemap_ChangeFreqs := ∅;
  config.RSS_Enabled := true;
  config.RSS_MainFeed := "";
  config.RSS_CategoryFeeds := true;
  config.RSS_CategoryTaxonomy := "category";
  config.LlmsTxt_Enabled := true;
  config.Search_Enabled := true;
  config.Templates_StaticPages := {[ "about.html" := "about" ]};
  config.Output_ExtractCSS := "style.css";
  config.Output_ExtractJS := "";
|}.

(** A data directory: each file has a name and two front-matter fields. *)
Definition directory (files : list (string * (string * string)))
  : loader.Source := {|
  loader.ReadDir := fun _ =>
    Some ((fun f => {| loader.Name := f.1; loader.IsDir := false |}) <$> files);
  loader.ReadFile := fun path => Some path;
  loader.frontmatter := fun content =>
    match list_find (fun f => ("data/" ++ f.1)%string = content) files with
    | Some (_, (_, (title, category))) =>
        Some ({[ "title" := VString title;
                 "recipe_category" := VString category ]}, "")
    | None => None
    end;
  loader.parseSections := fun _ => ∅;
|}.

Definition kitchen : loader.Source :=
  directory [ ("flan.md", ("Flan", "Dessert"));
              ("notes.txt", ("", ""));
              ("pho.md", ("Pho", "Soup"));
              ("ramen.md", ("Ramen", "soup"));
              ("tiramisu.md", ("Tiramisu", "dessert")) ].

(** Two files that carry the same title. *)
Definition twins : loader.Source :=
  directory [ ("a.md", ("Pho", "Soup")); ("b.md", ("pho!", "Soup")) ].

(** An environment in which the pages in [broken] fail to render and
    everything else succeeds. *)
Definition world (src : loader.Source) (broken : build.Page -> bool)
  : build.Env := {|
  build.source := src;
  build.order := fun V m => map_to_list m;
  build.schedule := reverse;
  build.today := "2026-01-02";
  build.ReadAllCaches := fun _ => inr ∅;
  build.MkdirAll := fun _ => None;
  build.WriteFile := fun _ => None;
  build.NewEngine := None;
  build.RenderCSS := inr "body {}";
  build.RenderJS := inr "";
  build.Render := fun p => if broken p then Some "template: boom" else None;
  build.copyDir := None;
|}.

Definition flanBroken (p : build.Page) : bool :=
  match p with
  | build.EntityPage slug => String.eqb slug "flan"
  | _ => false
  end.

Definition soupHubBroken (p : build.Page) : bool :=
  match p with
  | build.HubPage _ slug 1 => String.eqb slug "soup"
  | _ => false
  end.

End sample.

(** * Properties *)

(** ** Byte-wise string order *)

Section StringOrder.

Lemma ltb_lt a b : String.ltb a b = true <-> String_as_OT.lt a b.
Proof.
  unfold String.ltb. rewrite <- String_as_OT.cmp_lt. unfold String_as_OT.cmp.
  destruct (String.compare a b); split; congruence.
Qed.

Lemma ltb_irrefl a : String.ltb a a = false.
Proof.
  unfold String.ltb.
  assert (String.compare a a = Eq) as ->; [|done].
  by apply String_as_OT.cmp_eq.
Qed.

Lemma ltb_trans a b c :
  String.ltb a b = true -> String.ltb b c = true -> String.ltb a c = true.
Proof. rewrite !ltb_lt. apply String_as_OT.lt_trans. Qed.

Lemma ltb_asym a b : String.ltb a b = true -> String.ltb b a = false.
Proof.
  intros Hab. destruct (String.ltb b a) eqn:Hba; [|done].
  pose proof (ltb_trans _ _ _ Hab Hba) as Haa. by rewrite ltb_irrefl in Haa.
Qed.

Lemma ltb_total a b : String.ltb a b = false -> String.ltb b a = false -> a = b.
Proof.
  unfold String.ltb. rewrite (String.compare_antisym a b).
  destruct (String.compare b a) eqn:Hc; simpl; try done.
  intros _ _. symmetry. by apply String.compare_eq_iff.
Qed.

Lemma ltb_incomp a b c :
  String.ltb a b = false -> String.ltb b c = false -> String.ltb a c = false.
Proof.
  intros Hab Hbc. destruct (String.ltb a c) eqn:Hac; [|done].
  destruct (String.ltb b a) eqn:Hba.
  - by rewrite (ltb_trans _ _ _ Hba Hac) in Hbc.
  - rewrite (ltb_total _ _ Hab Hba) in Hac. congruence.
Qed.

Lemma leb_ltb a b : String.leb a b = true <-> String.ltb b a = false.
Proof.
  unfold String.leb, String.ltb. rewrite (String.compare_antisym a b).
  destruct (String.compare b a); simpl; split; congruence.
Qed.

Lemma StronglySorted_mono {A} (R R' : relation A) l :
  (forall a b, R a b -> R' a b) -> StronglySorted R l -> StronglySorted R' l.
Proof.
  intros HR. induction 1 as [|a l Hl IH Ha]; constructor; [done|].
  eapply Forall_impl; [exact Ha|]. auto.
Qed.

End StringOrder.

(** ** The reference instance obeys the laws *)

Section ReferenceLaws.
Import Go reference.

Lemma reference_ToLower_ascii : ToLower_ascii.
Proof. by intros s _. Qed.

Lemma reference_ToUpper_ascii : ToUpper_ascii.
Proof. by intros r _. Qed.

Lemma reference_IsLetter_ascii : IsLetter_ascii.
Proof. by intros r _. Qed.

Lemma insert_sorted_perm {A} (less : A -> A -> bool) x l :
  insert_sorted less x l ≡ₚ x :: l.
Proof.
  induction l as [|y r IH]; simpl; [done|].
  destruct (less x y); [done|]. rewrite IH. apply Permutation_swap.
Qed.

Lemma insertion_sort_perm {A} (less : A -> A -> bool) l :
  insertion_sort less l ≡ₚ l.
Proof.
  induction l as [|x r IH]; simpl; [done|].
  rewrite insert_sorted_perm. by rewrite IH.
Qed.

Lemma insert_sorted_sorted {A} (less : A -> A -> bool) x l :
  strict_weak less ->
  StronglySorted (fun a b => less b a = false) l ->
  StronglySorted (fun a b => less b a = false) (insert_sorted less x l).
Proof.
  intros [Hirr Htr Hinc]. induction 1 as [|y r Hr IH Hy]; simpl.
  - repeat constructor.
  - destruct (less x y) eqn:Hxy.
    + constructor; [by constructor|]. constructor.
      * destruct (less y x) eqn:Hyx; [|done].
        pose proof (Hirr x) as Hx. by rewrite (Htr _ _ _ Hxy Hyx) in Hx.
      * eapply Forall_impl; [exact Hy|]. intros z Hz. simpl in Hz.
        destruct (less z x) eqn:Hzx; [|done].
        by rewrite (Htr _ _ _ Hzx Hxy) in Hz.
    + constructor; [exact IH|].
      rewrite (insert_sorted_perm less x r). by constructor.
Qed.

Lemma insertion_sort_sorted {A} (less : A -> A -> bool) l :
  strict_weak less ->
  StronglySorted (fun a b => less b a = false) (insertion_sort less l).
Proof.
  intros Hsw. induction l as [|x r IH]; simpl; [constructor|].
  by apply insert_sorted_sorted.
Qed.

Lemma reference_Slice_permutes : Slice_permutes.
Proof. intros A less l. apply insertion_sort_perm. Qed.

Lemma reference_Slice_sorts : Slice_sorts.
Proof. intros A less l. apply insertion_sort_sorted. Qed.

Lemma ltb_strict_weak : strict_weak String.ltb.
Proof. split; [apply ltb_irrefl|apply ltb_trans|apply ltb_incomp]. Qed.

Lemma reference_Strings_sorts : Strings_sorts.
Proof.
  intros l. split; [apply insertion_sort_perm|].
  eapply StronglySorted_mono;
    [|apply (insertion_sort_sorted String.ltb), ltb_strict_weak].
  intros a b. simpl. apply leb_ltb.
Qed.

Lemma reference_order_once : taxonomy.visits_each_once order.
Proof. by intros V m. Qed.

Lemma reference_reversed_once : taxonomy.visits_each_once reversed.
Proof. intros V m. unfold reversed. by rewrite reverse_Permutation. Qed.

End ReferenceLaws.

(** ** Slugs *)

Section SlugFacts.
Import Go entity.

Lemma alnum_hyphen : alnum hyphen = false.
Proof. reflexivity. Qed.

Lemma alnum_not_hyphen c : alnum c = true -> Ascii.eqb c hyphen = false.
Proof.
  intros Hc. destruct (Ascii.eqb_spec c hyphen) as [->|]; [|done].
  by rewrite alnum_hyphen in Hc.
Qed.

Lemma replaceRuns_separated s b :
  separated b (replaceRuns "-" b s) = true.
Proof.
  revert b; induction s as [|c r IH]; intros b; simpl; [done|].
  destruct (alnum c) eqn:Hc; simpl.
  - by rewrite Hc.
  - destruct b; [apply IH|]. simpl. apply IH.
Qed.

Lemma separated_weaken s : separated true s = true -> separated false s = true.
Proof.
  destruct s as [|c r]; simpl; [done|].
  destruct (alnum c); [done|]. rewrite andb_false_r. done.
Qed.

Lemma trimRightByte_separated s b :
  separated b s = true -> separated b (trimRightByte s hyphen) = true.
Proof.
  revert b; induction s as [|c r IH]; intros b; simpl; [done|].
  destruct (alnum c) eqn:Hc.
  - intros Hr. specialize (IH _ Hr).
    destruct (trimRightByte r hyphen) eqn:Ht.
    + rewrite (alnum_not_hyphen _ Hc). simpl. by rewrite Hc.
    + simpl. rewrite Hc. exact IH.
  - intros Hr. apply andb_prop in Hr as [Hcb Hr]. specialize (IH _ Hr).
    destruct (trimRightByte r hyphen) eqn:Ht.
    + apply andb_prop in Hcb as [-> _]. done.
    + simpl. rewrite Hc, Hcb. exact IH.
Qed.

Lemma trimRightByte_end s : ends_with_hyphen (trimRightByte s hyphen) = false.
Proof.
  induction s as [|c r IH]; simpl; [done|].
  destruct (trimRightByte r hyphen) eqn:Ht.
  - destruct (Ascii.eqb c hyphen) eqn:Hc; simpl; done.
  - exact IH.
Qed.

Lemma separated_trimLeftByte s :
  separated true s = true -> trimLeftByte s hyphen = s.
Proof.
  destruct s as [|c r]; simpl; [done|].
  destruct (alnum c) eqn:Hc.
  - by rewrite (alnum_not_hyphen _ Hc).
  - rewrite andb_false_r. done.
Qed.

Lemma trimLeftByte_separated s b :
  separated b s = true -> separated true (trimLeftByte s hyphen) = true.
Proof.
  destruct s as [|c r]; simpl; [done|].
  destruct (alnum c) eqn:Hc.
  - rewrite (alnum_not_hyphen _ Hc). simpl. by rewrite Hc.
  - intros H. apply andb_prop in H as [H Hr]. apply andb_prop in H as [-> _].
    by rewrite (separated_trimLeftByte _ Hr).
Qed.

Lemma trimLeftByte_end s b :
  separated b s = true -> ends_with_hyphen s = false ->
  ends_with_hyphen (trimLeftByte s hyphen) = false.
Proof.
  destruct s as [|c r]; [done|]. cbn [separated trimLeftByte].
  destruct (alnum c) eqn:Hc.
  - rewrite (alnum_not_hyphen _ Hc). done.
  - intros H. apply andb_prop in H as [H Hr]. apply andb_prop in H as [Hch _].
    rewrite Hch. rewrite (separated_trimLeftByte _ Hr).
    destruct r; [simpl; by rewrite Hch|done].
Qed.

Lemma ends_trimRightByte s :
  ends_with_hyphen s = false -> trimRightByte s hyphen = s.
Proof.
  induction s as [|c r IH]; simpl; [done|].
  destruct r as [|d r'].
  - simpl. by intros ->.
  - intros H. rewrite (IH H). done.
Qed.

Lemma separated_replaceRuns s b :
  separated b s = true -> replaceRuns "-" b s = s.
Proof.
  revert b; induction s as [|c r IH]; intros b; simpl; [done|].
  destruct (alnum c) eqn:Hc.
  - intros Hr. by rewrite (IH _ Hr).
  - intros H. apply andb_prop in H as [H Hr]. apply andb_prop in H as [Hch Hb].
    destruct b; [done|]. simpl. rewrite (IH _ Hr).
    apply Ascii.eqb_eq in Hch. by rewrite Hch.
Qed.

Lemma separated_lower s b :
  separated b s = true ->
  all_bytes is_ascii_byte s = true /\ map_bytes lower_byte s = s.
Proof.
  revert b; induction s as [|c r IH]; intros b; simpl; [done|].
  assert (Hbyte : alnum c = true \/ c = hyphen ->
                  is_ascii_byte c = true /\ lower_byte c = c).
  { unfold alnum, is_ascii_byte, lower_byte, is_upper_byte,
      is_lower_byte, is_digit_byte.
    intros [H| ->]; [|done].
    destruct (65 <=? byte_val c) eqn:?, (byte_val c <=? 90) eqn:?; simpl;
      split; try done; lia. }
  destruct (alnum c) eqn:Hc.
  - intros Hr. destruct (IH _ Hr) as [-> ->].
    destruct Hbyte as [-> ->]; auto.
  - intros H. apply andb_prop in H as [H Hr]. apply andb_prop in H as [Hch _].
    apply Ascii.eqb_eq in Hch. destruct (IH _ Hr) as [-> ->].
    destruct Hbyte as [-> ->]; auto.
Qed.

(** What [ToSlug] returns, whatever it is given. *)
Lemma ToSlug_shape `{Lib} s :
  separated true (ToSlug s) = true /\ ends_with_hyphen (ToSlug s) = false.
Proof.
  unfold ToSlug, nonAlnum_ReplaceAllString, TrimByte.
  pose proof (replaceRuns_separated (strings_ToLower s) false) as H0.
  apply trimRightByte_separated in H0. split.
  - by eapply trimLeftByte_separated.
  - eapply trimLeftByte_end; [done|]. apply trimRightByte_end.
Qed.

(** A string of that shape is a fixed point of [ToSlug]. *)
Lemma ToSlug_fixed `{Lib} t :
  ToLower_ascii ->
  separated true t = true -> ends_with_hyphen t = false -> ToSlug t = t.
Proof.
  intros Hlow Hsep Hend. unfold ToSlug, nonAlnum_ReplaceAllString, TrimByte.
  destruct (separated_lower _ _ Hsep) as [Hascii Hmap].
  rewrite (Hlow _ Hascii), Hmap.
  rewrite (separated_replaceRuns _ _ (separated_weaken _ Hsep)).
  rewrite (ends_trimRightByte _ Hend).
  by apply separated_trimLeftByte.
Qed.

Lemma separated_get s b i c :
  separated b s = true -> String.get i s = Some c ->
  alnum c = true \/ c = hyphen.
Proof.
  revert b i; induction s as [|d r IH]; intros b i; simpl; [by destruct i|].
  intros Hs Hg. destruct i as [|i].
  - injection Hg as ->. destruct (alnum c); [by left|].
    apply andb_prop in Hs as [Hs _]. apply andb_prop in Hs as [Hs _].
    right. by apply Ascii.eqb_eq.
  - destruct (alnum d); [by eapply IH|].
    apply andb_prop in Hs as [_ Hs]. by eapply IH.
Qed.

Lemma separated_no_double s b i :
  separated b s = true ->
  ~ (String.get i s = Some hyphen /\ String.get (S i) s = Some hyphen).
Proof.
  revert b i; induction s as [|d r IH]; intros b i;
    [by intros _ [? _]; destruct i|].
  cbn [separated]. intros Hs [H1 H2]. destruct i as [|i].
  - injection H1 as ->. rewrite alnum_hyphen in Hs.
    apply andb_prop in Hs as [_ Hs].
    destruct r as [|d' r']; [done|]. injection H2 as ->.
    cbn [separated] in Hs. rewrite alnum_hyphen in Hs.
    by rewrite andb_false_r in Hs.
  - change (get (S i) (String d r)) with (get i r) in H1.
    change (get (S (S i)) (String d r)) with (get (S i) r) in H2.
    destruct (alnum d).
    + by apply (IH _ i Hs).
    + apply andb_prop in Hs as [_ Hs]. by apply (IH _ i Hs).
Qed.

Lemma separated_first s :
  separated true s = true -> String.get 0 s <> Some hyphen.
Proof.
  destruct s as [|c r]; simpl; [done|].
  intros Hs [= ->]. by rewrite alnum_hyphen in Hs.
Qed.

Lemma ends_last s :
  ends_with_hyphen s = false ->
  String.get (String.length s - 1) s <> Some hyphen.
Proof.
  induction s as [|c r IH]; simpl; [done|].
  destruct r as [|d r'].
  - simpl. intros Hc [= ->]. done.
  - intros He. specialize (IH He). simpl in IH |- *.
    by rewrite Nat.sub_0_r in IH.
Qed.

(** C10: [ToSlug] is idempotent, and a slug consists of lowercase ASCII
    letters, digits and hyphens only, has no two hyphens in a row, and
    neither starts nor ends with a hyphen. *)
Theorem ToSlug_idempotent_canonical `{Lib} (s : string) :
  ToLower_ascii ->
  ToSlug (ToSlug s) = ToSlug s /\
  (forall i c, String.get i (ToSlug s) = Some c ->
     is_lower_byte c = true \/ is_digit_byte c = true \/ c = hyphen) /\
  (forall i, ~ (String.get i (ToSlug s) = Some hyphen /\
                String.get (S i) (ToSlug s) = Some hyphen)) /\
  String.get 0 (ToSlug s) <> Some hyphen /\
  String.get (String.length (ToSlug s) - 1) (ToSlug s) <> Some hyphen.
Proof.
  intros Hlow. destruct (ToSlug_shape s) as [Hsep Hend].
  split; [by apply ToSlug_fixed|]. split; [|split; [|split]].
  - intros i c Hget.
    destruct (separated_get _ _ _ _ Hsep Hget) as [Hc|Hc]; [|tauto].
    apply orb_prop in Hc. tauto.
  - intros i. by eapply separated_no_double.
  - by apply separated_first.
  - by apply ends_last.
Qed.

Lemma ToSlug_idempotent_canonical_witness :
  let s := "  Crème Brûlée -- 2nd TRY!  " in
  @ToLower_ascii reference.lib /\
  @ToSlug reference.lib s = "cr-me-br-l-e-2nd-try" /\
  @ToSlug reference.lib (@ToSlug reference.lib s) = @ToSlug reference.lib s.
Proof.
  intros s. split; [exact reference_ToLower_ascii|]. split; [reflexivity|].
  exact (proj1 (@ToSlug_idempotent_canonical reference.lib s
                  reference_ToLower_ascii)).
Defined.

End SlugFacts.

(** ** Resolving the values of an entity *)

Section ExtractFacts.
Import Go entity taxonomy.

Lemma string_items_strings (l : list string) : string_items (VString <$> l) = l.
Proof.
  unfold string_items. induction l as [|s l IH]; [done|].
  rewrite fmap_cons. cbn [omap list_omap]. by rewrite IH.
Qed.

Lemma eqb_empty s : s <> "" -> String.eqb s "" = false.
Proof. intros Hs. by apply String.eqb_neq. Qed.


End ExtractFacts.

Section ExtractWitnesses.
Import Go entity taxonomy sample reference.


End ExtractWitnesses.

(** ** Building a taxonomy *)

Section BuildFacts.
Import Go entity taxonomy.
Context `{Lib}.

Lemma foldl_preserves {A B} (P : A -> Prop) (f : A -> B -> A) l a :
  (forall a b, P a -> P (f a b)) -> P a -> P (foldl f a l).
Proof.
  intros Hf. revert a. induction l as [|b l IH]; simpl; auto.
Qed.

Lemma addValue_keyed e groups val : keyed groups -> keyed (addValue e groups val).
Proof.
  intros Hk. unfold addValue.
  destruct (String.eqb (ToSlug val) ""); [done|].
  intros k g. rewrite lookup_alter.
  destruct (decide (ToSlug val = k)) as [<-|Hne].
  - destruct (groups !! ToSlug val) as [g0|] eqn:Hg; simpl.
    + rewrite Hg. simpl. intros [= <-]. simpl. by apply Hk.
    + rewrite lookup_insert_eq. simpl. by intros [= <-].
  - destruct (groups !! ToSlug val) as [g0|] eqn:Hg; simpl.
    + apply Hk.
    + rewrite lookup_insert_ne by done. apply Hk.
Qed.

Lemma groupEntities_keyed entities tc ed : keyed (groupEntities entities tc ed).
Proof.
  unfold groupEntities. apply foldl_preserves; [|by intros k g; rewrite lookup_empty].
  intros groups e Hk. destruct (config.Invert tc); [done|].
  apply foldl_preserves; [|done]. intros. by apply addValue_keyed.
Qed.

Lemma keyed_slugs groups :
  keyed groups -> Entry.Slug <$> (map_to_list groups).*2 = (map_to_list groups).*1.
Proof.
  intros Hk. rewrite <- list_fmap_compose. apply Forall_fmap_ext_1.
  apply Forall_forall. intros [k g] Hin. simpl. apply Hk.
  by apply elem_of_map_to_list.
Qed.

Lemma kept_perm order entities tc ed :
  visits_each_once order ->
  kept order entities tc ed ≡ₚ kept reference.order entities tc ed.
Proof.
  intros Ho. unfold kept, reference.order. by rewrite (Ho _ _).
Qed.

Lemma kept_NoDup entities tc ed :
  NoDup (Entry.Slug <$> kept reference.order entities tc ed).
Proof.
  unfold kept, reference.order.
  eapply sublist_NoDup; [|apply fmap_sublist, sublist_filter].
  rewrite (keyed_slugs _ (groupEntities_keyed _ _ _)).
  apply NoDup_fst_map_to_list.
Qed.

Lemma bySlug_strict_weak : strict_weak bySlug.
Proof.
  split; unfold bySlug; intros.
  - apply ltb_irrefl.
  - by eapply ltb_trans.
  - by eapply ltb_incomp.
Qed.

Lemma sorted_distinct_ascending l :
  StronglySorted (fun a b => bySlug b a = false) l ->
  NoDup (Entry.Slug <$> l) -> ascending l.
Proof.
  induction 1 as [|a l Hl IH Ha]; [constructor|].
  rewrite fmap_cons, NoDup_cons. intros [Hnotin Hnd].
  constructor; [by apply IH|].
  rewrite Forall_forall in Ha |- *. intros b Hb.
  destruct (String.ltb (Entry.Slug a) (Entry.Slug b)) eqn:Hab; [done|].
  exfalso. apply Hnotin. specialize (Ha b Hb). unfold bySlug in Ha.
  rewrite (ltb_total _ _ Hab Ha). by apply list_elem_of_fmap_2.
Qed.

Lemma ascending_unique l1 l2 :
  ascending l1 -> ascending l2 -> l1 ≡ₚ l2 -> l1 = l2.
Proof.
  apply StronglySorted_unique_strong.
  intros a b _ _ Hab Hba. by rewrite (ltb_asym _ _ Hab) in Hba.
Qed.

Lemma buildOne_entries_perm order entities tc ed :
  Slice_permutes -> visits_each_once order ->
  Taxonomy.Entries (buildOne order entities tc ed)
    ≡ₚ kept reference.order entities tc ed.
Proof.
  intros Hp Ho. simpl. rewrite (Hp _ _ _). by apply kept_perm.
Qed.

Lemma buildOne_ascending order entities tc ed :
  Slice_permutes -> Slice_sorts -> visits_each_once order ->
  ascending (Taxonomy.Entries (buildOne order entities tc ed)).
Proof.
  intros Hp Hs Ho. apply sorted_distinct_ascending.
  - apply Hs, bySlug_strict_weak.
  - rewrite (buildOne_entries_perm _ _ _ _ Hp Ho). apply kept_NoDup.
Qed.

(** C1: the taxonomy builder's output does not depend on the order in
    which the groups map is iterated, and the entries of every taxonomy it
    returns are in strictly ascending order of slug. *)
Theorem BuildAll_deterministic (order1 order2 : MapOrder) entities taxConfigs ed :
  Slice_permutes -> Slice_sorts ->
  visits_each_once order1 -> visits_each_once order2 ->
  BuildAll order1 entities taxConfigs ed = BuildAll order2 entities taxConfigs ed /\
  Forall (fun t => ascending (Taxonomy.Entries t))
         (BuildAll order1 entities taxConfigs ed).
Proof.
  intros Hp Hs Ho1 Ho2. unfold BuildAll. split.
  - apply Forall_fmap_ext_1, Forall_forall. intros tc _.
    assert (Taxonomy.Entries (buildOne order1 entities tc ed)
            = Taxonomy.Entries (buildOne order2 entities tc ed)) as Heq.
    { apply ascending_unique; try by apply buildOne_ascending.
      by rewrite !buildOne_entries_perm. }
    unfold buildOne in *. simpl in Heq. by rewrite Heq.
  - apply Forall_fmap, Forall_forall. intros tc _. simpl.
    by apply (buildOne_ascending order1).
Qed.

(** C4: no entry with fewer members than the threshold is in the output,
    and every group with at least that many members is. *)
Theorem buildOne_min_entities (order : MapOrder) entities tc ed :
  Slice_permutes -> visits_each_once order ->
  let out := Taxonomy.Entries (buildOne order entities tc ed) in
  (forall entry, entry ∈ out ->
     ~ len (Entry.Entities entry) < config.MinEntities tc) /\
  (forall slug entry,
     groupEntities entities tc ed !! slug = Some entry ->
     config.MinEntities tc <= len (Entry.Entities entry) -> entry ∈ out).
Proof.
  intros Hp Ho out. subst out. split.
  - intros entry. rewrite (buildOne_entries_perm _ _ _ _ Hp Ho).
    unfold kept. rewrite list_elem_of_filter. lia.
  - intros slug entry Hg Hmin. rewrite (buildOne_entries_perm _ _ _ _ Hp Ho).
    unfold kept. rewrite list_elem_of_filter. split; [done|].
    apply list_elem_of_fmap. exists (slug, entry). split; [done|].
    by apply elem_of_map_to_list.
Qed.

End BuildFacts.

Section BuildWitnesses.
Import Go entity taxonomy sample reference.

Lemma BuildAll_deterministic_witness :
  BuildAll reference.order corpus [byCategory; byTag] enrichment
    = BuildAll reference.reversed corpus [byCategory; byTag] enrichment /\
  (fun t => summary <$> Taxonomy.Entries t)
    <$> BuildAll reference.order corpus [byCategory; byTag] enrichment
  = [ [("Dessert", "dessert", ["flan"; "tiramisu"]);
       ("Soup", "soup", ["pho"; "ramen"])];
      [("beef", "beef", ["pho"]);
       ("coffee", "coffee", ["tiramisu"]);
       ("eggs", "eggs", ["flan"; "ramen"; "tiramisu"]);
       ("noodles", "noodles", ["ramen"]);
       ("rice noodles", "rice-noodles", ["pho"])] ].
Proof.
  split; [|vm_compute; reflexivity].
  exact (proj1 (BuildAll_deterministic reference.order reference.reversed
                  corpus [byCategory; byTag] enrichment
                  reference_Slice_permutes reference_Slice_sorts
                  reference_order_once reference_reversed_once)).
Defined.

Lemma buildOne_min_entities_witness :
  let out := Taxonomy.Entries (buildOne reference.order corpus byCategory enrichment) in
  (Entry.Slug <$> out) = ["dessert"; "soup"] /\
  (forall entry, entry ∈ out -> ~ len (Entry.Entities entry) < 2) /\
  (forall slug entry,
     groupEntities corpus byCategory enrichment !! slug = Some entry ->
     2 <= len (Entry.Entities entry) -> entry ∈ out).
Proof.
  split; [vm_compute; reflexivity|].
  exact (buildOne_min_entities reference.order corpus byCategory enrichment
           reference_Slice_permutes reference_order_once).
Defined.

End BuildWitnesses.

(** ** Machine integers *)

Section IntFacts.
Import Go.

Lemma wrap_id z : in_int z -> wrap z = z.
Proof.
  unfold in_int, min_int, max_int, wrap. intros Hz.
  rewrite Z.mod_small; lia.
Qed.

Lemma wrap_add_l x y : wrap (wrap x + y) = wrap (x + y).
Proof.
  unfold wrap.
  replace ((x + 2 ^ 63) mod 2 ^ 64 - 2 ^ 63 + y + 2 ^ 63)
    with ((x + 2 ^ 63) mod 2 ^ 64 + y) by lia.
  rewrite Zplus_mod_idemp_l. f_equal. f_equal. lia.
Qed.

Lemma wrap_sub_l x y : wrap (wrap x - y) = wrap (x - y).
Proof.
  replace (wrap x - y) with (wrap x + - y) by lia.
  by rewrite wrap_add_l.
Qed.

Lemma len_nonneg {A} (l : list A) : 0 <= len l.
Proof. unfold len. lia. Qed.

End IntFacts.

(** ** Pagination *)

Section PaginationFacts.
Import Go entity taxonomy.

Variables (entry : Entry.t) (perPage : Z) (taxonomyName : string).
Hypothesis perPage_pos : 0 < perPage <= max_int.
Hypothesis no_overflow : len (Entry.Entities entry) + perPage - 1 <= max_int.

Let total := len (Entry.Entities entry).
Let pages := (total + perPage - 1) / perPage.

Lemma pages_bounds : (pages - 1) * perPage < total <= pages * perPage.
Proof.
  subst pages. pose proof (len_nonneg (Entry.Entities entry)).
  pose proof (Z.div_mod (total + perPage - 1) perPage ltac:(lia)).
  pose proof (Z.mod_pos_bound (total + perPage - 1) perPage ltac:(lia)).
  fold total in H. nia.
Qed.

Lemma pages_nonneg : 0 <= pages <= total.
Proof.
  pose proof pages_bounds. pose proof (len_nonneg (Entry.Entities entry)).
  fold total in H0. split; nia.
Qed.

Lemma totalPages_div :
  div (sub (add total perPage) 1) perPage = Some pages.
Proof.
  pose proof pages_nonneg. pose proof (len_nonneg (Entry.Entities entry)).
  fold total in H0, no_overflow. unfold max_int in *.
  unfold div, sub, add. rewrite wrap_sub_l.
  destruct (perPage =? 0) eqn:Hz; [lia|].
  rewrite (wrap_id (total + perPage - 1)) by (unfold in_int, min_int, max_int; lia).
  rewrite Z.quot_div_nonneg by lia. fold pages.
  rewrite wrap_id by (unfold in_int, min_int, max_int; lia). done.
Qed.

Let pageCount : Z := if pages =? 0 then 1 else pages.

Lemma pageCount_max : pageCount = Z.max 1 pages.
Proof.
  unfold pageCount. pose proof pages_nonneg.
  destruct (pages =? 0) eqn:Hz; lia.
Qed.

Lemma ComputePagination_total page :
  exists info,
    ComputePagination entry page perPage taxonomyName = Some info /\
    TotalPages info = pageCount.
Proof.
  unfold ComputePagination. fold total. rewrite totalPages_div. simpl.
  eexists. split; [reflexivity|]. done.
Qed.

Lemma windowSize_in_range page :
  1 <= page <= pageCount ->
  windowSize entry perPage taxonomyName page
    = Z.min (page * perPage) total - Z.min ((page - 1) * perPage) total.
Proof.
  intros Hpage. unfold windowSize, ComputePagination. fold total.
  rewrite totalPages_div. simpl.
  pose proof pages_bounds. pose proof pages_nonneg.
  pose proof (len_nonneg (Entry.Entities entry)). fold total in H1, no_overflow.
  rewrite pageCount_max in Hpage. unfold max_int in *.
  assert ((page - 1) * perPage <= total) by nia.
  assert (0 <= (page - 1) * perPage) by nia.
  unfold mul, sub, add.
  rewrite (wrap_id (page - 1)) by (unfold in_int, min_int, max_int; lia).
  rewrite (wrap_id ((page - 1) * perPage))
    by (unfold in_int, min_int, max_int; lia).
  assert ((page - 1) * perPage + perPage <= 2 ^ 63 - 1).
  { destruct (decide (total = 0)); nia. }
  rewrite (wrap_id ((page - 1) * perPage + perPage))
    by (unfold in_int, min_int, max_int; lia).
  destruct (total <? (page - 1) * perPage + perPage) eqn:Hlt; lia.
Qed.

Lemma windows_sum (m : nat) :
  Z.of_nat m <= pageCount ->
  sumZ (windowSize entry perPage taxonomyName <$> seqZ 1 (Z.of_nat m))
    = Z.min (Z.of_nat m * perPage) total.
Proof.
  pose proof (len_nonneg (Entry.Entities entry)). fold total in H.
  induction m as [|m IH]; intros Hm.
  - simpl. lia.
  - rewrite seqZ_S, fmap_app. unfold sumZ in *. rewrite foldr_app. simpl.
    rewrite windowSize_in_range by lia.
    assert (forall l a, foldr Z.add a l = foldr Z.add 0 l + a) as Hfold.
    { induction l as [|x l IHl]; intros a; simpl; [lia|]. rewrite IHl. lia. }
    rewrite Hfold, IH by lia.
    replace (1 + Z.of_nat m - 1) with (Z.of_nat m) by lia.
    replace (1 + Z.of_nat m) with (Z.of_nat (S m)) by lia. lia.
Qed.

Lemma pagination_invariant_holds : pagination_invariant entry perPage taxonomyName.
Proof.
  exists pageCount. split; [apply ComputePagination_total|]. split.
  - exists pages. split; [apply pages_bounds|apply pageCount_max].
  - pose proof pages_bounds. pose proof pages_nonneg.
    assert (0 <= pageCount) by (rewrite pageCount_max; lia).
    rewrite <- (Z2Nat.id pageCount) by done.
    rewrite windows_sum by lia. rewrite Z2Nat.id by done.
    fold total. rewrite pageCount_max. nia.
Qed.

End PaginationFacts.

Section PaginationClaims.
Import Go entity taxonomy.

(** C2, amended: for a positive page size with members + page size - 1
    within the range of [int], every call reports the same page count,
    the ceiling of members over page size and at least one; the windows
    of pages 1 to that count add up to the members; the URL of page 1 has
    no page suffix and that of a page [p > 1] has the suffix of [p]. *)
Theorem pagination_windows_and_urls (entry : Entry.t) (perPage : Z)
    (taxonomyName : string) :
  0 < perPage <= max_int ->
  len (Entry.Entities entry) + perPage - 1 <= max_int ->
  pagination_invariant entry perPage taxonomyName /\
  HubPageURL taxonomyName (Entry.Slug entry) 1
    = ("/" ++ taxonomyName ++ "/" ++ Entry.Slug entry ++ ".html")%string /\
  (forall p, 1 < p ->
     HubPageURL taxonomyName (Entry.Slug entry) p
       = ("/" ++ taxonomyName ++ "/" ++ Entry.Slug entry ++ "-page-"
              ++ fmt_d p ++ ".html")%string).
Proof.
  intros Hpos Hfit. split; [by apply pagination_invariant_holds|].
  split; [done|]. intros p Hp. unfold HubPageURL.
  destruct (p =? 1) eqn:Hp1; [lia|done].
Qed.

Lemma pagination_windows_and_urls_witness :
  let dessert := Entry.mk "Dessert" "dessert" (replicate 70 (sample.recipe "r" "Dessert" [])) in
  (0 < 48 <= max_int) /\
  (len (Entry.Entities dessert) + 48 - 1 <= max_int) /\
  pagination_invariant dessert 48 "category" /\
  (TotalPages <$> ComputePagination dessert 1 48 "category") = Some 2 /\
  windowSize dessert 48 "category" <$> seqZ 1 2 = [48; 22] /\
  HubPageURL "category" "dessert" 2 = "/category/dessert-page-2.html".
Proof.
  intros dessert.
  assert (0 < 48 <= max_int) as Hpos by (vm_compute; split; congruence).
  assert (len (Entry.Entities dessert) + 48 - 1 <= max_int) as Hfit
    by (vm_compute; congruence).
  split; [exact Hpos|]. split; [exact Hfit|].
  split; [exact (proj1 (pagination_windows_and_urls dessert 48 "category" Hpos Hfit))|].
  split; [vm_compute; reflexivity|]. split; vm_compute; reflexivity.
Defined.

(** C2, without the bound on the page size: five members and a page size
    of [2^63 - 2] make the rounding sum wrap around, the page count comes
    out as [-1], and the invariant fails. *)
Lemma pagination_overflow_counterexample :
  let soup := Entry.mk "Soup" "soup" (replicate 5 (sample.recipe "r" "Soup" [])) in
  let perPage := 2 ^ 63 - 2 in
  0 < perPage <= max_int /\
  (TotalPages <$> ComputePagination soup 1 perPage "category") = Some (-1) /\
  ~ pagination_invariant soup perPage "category".
Proof.
  intros soup perPage. split; [vm_compute; split; congruence|].
  split; [vm_compute; reflexivity|].
  intros (T & Hinfo & (c & _ & HT) & _).
  destruct (Hinfo 1) as (info & Hcp & Htp).
  assert ((TotalPages <$> ComputePagination soup 1 perPage "category") = Some (-1))
    as Hrun by (vm_compute; reflexivity).
  rewrite Hcp in Hrun. simpl in Hrun. injection Hrun as Hrun. lia.
Qed.

End PaginationClaims.

(** ** Sitemap splitting *)

Section SitemapFacts.
Import Go output.
Context `{Lib}.

Lemma count_step c n size :
  0 < size -> 0 <= c -> 0 < n ->
  (c - 1) * size < Z.max 0 (n - size) <= c * size ->
  c * size < n <= (c + 1) * size.
Proof.
  intros Hs Hc Hn.
  destruct (Z.max_spec 0 (n - size)) as [[? ->]|[? ->]]; intros Hb.
  - lia.
  - assert (c = 0) as -> by nia. lia.
Qed.

(** The loop started at [i] cuts the rest of the slice into chunks. *)
Lemma chunkLoop_spec entries size :
  0 < size -> len entries + size <= max_int ->
  forall fuel i,
    0 <= i -> len entries - i <= Z.of_nat fuel ->
    exists chunks,
      chunkLoop fuel entries size i = Some chunks /\
      concat chunks = drop (Z.to_nat i) entries /\
      Forall (fun c => 0 < len c <= size) chunks /\
      (len chunks - 1) * size < Z.max 0 (len entries - i) <= len chunks * size.
Proof.
  intros Hsize Hfit. pose proof (len_nonneg entries) as Hn.
  induction fuel as [|fuel IH]; intros i Hi Hfuel.
  - exists []. simpl. destruct (i <? len entries) eqn:Hlt;
      [apply Z.ltb_lt in Hlt; lia|]. apply Z.ltb_ge in Hlt.
    split; [done|]. split; [|split; [done|unfold len in *; simpl; lia]].
    rewrite drop_ge; [done|]. unfold len in *. lia.
  - cbn [chunkLoop]. destruct (i <? len entries) eqn:Hlt.
    + apply Z.ltb_lt in Hlt. unfold add.
      rewrite (wrap_id (i + size))
        by (unfold in_int, min_int, max_int in *; lia).
      destruct (IH (i + size)) as (chunks & -> & Hcat & Hall & Hcount);
        [lia|lia|].
      set (end_ := if len entries <? i + size then len entries else i + size).
      assert (i < end_ <= len entries /\ end_ <= i + size) as Hend.
      { subst end_. destruct (len entries <? i + size) eqn:He; lia. }
      unfold slice_checked.
      assert ((0 <=? i) && (i <=? end_) && (end_ <=? len entries) = true) as ->.
      { rewrite !andb_true_iff, !Z.leb_le. lia. }
      simpl. eexists. split; [reflexivity|].
      assert (len (slice entries i end_) = end_ - i) as Hlen.
      { unfold len, slice in *. rewrite length_take, length_drop. lia. }
      split; [|split].
      * simpl. rewrite Hcat. unfold slice.
        subst end_. destruct (len entries <? i + size) eqn:He.
        -- rewrite (drop_ge entries (Z.to_nat (i + size)))
             by (unfold len in *; lia).
           rewrite app_nil_r. apply take_ge.
           rewrite length_drop. unfold len in *. lia.
        -- replace (Z.to_nat (i + size)) with (Z.to_nat i + Z.to_nat size)%nat
             by lia.
           rewrite <- drop_drop.
           replace (Z.to_nat (i + size - i)) with (Z.to_nat size) by lia.
           apply take_drop.
      * constructor; [lia|done].
      * unfold len in Hcount |- *. simpl length.
        rewrite Nat2Z.inj_succ. unfold len in *.
        rewrite Z.max_r by lia.
        pose proof (count_step (Z.of_nat (length chunks))
                      (Z.of_nat (length entries) - i) size Hsize
                      ltac:(lia) ltac:(lia)) as Hstep.
        replace (Z.of_nat (length entries) - i - size)
          with (Z.of_nat (length entries) - (i + size)) in Hstep by lia.
        specialize (Hstep Hcount).
        replace (Z.succ (Z.of_nat (length chunks)) - 1)
          with (Z.of_nat (length chunks)) by lia.
        replace (Z.succ (Z.of_nat (length chunks)))
          with (Z.of_nat (length chunks) + 1) by lia.
        exact Hstep.
    + apply Z.ltb_ge in Hlt. exists []. split; [done|].
      split; [|split; [done|unfold len in *; simpl; lia]].
      rewrite drop_ge; [done|]. unfold len in *. lia.
Qed.

Lemma sumZ_len_concat {A} (ls : list (list A)) :
  sumZ (len <$> ls) = len (concat ls).
Proof.
  unfold sumZ. induction ls as [|l ls IH]; [done|].
  rewrite fmap_cons. cbn [foldr concat]. rewrite IH.
  unfold len. rewrite length_app. lia.
Qed.


End SitemapFacts.

Section SitemapWitnesses.
Import Go output reference sample.


End SitemapWitnesses.

(** ** Letter groups *)

Section LetterFacts.
Import Go entity taxonomy.
Context `{Lib}.

Lemma bucketOf_snoc es e k :
  bucketOf (es ++ [e]) k
  = bucketOf es k ++ (if decide (letterOf (Entry.Name e) = Some k) then [e] else []).
Proof.
  unfold bucketOf. by rewrite filter_app.
Qed.

Lemma letterStep_state es e st :
  letters_state es st -> letters_state (es ++ [e]) (letterStep st e).
Proof.
  destruct st as [groups letters]. intros (Hg & Hnd & Hl). simpl in *.
  unfold letterStep. destruct (letterOf (Entry.Name e)) as [letter|] eqn:Hlet.
  - split; [|split]; simpl.
    + intros k. rewrite bucketOf_snoc, Hlet.
      destruct (decide (letter = k)) as [->|Hne].
      * rewrite lookup_insert_eq, Hg.
        rewrite (decide_True (P := Some k = Some k)) by done.
        destruct (decide (bucketOf es k ++ [e] = [])) as [He|_];
          [by destruct (bucketOf es k)|].
        destruct (decide (bucketOf es k = [])) as [->|_]; done.
      * rewrite lookup_insert_ne by done.
        rewrite (decide_False (P := Some letter = Some k)) by (by intros [= ->]).
        rewrite app_nil_r. apply Hg.
    + rewrite Hg. destruct (decide (bucketOf es letter = [])) as [He|He]; [|done].
      apply NoDup_app. split; [done|]. split; [|apply NoDup_singleton].
      intros k Hk ->%list_elem_of_singleton. by apply Hl in Hk.
    + intros k. rewrite bucketOf_snoc, Hlet.
      assert (k ∈ (match groups !! letter with
                   | Some _ => letters
                   | None => letters ++ [letter]
                   end) <-> k ∈ letters \/ k = letter) as ->.
      { rewrite Hg. destruct (decide (bucketOf es letter = [])) as [He|He].
        - rewrite elem_of_app, list_elem_of_singleton. tauto.
        - split; [tauto|]. intros [?| ->]; [done|]. by apply Hl. }
      rewrite Hl. destruct (decide (Some letter = Some k)) as [[= ->]|Hne].
      * split; [by destruct (bucketOf es k)|tauto].
      * rewrite app_nil_r. split; [intros [?| ->]; [done|congruence]|tauto].
  - split; [|split]; simpl.
    + intros k. rewrite bucketOf_snoc, Hlet.
      rewrite (decide_False (P := None = Some k)) by done.
      rewrite app_nil_r. apply Hg.
    + done.
    + intros k. rewrite bucketOf_snoc, Hlet.
      rewrite (decide_False (P := None = Some k)) by done.
      rewrite app_nil_r. apply Hl.
Qed.

Lemma letters_loop_state entries :
  letters_state entries (foldl letterStep (∅, []) entries).
Proof.
  induction entries as [|e es IH] using rev_ind.
  - split; [|split]; simpl.
    + intros k. by rewrite lookup_empty.
    + apply NoDup_nil_2.
    + intros k. split; [by intros ?%elem_of_nil|done].
  - rewrite foldl_snoc. by apply letterStep_state.
Qed.

Lemma concat_nils {A B} (f : B -> list A) (l : list B) :
  (forall k, f k = []) -> concat (f <$> l) = [].
Proof.
  intros Hf. induction l as [|k l IH]; [done|].
  rewrite fmap_cons. cbn [concat]. by rewrite Hf, IH.
Qed.

Lemma concat_once {A} (f : string -> list A) (x : A) k0 letters :
  NoDup letters -> k0 ∈ letters ->
  concat ((fun k => if decide (k = k0) then x :: f k else f k) <$> letters)
    ≡ₚ x :: concat (f <$> letters).
Proof.
  induction 1 as [|k ks Hk Hks IH]; [by intros ?%elem_of_nil|].
  rewrite elem_of_cons. intros Hin. rewrite !fmap_cons. cbn [concat].
  destruct (decide (k = k0)) as [->|Hne].
  - simpl. constructor. apply Permutation_app_head.
    assert ((fun k => if decide (k = k0) then x :: f k else f k) <$> ks
            = f <$> ks) as ->; [|done].
    apply Forall_fmap_ext_1, Forall_forall. intros k Hin'.
    destruct (decide (k = k0)) as [->|]; done.
  - destruct Hin as [->|Hin]; [done|]. rewrite (IH Hin).
    by rewrite Permutation_middle.
Qed.

Lemma bucketOf_cons e es k :
  bucketOf (e :: es) k
  = if decide (letterOf (Entry.Name e) = Some k) then e :: bucketOf es k
    else bucketOf es k.
Proof. unfold bucketOf. by rewrite filter_cons. Qed.

Lemma concat_buckets es letters :
  NoDup letters -> (forall k, bucketOf es k <> [] -> k ∈ letters) ->
  concat (bucketOf es <$> letters)
    ≡ₚ filter (fun e => Entry.Name e <> "") es.
Proof.
  intros Hnd. induction es as [|e es IH]; intros Hall.
  - by rewrite concat_nils.
  - assert (forall k, bucketOf es k <> [] -> k ∈ letters) as Hall'.
    { intros k Hk. apply Hall. rewrite bucketOf_cons. by destruct (decide _). }
    specialize (IH Hall'). rewrite filter_cons.
    destruct (letterOf (Entry.Name e)) as [k0|] eqn:Hlet.
    + rewrite decide_True by (by destruct (Entry.Name e)).
      rewrite <- IH.
      assert (k0 ∈ letters) as Hk0.
      { apply Hall. rewrite bucketOf_cons, Hlet. by rewrite decide_True. }
      rewrite <- (concat_once (bucketOf es) e k0 letters Hnd Hk0).
      assert (bucketOf (e :: es) <$> letters
              = (fun k => if decide (k = k0) then e :: bucketOf es k
                          else bucketOf es k) <$> letters) as ->; [|done].
      apply Forall_fmap_ext_1, Forall_forall. intros k _.
      rewrite bucketOf_cons, Hlet.
      destruct (decide (k = k0)) as [->|Hne].
      * by rewrite decide_True.
      * by rewrite decide_False by (by intros [= ->]).
    + assert (Entry.Name e = "") as Hname
        by (revert Hlet; by destruct (Entry.Name e)).
      rewrite decide_False by (by intros Hn).
      rewrite <- IH.
      assert (bucketOf (e :: es) <$> letters = bucketOf es <$> letters)
        as ->; [|done].
      apply Forall_fmap_ext_1, Forall_forall. intros k _.
      rewrite bucketOf_cons, Hlet. by rewrite decide_False.
Qed.

Lemma strings_sorted_strict (l : list string) :
  StronglySorted (fun a b => String.leb a b = true) l -> NoDup l ->
  StronglySorted (fun a b => String.ltb a b = true) l.
Proof.
  induction 1 as [|a l Hl IH Ha]; [constructor|].
  rewrite NoDup_cons. intros [Hnotin Hnd]. constructor; [by apply IH|].
  rewrite Forall_forall in Ha |- *. intros b Hb.
  destruct (String.ltb a b) eqn:Hab; [done|].
  exfalso. apply Hnotin. specialize (Ha b Hb). apply leb_ltb in Ha.
  by rewrite (ltb_total _ _ Hab Ha).
Qed.

(** [GroupByLetter], spelled out: the sorted labels, each with its bucket. *)
Lemma GroupByLetter_buckets entries :
  Strings_sorts ->
  exists letters,
    GroupByLetter entries
      = (fun k => LetterGroup.mk k (bucketOf entries k)) <$> letters /\
    StronglySorted (fun a b => String.ltb a b = true) letters /\
    NoDup letters /\
    (forall k, k ∈ letters <-> bucketOf entries k <> []).
Proof.
  intros Hsort. unfold GroupByLetter.
  pose proof (letters_loop_state entries) as Hst.
  destruct (foldl letterStep (∅, []) entries) as [groups letters].
  destruct Hst as (Hg & Hnd & Hl). simpl in *.
  destruct (Hsort letters) as [Hperm Hsorted].
  exists (sort_Strings letters).
  assert (NoDup (sort_Strings letters)) as Hnd' by by rewrite Hperm.
  split; [|split; [by apply strings_sorted_strict|split; [done|]]].
  - apply Forall_fmap_ext_1, Forall_forall. intros k Hk. f_equal.
    rewrite Hperm in Hk. apply Hl in Hk. rewrite Hg.
    by rewrite decide_False.
  - intros k. by rewrite Hperm.
Qed.

Lemma byte_val_range c : 0 <= byte_val c < 256.
Proof.
  unfold byte_val. pose proof (N_ascii_bounded c). lia.
Qed.

Lemma byte_of_val c : byte_of (byte_val c) = c.
Proof.
  unfold byte_of. pose proof (byte_val_range c).
  rewrite Z.mod_small by done. unfold byte_val.
  rewrite N2Z.id. apply ascii_N_embedding.
Qed.

Lemma letterOf_ascii c rest :
  ToUpper_ascii -> IsLetter_ascii ->
  is_ascii_byte c = true ->
  letterOf (String c rest)
    = Some (if is_lower_byte c || is_upper_byte c
            then String (upper_byte c) "" else "#").
Proof.
  intros Hup Hlet Hc. unfold letterOf. f_equal.
  pose proof (byte_val_range c) as Hr.
  unfold is_ascii_byte in Hc. apply Z.ltb_lt in Hc.
  rewrite (Hup (byte_val c)) by lia.
  unfold upper_byte, is_lower_byte, is_upper_byte.
  destruct ((97 <=? byte_val c) && (byte_val c <=? 122)) eqn:Hlow.
  - apply andb_prop in Hlow as [?%Z.leb_le ?%Z.leb_le].
    rewrite (Hlet (byte_val c - 32)) by lia.
    assert ((65 <=? byte_val c - 32) && (byte_val c - 32 <=? 90) = true) as ->
      by (rewrite andb_true_iff, !Z.leb_le; lia).
    simpl. unfold utf8_of_rune.
    assert ((byte_val c - 32 <? 0) || (1114111 <? byte_val c - 32)
            || (55296 <=? byte_val c - 32) && (byte_val c - 32 <=? 57343)
            = false) as -> by lia.
    by assert ((byte_val c - 32 <? 128) = true) as -> by lia.
  - rewrite (Hlet (byte_val c)) by lia. rewrite Hlow, orb_false_r. simpl.
    destruct ((65 <=? byte_val c) && (byte_val c <=? 90)); [|done].
    unfold utf8_of_rune.
    assert ((byte_val c <? 0) || (1114111 <? byte_val c)
            || (55296 <=? byte_val c) && (byte_val c <=? 57343)
            = false) as -> by lia.
    assert ((byte_val c <? 128) = true) as -> by lia.
    by rewrite byte_of_val.
Qed.


(** The bucket is decided by the first byte alone, so names whose first
    characters differ only after their first byte share a bucket. *)
Lemma letterOf_first_byte c rest1 rest2 :
  letterOf (String c rest1) = letterOf (String c rest2).
Proof. done. Qed.

End LetterFacts.

Section LetterWitnesses.
Import Go entity taxonomy reference.



End LetterWitnesses.

(** ** Loading *)

Section LoaderFacts.
Import Go entity loader build.
Context `{Lib}.

Lemma prefix_append (s t : string) : String.prefix s (s ++ t) = true.
Proof.
  induction s as [|a s IH]; [by destruct t|].
  change (String.prefix (String a s) (String a (s ++ t)) = true).
  cbn [String.prefix]. destruct (ascii_dec a a); [exact IH|done].
Qed.

Lemma drop_append (s t : string) :
  String.substring (String.length s) (String.length t) (s ++ t) = t.
Proof.
  induction s as [|a s IH]; [|exact IH].
  change (String.substring 0 (String.length t) t = t).
  induction t as [|b t IHt]; [done|].
  cbn [String.length String.substring]. by rewrite IHt.
Qed.

Lemma length_append (s t : string) :
  String.length (s ++ t) = (String.length s + String.length t)%nat.
Proof.
  induction s as [|a s IH]; [done|].
  change (String a s ++ t)%string with (String a (s ++ t)).
  cbn [String.length]. by rewrite IH.
Qed.

Lemma deriveSlug_field cfg path fields name s :
  config.Data_EntitySlug_Source cfg = ("field:" ++ name)%string ->
  fields !! name = Some (VString s) ->
  deriveSlug cfg path fields = ToSlug s.
Proof.
  intros Hsrc Hf. unfold deriveSlug. rewrite Hsrc.
  unfold HasPrefix. rewrite prefix_append.
  assert (from 6 ("field:" ++ name) = name) as ->.
  { unfold from. rewrite length_append.
    replace (String.length "field:" + String.length name - 6)%nat
      with (String.length name) by (cbn; lia).
    apply (drop_append "field:"). }
  by rewrite Hf.
Qed.

Lemma deriveSlug_filename cfg path fields :
  HasPrefix (config.Data_EntitySlug_Source cfg) "field:" = false ->
  deriveSlug cfg path fields
  = TrimSuffix (filepath_Base path) (filepath_Ext (filepath_Base path)).
Proof. intros Hsrc. unfold deriveSlug. by rewrite Hsrc. Qed.

Lemma buildSlugMap_snoc entities e :
  buildSlugMap (entities ++ [e]) = <[Slug e := e]> (buildSlugMap entities).
Proof. unfold buildSlugMap. by rewrite foldl_snoc. Qed.

Lemma buildSlugMap_last entities slug :
  buildSlugMap entities !! slug
  = last (filter (fun e => Slug e = slug) entities).
Proof.
  induction entities as [|e es IH] using rev_ind; [done|].
  rewrite buildSlugMap_snoc, filter_app, filter_cons, filter_nil.
  destruct (decide (Slug e = slug)) as [<-|Hne].
  - by rewrite lookup_insert_eq, last_snoc.
  - rewrite lookup_insert_ne by done. by rewrite app_nil_r.
Qed.


End LoaderFacts.

Section LoaderWitnesses.
Import Go entity loader build reference sample.

(** C7: in filename mode, and when the designated field is missing, the
    slug is the file name without its extension, not its slug; in field
    mode the field's value is slugified. *)
Theorem deriveSlug_filename_unslugified :
  let fields : gmap string Value := {[ "title" := VString "My Recipe" ]} in
  deriveSlug (site "filename" 48) "data/My Recipe.md" fields = "My Recipe" /\
  deriveSlug (site "field:name" 48) "data/My Recipe.md" fields = "My Recipe" /\
  ToSlug "My Recipe" = "my-recipe" /\
  deriveSlug (site "field:title" 48) "data/My Recipe.md" fields = "my-recipe".
Proof. repeat split; vm_compute; reflexivity. Qed.



End LoaderWitnesses.

(** ** The build monad *)

Section MonadFacts.
Import Go build.

Lemma safe_weaken {A} P (f f' p p' : Prop) (m : M A) :
  (f -> f') -> (p -> p') -> safe P f p m -> safe P f' p' m.
Proof.
  intros Hf Hp Hm st Hst. destruct (Hm st Hst) as [HP Ho]. split; [done|].
  destruct (m st).1; auto.
Qed.

Lemma safe_ret {A} P (f p : Prop) (a : A) : safe P f p (ret a).
Proof. by intros st Hst. Qed.

Lemma safe_fail {A} P (f p : Prop) err : f -> safe P f p (@fail A err).
Proof. by intros Hf st Hst. Qed.

Lemma safe_orPanic {A} P (f p : Prop) (o : option A) :
  p \/ o <> None -> safe P f p (orPanic o).
Proof. intros Hp st Hst. destruct o; simpl; [done|]. split; [done|]. tauto. Qed.

Lemma safe_check P (f p : Prop) prefix o :
  f \/ o = None -> safe P f p (check prefix o).
Proof.
  intros Hf st Hst. destruct o; simpl; [|done]. split; [done|].
  by destruct Hf.
Qed.

(** The continuation needs to be safe only for what [m] can return. *)
Lemma safe_bind_done {A B} P (f p : Prop) (m : M A) (k : A -> M B) :
  safe P f p m ->
  (forall a st st', m st = (Done a, st') -> safe P f p (k a)) ->
  safe P f p (bind m k).
Proof.
  intros Hm Hk st Hst. unfold bind. destruct (Hm st Hst) as [HP Ho].
  destruct (m st) as [[a|err|] st'] eqn:Hrun; simpl in *; [|done|done].
  by apply (Hk a st st' Hrun).
Qed.

Lemma safe_bind {A B} P (f p : Prop) (m : M A) (k : A -> M B) :
  safe P f p m -> (forall a, safe P f p (k a)) -> safe P f p (bind m k).
Proof. intros Hm Hk. apply safe_bind_done; auto. Qed.

Lemma safe_forEach {A} P (f p : Prop) (l : list A) body :
  (forall x, x ∈ l -> safe P f p (body x)) -> safe P f p (forEach l body).
Proof.
  induction l as [|x l IH]; intros Hbody; simpl; [apply safe_ret|].
  apply safe_bind; [apply Hbody, list_elem_of_here|]. intros _.
  apply IH. intros y Hy. by apply Hbody, list_elem_of_further.
Qed.

(** [recover] around a computation whose errors the handler takes. *)
Lemma safe_recover {A} P (f p : Prop) (m : M A) handler :
  safe P True p m -> (forall err, safe P f p (handler err)) ->
  safe P f p (recover m handler).
Proof.
  intros Hm Hh st Hst. unfold recover. destruct (Hm st Hst) as [HP Ho].
  destruct (m st) as [[a|err|] st'] eqn:Hrun; simpl in *; [done| |done].
  by apply Hh.
Qed.

(** [recover] around a computation that returns no error. *)
Lemma safe_recover_idle {A} P (f p : Prop) (m : M A) handler :
  safe P False p m -> safe P f p (recover m handler).
Proof.
  intros Hm st Hst. unfold recover. destruct (Hm st Hst) as [HP Ho].
  by destruct (m st) as [[a|err|] st'] eqn:Hrun.
Qed.

(** [recover] with a handler that returns the error behind a prefix. *)
Lemma safe_rewrap {A} P (f p : Prop) (m : M A) (rewrap : error -> error) :
  safe P f p m -> safe P f p (recover m (fun err => fail (rewrap err))).
Proof.
  intros Hm st Hst. unfold recover. destruct (Hm st Hst) as [HP Ho].
  by destruct (m st) as [[a|err|] st'] eqn:Hrun.
Qed.

Lemma safe_emit P ok (f p : Prop) ev :
  stable ok P -> ok ev -> safe P f p (emit ev).
Proof.
  intros [_ Hev] Hok st Hst. split; [|done]. simpl. by apply Hev.
Qed.

Lemma safe_write P ok (f p : Prop) env file :
  stable ok P -> ok (Wrote file) -> safe P f p (write env file).
Proof.
  intros HP Hok. unfold write. destruct (WriteFile env file).
  - apply safe_ret.
  - apply safe_bind; [by eapply safe_emit|]. intros _. apply safe_ret.
Qed.

Lemma safe_getSitemap P (f p : Prop) : safe P f p getSitemap.
Proof. by intros st Hst. Qed.

Lemma safe_getEntityErrors P (f p : Prop) : safe P f p getEntityErrors.
Proof. by intros st Hst. Qed.

(** *** What follows from completion *)

Lemma onDone_bind_l {A B} (m : M A) (k : A -> M B) Q :
  onDone m Q -> onDone (bind m k) Q.
Proof.
  intros Hm st b st' Hrun. unfold bind in Hrun.
  destruct (m st) as [[a|err|] st1] eqn:Hm1; [|done|done]. by eapply Hm.
Qed.

Lemma onDone_bind_r {A B} (m : M A) (k : A -> M B) Q :
  (forall a st st', m st = (Done a, st') -> onDone (k a) Q) ->
  onDone (bind m k) Q.
Proof.
  intros Hk st b st' Hrun. unfold bind in Hrun.
  destruct (m st) as [[a|err|] st1] eqn:Hm1; [|done|done].
  by eapply (Hk a st st1 Hm1).
Qed.

Lemma onDone_forEach {A} (l : list A) body x Q :
  x ∈ l -> onDone (body x) Q -> onDone (forEach l body) Q.
Proof.
  induction l as [|y l IH]; [by intros ?%elem_of_nil|].
  rewrite elem_of_cons. intros [->|Hin] Hx; simpl.
  - by apply onDone_bind_l.
  - apply onDone_bind_r. intros _ _ _ _. by apply IH.
Qed.

(** A handler that turns the error into another one. *)
Lemma onDone_recover_fail {A} (m : M A) (rewrap : error -> error) Q :
  onDone m Q -> onDone (recover m (fun err => fail (rewrap err))) Q.
Proof.
  intros Hm st a st' Hrun. unfold recover in Hrun.
  destruct (m st) as [[a'|err|] st1] eqn:Hm1; [|done|done].
  by eapply Hm.
Qed.

Lemma onDone_check prefix o : onDone (check prefix o) (o = None).
Proof. intros st a st' Hrun. by destruct o. Qed.

Lemma orPanic_done {A} (o : option A) a st st' :
  orPanic o st = (Done a, st') -> o = Some a.
Proof. destruct o; simpl; [by intros [= ->]|done]. Qed.

End MonadFacts.

(** ** Page windows never leave the slice *)

Section WindowFacts.
Import Go entity taxonomy output build.

Lemma wrap_high z : 2 ^ 63 <= z < 2 ^ 63 + 2 ^ 64 -> wrap z = z - 2 ^ 64.
Proof.
  intros Hz. unfold wrap.
  replace (z + 2 ^ 63) with ((z - 2 ^ 63) + 1 * 2 ^ 64) by lia.
  rewrite Z_mod_plus_full, Z.mod_small; lia.
Qed.

Lemma pageTotal_some n k : k <> 0 -> exists T, pageTotal n k = Some T.
Proof.
  intros Hk. unfold pageTotal, div.
  destruct (k =? 0) eqn:Hz; [lia|]. simpl. eauto.
Qed.

(** For a positive page size, the window of each page from 1 to the page
    count lies within the slice, also when the rounding sum wraps. *)
Lemma window_bounds n k T page :
  0 <= n <= max_int -> 0 < k <= max_int ->
  pageTotal n k = Some T -> 1 <= page <= T ->
  let start := mul (sub page 1) k in
  let end_ := if n <? add start k then n else add start k in
  0 <= start <= end_ /\ end_ <= n.
Proof.
  unfold max_int. intros Hn Hk HT Hpage.
  unfold pageTotal, div in HT.
  destruct (k =? 0) eqn:Hz; [lia|]. simpl in HT. injection HT as HT.
  unfold sub, add in HT. rewrite wrap_sub_l in HT.
  unfold mul, sub, add.
  destruct (decide (n + k - 1 <= 2 ^ 63 - 1)) as [Hfit|Hover].
  - rewrite (wrap_id (n + k - 1)) in HT
      by (unfold in_int, min_int, max_int; lia).
    rewrite Z.quot_div_nonneg in HT by lia.
    pose proof (Z.div_mod (n + k - 1) k ltac:(lia)) as Hdm.
    pose proof (Z.mod_pos_bound (n + k - 1) k ltac:(lia)) as Hmb.
    set (q := (n + k - 1) / k) in *.
    assert (0 <= q <= n) as Hq by nia.
    rewrite (wrap_id q) in HT by (unfold in_int, min_int, max_int; lia).
    assert ((page - 1) * k <= n /\ 0 <= (page - 1) * k) as [Hs1 Hs2].
    { destruct (q =? 0) eqn:Hq0; nia. }
    rewrite (wrap_id (page - 1)) by (unfold in_int, min_int, max_int; lia).
    rewrite (wrap_id ((page - 1) * k))
      by (unfold in_int, min_int, max_int; lia).
    destruct (decide (n = 0)) as [Hn0|Hn0].
    + assert ((page - 1) * k = 0) as -> by lia.
      rewrite (wrap_id (0 + k)) by (unfold in_int, min_int, max_int; lia).
      destruct (n <? 0 + k) eqn:Hlt; lia.
    + assert ((page - 1) * k < n) by (destruct (q =? 0) eqn:Hq0; nia).
      rewrite (wrap_id ((page - 1) * k + k))
        by (unfold in_int, min_int, max_int; lia).
      destruct (n <? (page - 1) * k + k) eqn:Hlt; lia.
  - rewrite (wrap_high (n + k - 1)) in HT by lia.
    set (r := n + k - 1 - 2 ^ 64) in *.
    assert (- 2 ^ 63 <= r < 0) as Hr by (subst r; lia).
    assert (r <= Z.quot r k <= 0) as Hquot.
    { replace r with (- (- r)) by lia. rewrite Z.quot_opp_l by lia.
      rewrite Z.quot_div_nonneg by lia.
      pose proof (Z.div_pos (- r) k ltac:(lia) ltac:(lia)).
      pose proof (Z.div_le_upper_bound (- r) k (- r) ltac:(lia) ltac:(nia)).
      lia. }
    rewrite (wrap_id (Z.quot r k)) in HT
      by (unfold in_int, min_int, max_int; lia).
    assert (page = 1) as -> by (destruct (Z.quot r k =? 0) eqn:Hq0; lia).
    replace (1 - 1) with 0 by lia.
    rewrite (wrap_id 0) by (unfold in_int, min_int, max_int; lia).
    rewrite Z.mul_0_l.
    rewrite (wrap_id 0) by (unfold in_int, min_int, max_int; lia).
    rewrite (wrap_id (0 + k)) by (unfold in_int, min_int, max_int; lia).
    destruct (n <? 0 + k) eqn:Hlt; lia.
Qed.

Lemma slice_checked_some {A} (l : list A) i j :
  0 <= i <= j -> j <= len l -> exists s, slice_checked l i j = Some s.
Proof.
  intros Hi Hj. unfold slice_checked.
  assert ((0 <=? i) && (i <=? j) && (j <=? len l) = true) as ->
    by (rewrite !andb_true_iff, !Z.leb_le; lia).
  eauto.
Qed.

Lemma ComputePagination_some entry page k name T :
  pageTotal (len (Entry.Entities entry)) k = Some T ->
  exists info,
    ComputePagination entry page k name = Some info /\
    StartIndex info = mul (sub page 1) k /\
    EndIndex info
      = (if len (Entry.Entities entry) <? add (mul (sub page 1) k) k
         then len (Entry.Entities entry) else add (mul (sub page 1) k) k).
Proof.
  unfold pageTotal, ComputePagination. intros HT.
  destruct (div (sub (add (len (Entry.Entities entry)) k) 1) k) as [q|];
    [|done].
  simpl. eauto.
Qed.

Lemma hub_window_some entry page k name T :
  0 < k <= max_int -> len (Entry.Entities entry) <= max_int ->
  pageTotal (len (Entry.Entities entry)) k = Some T -> 1 <= page <= T ->
  exists info entities,
    ComputePagination entry page k name = Some info /\
    pageEntities entry info = Some entities.
Proof.
  intros Hk Hn HT Hpage.
  destruct (ComputePagination_some entry page k name T HT)
    as (info & Hinfo & Hstart & Hend).
  pose proof (len_nonneg (Entry.Entities entry)) as Hn0.
  pose proof (window_bounds _ k T page (conj Hn0 Hn) Hk HT Hpage) as Hw.
  simpl in Hw. rewrite <- Hend, <- Hstart in Hw.
  exists info. unfold pageEntities.
  destruct (StartIndex info <? len (Entry.Entities entry)); [|by eauto].
  assert ((len (Entry.Entities entry) <? EndIndex info) = false) as -> by lia.
  destruct (slice_checked_some (Entry.Entities entry) (StartIndex info)
              (EndIndex info)) as [s Hs]; [lia|lia|]. eauto.
Qed.

End WindowFacts.

(** ** The steps of the build *)

Section BuilderSafety.
Import Go entity taxonomy output build.
Context `{Lib} (cfg : config.Config) (env : Env).
Context (P : State -> Prop) (ok : Event -> Prop) (mayFail mayPanic : Prop).
Hypothesis HP : stable ok P.
Hypothesis Hok : forall ev, early ev -> ok ev.
Hypothesis HF : mayFail \/ onlyEntityPagesFail cfg env.
Hypothesis HPn :
  mayPanic \/ 0 < config.Pagination_EntitiesPerPage cfg <= max_int.

Ltac bind_step := apply safe_bind; [|intros ?].

Lemma safe_addSitemapEntry path prio freq :
  safe P mayFail mayPanic (addSitemapEntry cfg env path prio freq).
Proof. intros st Hst. split; [|done]. by apply (stable_sitemap _ _ HP). Qed.

Lemma safe_warn message : safe P mayFail mayPanic (warn message).
Proof. eapply safe_emit; [exact HP|]. by apply Hok. Qed.

Lemma safe_shareImage filename what :
  safe P mayFail mayPanic (shareImage env filename what).
Proof.
  unfold shareImage, writeShareSVG. apply safe_bind.
  - destruct (MkdirAll env DShare); [apply safe_ret|].
    eapply safe_write; [exact HP|]. by apply Hok.
  - intros [err|]; [apply safe_warn|apply safe_ret].
Qed.

Lemma write_result file w st st' :
  write env file st = (Done w, st') -> w = WriteFile env file.
Proof.
  unfold write. destruct (WriteFile env file); simpl; by intros [= <-].
Qed.

Lemma safe_page (f : Prop) a b pg :
  early (Wrote (FPage pg)) -> f \/ ~ failsPage env pg ->
  safe P f mayPanic (renderAndWrite env a b pg).
Proof.
  intros Hearly Hpg. unfold renderAndWrite. bind_step.
  - apply safe_check. destruct Hpg as [?|Hpg]; [by left|right].
    destruct (Render env pg) eqn:Hr; [|done].
    exfalso. apply Hpg. left. by rewrite Hr.
  - apply safe_bind_done; [eapply safe_write; [exact HP|by apply Hok]|].
    intros w st st' Hw. apply write_result in Hw. apply safe_check.
    destruct Hpg as [?|Hpg]; [by left|right]. subst w.
    destruct (WriteFile env (FPage pg)) eqn:Hr; [|done].
    exfalso. apply Hpg. right. by rewrite Hr.
Qed.

Lemma structural_page_ok pg :
  (forall slug, pg <> EntityPage slug) ->
  mayFail \/ ~ failsPage env pg.
Proof.
  intros Hpg. destruct HF as [?|(_ & _ & _ & Hrender & Hwrite)]; [by left|].
  right. intros [Hr|Hw].
  - by apply Hr, Hrender.
  - apply Hw, Hwrite. intros slug [= ->]. by apply (Hpg slug).
Qed.

Lemma safe_renderEntityPage e :
  safe P True mayPanic (renderEntityPage cfg env e).
Proof.
  unfold renderEntityPage. bind_step.
  - eapply safe_weaken; [| |apply safe_shareImage]; auto.
  - bind_step.
    + apply safe_page; [done|by left].
    + eapply safe_weaken; [| |apply safe_addSitemapEntry]; auto.
Qed.

Lemma safe_countEntityError :
  countless P -> safe P mayFail mayPanic countEntityError.
Proof. intros Hc st Hst. split; [|done]. by apply Hc. Qed.

Lemma safe_entityWorker e :
  countless P -> safe P mayFail mayPanic (entityWorker cfg env e).
Proof.
  intros Hc. unfold entityWorker. apply safe_recover.
  - apply safe_renderEntityPage.
  - intros err. bind_step; [by apply safe_countEntityError|apply safe_warn].
Qed.

Lemma safe_renderEntityPages entities :
  countless P -> safe P mayFail mayPanic (renderEntityPages cfg env entities).
Proof.
  intros Hc. apply safe_forEach. intros e _. by apply safe_entityWorker.
Qed.

Lemma safe_renderHubPage tax entry page T :
  mayPanic \/ len (Entry.Entities entry) <= max_int ->
  pageTotal (len (Entry.Entities entry)) (config.Pagination_EntitiesPerPage cfg)
    = Some T ->
  1 <= page <= T ->
  safe P mayFail mayPanic
       (renderHubPage cfg env tax entry (config.Pagination_EntitiesPerPage cfg)
                      page).
Proof.
  intros Hlen HT Hpage. unfold renderHubPage.
  assert (mayPanic \/
          exists info entities,
            ComputePagination entry page (config.Pagination_EntitiesPerPage cfg)
                              (Taxonomy.Name tax) = Some info /\
            pageEntities entry info = Some entities) as Hwin.
  { destruct HPn as [?|Hk]; [by left|]. destruct Hlen as [?|Hlen]; [by left|].
    right. by eapply hub_window_some. }
  apply safe_bind_done.
  - apply safe_orPanic. destruct Hwin as [?|(info & ? & -> & _)]; [by left|].
    by right.
  - intros info st st' Hinfo%orPanic_done. bind_step.
    + apply safe_orPanic. destruct Hwin as [?|(info' & ? & Hi & Hp)]; [by left|].
      right. rewrite Hi in Hinfo. injection Hinfo as ->. by rewrite Hp.
    + bind_step.
      * apply safe_page; [done|]. by apply structural_page_ok.
      * apply safe_addSitemapEntry.
Qed.

Lemma safe_renderHubPages tax entry :
  mayPanic \/ len (Entry.Entities entry) <= max_int ->
  safe P mayFail mayPanic
       (renderHubPages cfg env tax (config.Pagination_EntitiesPerPage cfg) entry).
Proof.
  intros Hlen. unfold renderHubPages. apply safe_bind_done.
  - apply safe_orPanic. destruct HPn as [?|Hk]; [by left|]. right.
    destruct (pageTotal_some (len (Entry.Entities entry))
                (config.Pagination_EntitiesPerPage cfg)) as [T ->]; [lia|done].
  - intros T st st' HT%orPanic_done. bind_step.
    + destruct (1 <=? T); [apply safe_shareImage|apply safe_ret].
    + apply safe_forEach. intros page Hin%elem_of_seqZ.
      eapply safe_renderHubPage; [done|done|lia].
Qed.

Lemma safe_renderLetterPage tax lg :
  safe P mayFail mayPanic (renderLetterPage cfg env tax lg).
Proof.
  unfold renderLetterPage. bind_step; [apply safe_shareImage|].
  bind_step; [|apply safe_addSitemapEntry].
  apply safe_page; [done|]. by apply structural_page_ok.
Qed.

Lemma safe_renderTaxonomyPages tax :
  mayPanic \/ (forall entry, entry ∈ Taxonomy.Entries tax ->
                             len (Entry.Entities entry) <= max_int) ->
  safe P mayFail mayPanic (renderTaxonomyPages cfg env tax).
Proof.
  intros Hlen. unfold renderTaxonomyPages. bind_step.
  { apply safe_check. destruct HF as [?|(_ & _ & Hdir & _)]; [by left|].
    right. apply Hdir. }
  bind_step.
  { apply safe_forEach. intros entry Hin. apply safe_renderHubPages.
    destruct Hlen as [?|Hlen]; [by left|]. right. by apply Hlen. }
  bind_step; [apply safe_shareImage|].
  bind_step; [apply safe_page; [done|by apply structural_page_ok]|].
  bind_step; [apply safe_addSitemapEntry|].
  destruct (_ <=? _); [|apply safe_ret].
  apply safe_forEach. intros lg _. apply safe_renderLetterPage.
Qed.

Lemma safe_renderAllEntitiesPages entities :
  mayPanic \/ len entities <= max_int ->
  safe P mayFail mayPanic (renderAllEntitiesPages cfg env entities).
Proof.
  intros Hlen. unfold renderAllEntitiesPages. bind_step.
  { apply safe_check. destruct HF as [?|(_ & _ & Hdir & _)]; [by left|].
    right. apply Hdir. }
  bind_step; [apply safe_shareImage|].
  apply safe_bind_done.
  - apply safe_orPanic. destruct HPn as [?|Hk]; [by left|]. right.
    destruct (pageTotal_some (len entities)
                (config.Pagination_EntitiesPerPage cfg)) as [T ->]; [lia|done].
  - intros T st st' HT%orPanic_done. apply safe_forEach.
    intros page Hin%elem_of_seqZ. unfold renderAllEntitiesPage. bind_step.
    + apply safe_orPanic. destruct HPn as [?|Hk]; [by left|].
      destruct Hlen as [?|Hlen]; [by left|]. right.
      pose proof (window_bounds (len entities) _ T page
                    (conj (len_nonneg entities) Hlen) Hk HT ltac:(lia)) as Hw.
      simpl in Hw.
      destruct (slice_checked_some entities _ _ (proj1 Hw) (proj2 Hw))
        as [s ->]. done.
    + bind_step; [|apply safe_addSitemapEntry].
      apply safe_page; [done|]. by apply structural_page_ok.
Qed.

Lemma safe_renderHomepage : safe P mayFail mayPanic (renderHomepage env).
Proof.
  unfold renderHomepage. bind_step; [apply safe_shareImage|].
  apply safe_page; [done|]. by apply structural_page_ok.
Qed.

Lemma safe_structure entities taxonomies :
  mayPanic \/ slicesFit entities taxonomies ->
  safe P mayFail mayPanic (structure cfg env entities taxonomies).
Proof.
  intros Hfit. unfold structure. bind_step.
  { apply safe_forEach. intros tax Hin. apply safe_rewrap.
    apply safe_renderTaxonomyPages.
    destruct Hfit as [?|[_ Hfit]]; [by left|]. right. intros entry.
    by apply Hfit. }
  bind_step.
  { apply safe_rewrap, safe_renderAllEntitiesPages.
    destruct Hfit as [?|[Hfit _]]; [by left|by right]. }
  bind_step; [apply safe_rewrap, safe_renderHomepage|].
  apply safe_addSitemapEntry.
Qed.

Lemma safe_extract name rendered file what :
  early (Wrote file) ->
  (forall slug, file <> FPage (EntityPage slug)) ->
  safe P mayFail mayPanic (extract env name rendered file what).
Proof.
  intros Hearly Hfile. unfold extract.
  destruct (String.eqb name ""); [apply safe_ret|].
  destruct rendered as [err|content]; [apply safe_warn|].
  destruct (String.eqb content ""); [apply safe_ret|].
  apply safe_bind_done; [eapply safe_write; [exact HP|by apply Hok]|].
  intros w st st' ->%write_result. apply safe_check.
  destruct HF as [?|(_ & _ & _ & _ & Hwrite)]; [by left|].
  right. by apply Hwrite.
Qed.

Lemma safe_prepare : safe P mayFail mayPanic (prepare cfg env).
Proof.
  unfold prepare. bind_step.
  { destruct (loader.Load cfg (source env)) eqn:Hload; [apply safe_ret|].
    apply safe_fail. destruct HF as [?|(Hl & _)]; [done|]. by destruct Hl. }
  bind_step.
  { destruct (String.eqb _ ""); [apply safe_ret|].
    destruct (ReadAllCaches env _); [|apply safe_ret].
    bind_step; [apply safe_warn|apply safe_ret]. }
  bind_step.
  { apply safe_check. destruct HF as [?|(_ & _ & Hdir & _)]; [by left|].
    right. apply Hdir. }
  bind_step.
  { apply safe_check. destruct HF as [?|(_ & Heng & _)]; [by left|by right]. }
  bind_step; [by apply safe_extract|].
  bind_step; [by apply safe_extract|]. apply safe_ret.
Qed.

Lemma safe_content entities :
  countless P -> safe P mayFail mayPanic (content cfg env entities).
Proof.
  intros Hc. unfold content. bind_step; [by apply safe_renderEntityPages|].
  bind_step; [apply safe_getEntityErrors|].
  bind_step; [destruct (0 <? _); [apply safe_warn|apply safe_ret]|].
  destruct (0 <? len entities); [|apply safe_ret].
  apply safe_bind.
  - unfold generateSearchIndex. destruct (config.Search_Enabled cfg);
      [|apply safe_ret]. eapply safe_write; [exact HP|by apply Hok].
  - intros [err|]; [apply safe_warn|apply safe_ret].
Qed.

End BuilderSafety.

Section BuilderRuns.
Import Go entity taxonomy output build.
Context `{Lib} (cfg : config.Config) (env : Env).

Lemma failsPageb_spec pg : failsPageb env pg = true <-> failsPage env pg.
Proof.
  unfold failsPageb, failsPage.
  destruct (Render env pg), (WriteFile env (FPage pg)); split; try done;
    try (intros _; by (left + right)).
  by intros [?|?].
Qed.

Lemma extend_nil st : extend st [] = st.
Proof. destruct st. unfold extend. simpl. by rewrite app_nil_r. Qed.

Lemma extend_extend st evs evs' :
  extend (extend st evs) evs' = extend st (evs ++ evs').
Proof. unfold extend. simpl. by rewrite app_assoc. Qed.

Lemma shareImage_run filename what st :
  exists evs, shareImage env filename what st = (Done tt, extend st evs).
Proof.
  unfold shareImage, writeShareSVG, bind, write, warn, emit, ret.
  destruct (MkdirAll env DShare).
  - by eexists [_].
  - destruct (WriteFile env (FShare filename)); simpl.
    + by eexists [_].
    + by eexists [_].
Qed.

Lemma renderAndWrite_run a b pg st :
  if failsPageb env pg
  then exists err, renderAndWrite env a b pg st = (Failed err, st)
  else renderAndWrite env a b pg st = (Done tt, extend st [Wrote (FPage pg)]).
Proof.
  unfold failsPageb, renderAndWrite, bind, check, write, emit, fail, ret.
  destruct (Render env pg); [by eexists|].
  destruct (WriteFile env (FPage pg)); simpl; [by eexists|done].
Qed.

Lemma onDone_page a b pg : onDone (renderAndWrite env a b pg) (~ failsPage env pg).
Proof.
  intros st u st' Hrun. rewrite <- failsPageb_spec.
  pose proof (renderAndWrite_run a b pg st) as Hcase.
  destruct (failsPageb env pg); [|done].
  destruct Hcase as [err Herr]. by rewrite Herr in Hrun.
Qed.

(** One entity page: the worker completes; a failure is counted once
    and logged. *)
Lemma entityWorker_run e st :
  exists evs,
    entityWorker cfg env e st
    = (Done tt,
       {| sitemapEntries :=
            (if failsPageb env (EntityPage (Slug e)) then sitemapEntries st
             else sitemapEntries st ++
                    [NewSitemapEntry (config.Site_BaseURL cfg)
                       ("/" ++ Slug e ++ ".html")%string (today env)
                       (priority cfg "entity") (changeFreq cfg "entity")]);
          entityErrors :=
            (if failsPageb env (EntityPage (Slug e))
             then add (entityErrors st) 1 else entityErrors st);
          events := events st ++ evs |}) /\
    (failsPageb env (EntityPage (Slug e)) = true ->
     exists err, entityWarning e err ∈ evs).
Proof.
  unfold entityWorker, recover, renderEntityPage.
  unfold bind at 1.
  destruct (shareImage_run (Slug e ++ ".svg")%string
              ("entity share SVG for " ++ Slug e)%string st) as [evs1 ->].
  unfold bind at 1.
  pose proof (renderAndWrite_run ""
                ("writing " ++ outPath cfg (Slug e ++ ".html") ++ ": ")%string
                (EntityPage (Slug e)) (extend st evs1)) as Hpage.
  destruct (failsPageb env (EntityPage (Slug e))).
  - destruct Hpage as [err ->]. exists (evs1 ++ [entityWarning e err]).
    split.
    + unfold bind, countEntityError, warn, emit, extend. simpl.
      by rewrite app_assoc.
    + intros _. exists err. apply elem_of_app. right. apply list_elem_of_here.
  - rewrite Hpage. exists (evs1 ++ [Wrote (FPage (EntityPage (Slug e)))]).
    split; [|done]. unfold addSitemapEntry, extend. simpl.
    by rewrite app_assoc.
Qed.

Lemma wrap_in_int z : in_int (wrap z).
Proof.
  unfold in_int, min_int, max_int, wrap.
  pose proof (Z.mod_pos_bound (z + 2 ^ 63) (2 ^ 64) ltac:(lia)). lia.
Qed.

Lemma forEach_workers_run entities st :
  in_int (entityErrors st) ->
  exists st',
    forEach entities (entityWorker cfg env) st = (Done tt, st') /\
    entityErrors st' = wrap (entityErrors st + entityFailures env entities) /\
    (exists evs, events st' = events st ++ evs /\
       forall e, e ∈ entities -> failsPage env (EntityPage (Slug e)) ->
                 exists err, entityWarning e err ∈ evs).
Proof.
  revert st. induction entities as [|e es IH]; intros st Hst.
  - exists st. split; [done|]. split.
    + unfold entityFailures, len. simpl. by rewrite Z.add_0_r, wrap_id.
    + exists []. split; [by rewrite app_nil_r|]. by intros e ?%elem_of_nil.
  - simpl. unfold bind at 1.
    destruct (entityWorker_run e st) as (evs1 & -> & Hwarn).
    set (st1 := {| sitemapEntries := _; entityErrors := _; events := _ |}).
    destruct (IH st1) as (st' & -> & Hcount & evs & Hevs & Hlog).
    { subst st1. simpl. destruct (failsPageb env _); [apply wrap_in_int|done]. }
    exists st'. split; [done|]. split.
    + rewrite Hcount. subst st1. simpl.
      unfold entityFailures. rewrite filter_cons.
      destruct (failsPageb env (EntityPage (Slug e))) eqn:Hf.
      * rewrite decide_True by done. unfold add. rewrite wrap_add_l.
        f_equal. unfold len. simpl length. lia.
      * by rewrite decide_False by done.
    + exists (evs1 ++ evs). split.
      * rewrite Hevs. subst st1. simpl. by rewrite app_assoc.
      * intros e' [->|Hin]%elem_of_cons Hfail.
        -- destruct (Hwarn (proj2 (failsPageb_spec _) Hfail)) as [err Herr].
           exists err. apply elem_of_app. by left.
        -- destruct (Hlog e' Hin Hfail) as [err Herr].
           exists err. apply elem_of_app. by right.
Qed.

End BuilderRuns.

Section BuilderClaims.
Import Go entity taxonomy output build.
Context `{Lib} (cfg : config.Config) (env : Env).

Ltac skip_step := apply onDone_bind_r; intros ? ? ? ?.

Lemma elem_of_concat {A} (x : A) (ls : list (list A)) :
  x ∈ concat ls -> exists l, x ∈ l /\ l ∈ ls.
Proof.
  induction ls as [|l ls IH]; simpl; [by intros ?%elem_of_nil|].
  rewrite elem_of_app. intros [Hx|Hx].
  - exists l. split; [done|apply list_elem_of_here].
  - destruct (IH Hx) as (l' & Hl' & Hin). exists l'. split; [done|].
    by apply list_elem_of_further.
Qed.

Lemma onDone_renderTaxonomyPages tax p :
  p ∈ taxonomyPagesOf cfg tax ->
  onDone (renderTaxonomyPages cfg env tax) (~ failsPage env p).
Proof.
  unfold taxonomyPagesOf. rewrite elem_of_app, elem_of_cons.
  intros [Hhub|[->|Hletter]]; unfold renderTaxonomyPages.
  - apply elem_of_concat in Hhub as (pages & Hp & Hpages).
    apply list_elem_of_fmap in Hpages as (entry & -> & Hentry).
    skip_step. apply onDone_bind_l. eapply onDone_forEach; [exact Hentry|].
    unfold renderHubPages. apply onDone_bind_r.
    intros T s s' HT%orPanic_done. unfold hubPagesOf in Hp.
    rewrite HT in Hp. apply list_elem_of_fmap in Hp as (page & -> & Hpage).
    skip_step. eapply onDone_forEach; [exact Hpage|].
    unfold renderHubPage. skip_step. skip_step.
    apply onDone_bind_l, onDone_page.
  - skip_step. skip_step. skip_step. apply onDone_bind_l, onDone_page.
  - unfold letterPagesOf in Hletter.
    do 5 skip_step.
    destruct (_ <=? _); [|by apply elem_of_nil in Hletter].
    apply list_elem_of_fmap in Hletter as (lg & -> & Hlg).
    eapply onDone_forEach; [exact Hlg|].
    unfold renderLetterPage. skip_step. apply onDone_bind_l, onDone_page.
Qed.

Lemma onDone_renderAllEntitiesPages entities p :
  p ∈ allEntitiesPagesOf cfg entities ->
  onDone (renderAllEntitiesPages cfg env entities) (~ failsPage env p).
Proof.
  unfold allEntitiesPagesOf, renderAllEntitiesPages. intros Hp.
  skip_step. skip_step. apply onDone_bind_r.
  intros T s s' HT%orPanic_done. rewrite HT in Hp.
  apply list_elem_of_fmap in Hp as (page & -> & Hpage).
  eapply onDone_forEach; [exact Hpage|].
  unfold renderAllEntitiesPage. skip_step. apply onDone_bind_l, onDone_page.
Qed.

Lemma onDone_structure entities taxonomies p :
  p ∈ structuralPages cfg entities taxonomies ->
  onDone (structure cfg env entities taxonomies) (~ failsPage env p).
Proof.
  unfold structuralPages. rewrite !elem_of_app, list_elem_of_singleton.
  intros [Htax|[Hall| ->]]; unfold structure.
  - apply elem_of_concat in Htax as (pages & Hp & Hpages).
    apply list_elem_of_fmap in Hpages as (tax & -> & Htax).
    apply onDone_bind_l. eapply onDone_forEach; [exact Htax|].
    by apply onDone_recover_fail, onDone_renderTaxonomyPages.
  - skip_step. apply onDone_bind_l.
    by apply onDone_recover_fail, onDone_renderAllEntitiesPages.
  - skip_step. skip_step. apply onDone_bind_l, onDone_recover_fail.
    unfold renderHomepage. skip_step. apply onDone_page.
Qed.

Lemma quiet_stable : stable early quiet.
Proof.
  split; unfold quiet; simpl; [done|].
  intros st ev Hev Hst. apply Forall_app. split; [done|]. by constructor.
Qed.

Lemma quiet_countless : countless quiet.
Proof. by intros st n. Qed.

Lemma trivial_stable : stable (fun _ => True) (fun _ => True).
Proof. by split. Qed.

(** Steps 14 to 21 return no error when nothing fails. *)
Lemma finish_unfailing taxonomies :
  onlyEntityPagesFail cfg env ->
  safe (fun _ => True) False True (finish cfg env taxonomies).
Proof.
  intros (_ & _ & Hdir & Hrender & Hwrite).
  assert (forall file prefix,
            (forall slug, file <> FPage (EntityPage slug)) ->
            safe (fun _ => True) False True
                 (bind (write env file) (fun w => check prefix w))) as Hput.
  { intros file prefix Hfile. apply safe_bind_done.
    - by eapply safe_write; [apply trivial_stable|].
    - intros w st st' ->%write_result. apply safe_check. right.
      by apply Hwrite. }
  assert (forall file prefix (k : M unit),
            (forall slug, file <> FPage (EntityPage slug)) ->
            safe (fun _ => True) False True k ->
            safe (fun _ => True) False True
                 (bind (write env file)
                       (fun w => bind (check prefix w) (fun _ => k)))) as Hthen.
  { intros file prefix k Hfile Hk. apply safe_bind_done.
    - by eapply safe_write; [apply trivial_stable|].
    - intros w st st' ->%write_result. apply safe_bind; [|done].
      apply safe_check. right. by apply Hwrite. }
  unfold finish. apply safe_bind.
  { apply safe_forEach. intros [path tmpl] _. unfold renderStaticPage.
    destruct (Render env (StaticPage path)).
    - by eapply safe_emit; [apply trivial_stable|].
    - apply safe_bind; [apply safe_check; right; apply Hdir|]. intros _.
      by apply Hput. }
  intros _. apply safe_bind; [apply safe_getSitemap|]. intros entries.
  apply safe_bind; [apply safe_orPanic; by left|]. intros files.
  apply safe_bind.
  { apply safe_forEach. intros sf _. by apply Hput. }
  intros _. apply safe_bind.
  { apply safe_forEach. intros feed _. unfold writeFeed.
    apply safe_bind; [apply safe_check; right; apply Hdir|]. intros _.
    by apply Hput. }
  intros _. apply Hthen; [done|].
  apply safe_bind.
  { destruct (config.LlmsTxt_Enabled cfg); [by apply Hput|apply safe_ret]. }
  intros _. apply Hthen; [done|].
  apply safe_bind.
  { destruct (String.eqb _ ""); [apply safe_ret|by apply Hput]. }
  intros _. destruct (String.eqb _ ""); [apply safe_ret|].
  destruct (copyDir env); [|apply safe_ret].
  by eapply safe_emit; [apply trivial_stable|].
Qed.

Lemma run_unfailing :
  onlyEntityPagesFail cfg env -> safe (fun _ => True) False True (run cfg env).
Proof.
  intros Hcalm. unfold run.
  assert (forall ev, early ev -> True) as Hok by done.
  apply safe_bind.
  { eapply safe_prepare; [apply trivial_stable|done|by right]. }
  intros [entities taxonomies]. apply safe_bind.
  { eapply safe_content; [apply trivial_stable|done|done]. }
  intros _. apply safe_bind.
  { eapply safe_structure; [apply trivial_stable|done|by right|by left|by left]. }
  intros _. by apply finish_unfailing.
Qed.


End BuilderClaims.

Section BuilderWitnesses.
Import Go entity taxonomy output build reference sample.

Lemma slicesFit_check entities taxonomies :
  (len entities <=? max_int) &&
  forallb (fun tax =>
             forallb (fun entry => len (Entry.Entities entry) <=? max_int)
                     (Taxonomy.Entries tax)) taxonomies = true ->
  slicesFit entities taxonomies.
Proof.
  intros [Hn Hall]%andb_prop. split; [lia|].
  intros tax entry Htax Hentry. rewrite forallb_forall in Hall.
  specialize (Hall tax (proj1 (list_elem_of_In _ _) Htax)).
  rewrite forallb_forall in Hall.
  specialize (Hall entry (proj1 (list_elem_of_In _ _) Hentry)). lia.
Qed.

Lemma kitchen_onlyEntityPagesFail :
  onlyEntityPagesFail (site "filename" 2) (world kitchen flanBroken).
Proof.
  split; [by vm_compute|]. split; [done|]. split; [done|].
  split; [|done]. intros p Hp. simpl.
  destruct p; try done. by destruct (Hp slug).
Qed.


End BuilderWitnesses.

(** * Further properties *)

(** ** Taxonomies: lookup, ranking, group contents *)

Section TaxonomyMore.
Import Go entity taxonomy.
Context `{Lib}.

Lemma ascending_NoDup l : ascending l -> NoDup (Entry.Slug <$> l).
Proof.
  induction 1 as [|a l Hl IH Ha]; [constructor|].
  rewrite fmap_cons. constructor; [|done].
  intros (b & Hab & Hb)%list_elem_of_fmap.
  rewrite Forall_forall in Ha. specialize (Ha b Hb).
  rewrite <- Hab, ltb_irrefl in Ha. done.
Qed.

Lemma NoDup_fmap_unique {A B} (f : A -> B) (l : list A) x y :
  NoDup (f <$> l) -> x ∈ l -> y ∈ l -> f x = f y -> x = y.
Proof.
  induction l as [|a l IH]; [by intros _ ?%elem_of_nil|].
  rewrite fmap_cons, NoDup_cons. intros [Hnotin Hnd].
  rewrite !elem_of_cons. intros [->|Hx] [->|Hy] Heq; auto.
  - exfalso. apply Hnotin. rewrite Heq. by apply list_elem_of_fmap_2.
  - exfalso. apply Hnotin. rewrite <- Heq. by apply list_elem_of_fmap_2.
Qed.

Lemma FindEntry_unique (t : Taxonomy.t) slug e :
  NoDup (Entry.Slug <$> Taxonomy.Entries t) ->
  FindEntry t slug = Some e <-> e ∈ Taxonomy.Entries t /\ Entry.Slug e = slug.
Proof.
  intros Hnd. unfold FindEntry. split.
  - destruct (list_find _ _) as [[i x]|] eqn:Hfind; [|done].
    simpl. intros [= <-]. apply list_find_Some in Hfind as (Hi & Hx & _).
    split; [by eapply list_elem_of_lookup_2|done].
  - intros [Hin Hslug].
    destruct (list_find_elem_of (fun e => Entry.Slug e = slug)
                (Taxonomy.Entries t) e Hin Hslug) as [[i x] Hfind].
    rewrite Hfind. simpl. f_equal.
    apply list_find_Some in Hfind as (Hi & Hx & _).
    apply (NoDup_fmap_unique Entry.Slug (Taxonomy.Entries t)); try done.
    + by eapply list_elem_of_lookup_2.
    + by rewrite Hx.
Qed.

(** X1: in a taxonomy that [buildOne] has built, [FindEntry] finds an
    entry under a slug exactly when that entry is in the taxonomy and has
    the slug: every entry is found under its own slug, and a slug that no
    entry has gives nothing. *)
Theorem FindEntry_buildOne (order : MapOrder) entities tc ed slug e :
  Slice_permutes -> Slice_sorts -> visits_each_once order ->
  let t := buildOne order entities tc ed in
  (FindEntry t slug = Some e <-> e ∈ Taxonomy.Entries t /\ Entry.Slug e = slug) /\
  (FindEntry t slug = None <->
   forall e', e' ∈ Taxonomy.Entries t -> Entry.Slug e' <> slug).
Proof.
  intros Hp Hs Ho t.
  assert (NoDup (Entry.Slug <$> Taxonomy.Entries t)) as Hnd
    by by apply ascending_NoDup, buildOne_ascending.
  split; [by apply FindEntry_unique|].
  split.
  - intros Hnone e' Hin Hslug.
    assert (FindEntry t slug = Some e') as Hsome
      by by apply FindEntry_unique.
    by rewrite Hnone in Hsome.
  - intros Hall. destruct (FindEntry t slug) as [x|] eqn:Hx; [|done].
    apply FindEntry_unique in Hx as [Hin Hslug]; [|done].
    by destruct (Hall x Hin).
Qed.

End TaxonomyMore.

Section TaxonomyRanking.
Import Go entity taxonomy.
Context `{Lib}.

Lemma moreMembers_strict_weak : strict_weak moreMembers.
Proof.
  split; unfold moreMembers; intros.
  - apply Z.ltb_irrefl.
  - apply Z.ltb_lt in H0, H1. apply Z.ltb_lt. lia.
  - apply Z.ltb_ge in H0, H1. apply Z.ltb_ge. lia.
Qed.

(** X2: for [n >= 0], [TopEntries] returns [min n (len entries)] entries
    of the input, largest first, and no entry it leaves out has more
    members than one it returns; a negative [n] makes it panic. *)
Theorem TopEntries_largest (entries : list Entry.t) (n : Z) :
  Slice_permutes -> Slice_sorts ->
  (n < 0 -> TopEntries entries n = None) /\
  (0 <= n ->
   exists top rest,
     TopEntries entries n = Some top /\
     top ++ rest ≡ₚ entries /\
     len top = Z.min n (len entries) /\
     StronglySorted
       (fun a b => len (Entry.Entities b) <= len (Entry.Entities a)) top /\
     forall a b, a ∈ top -> b ∈ rest ->
                 len (Entry.Entities b) <= len (Entry.Entities a)).
Proof.
  intros Hp Hs. unfold TopEntries.
  pose proof (Hp _ moreMembers entries) as Hperm.
  pose proof (Hs _ moreMembers entries moreMembers_strict_weak) as Hsorted.
  set (sorted := sort_Slice moreMembers entries) in *.
  pose proof (len_nonneg sorted) as Hlen.
  assert (len sorted = len entries) as Hsame
    by (unfold len; by rewrite Hperm).
  assert (StronglySorted
            (fun a b => len (Entry.Entities b) <= len (Entry.Entities a))
            sorted) as Hdesc.
  { eapply StronglySorted_mono; [|exact Hsorted].
    intros a b Hab. unfold moreMembers in Hab. by apply Z.ltb_ge in Hab. }
  split.
  - intros Hn. destruct (len sorted <? n) eqn:Hc; [lia|].
    by assert ((n <? 0) = true) as -> by lia.
  - intros Hn.
    set (k := if len sorted <? n then len sorted else n).
    assert (k = Z.min n (len sorted)) as Hk
      by (subst k; destruct (len sorted <? n) eqn:Hc; lia).
    assert ((k <? 0) = false) as -> by lia.
    exists (slice sorted 0 k), (drop (Z.to_nat k) sorted).
    unfold slice. rewrite Z.sub_0_r, drop_0.
    split; [done|]. split; [by rewrite take_drop|]. split.
    { unfold len in *. rewrite length_take. lia. }
    rewrite <- (take_drop (Z.to_nat k) sorted) in Hdesc.
    split; [exact (StronglySorted_app_1_l _ _ _ Hdesc)|].
    intros a b Ha Hb.
    exact (StronglySorted_app_1_elem_of _ _ _ _ _ Hdesc Ha Hb).
Qed.

End TaxonomyRanking.

Section TaxonomyContents.
Import Go entity taxonomy.
Context `{Lib}.

Lemma groupEntities_filings entities tc ed :
  config.Invert tc = false ->
  groupEntities entities tc ed = foldl file ∅ (filings entities tc ed).
Proof.
  intros Hinv. unfold groupEntities, filings. rewrite Hinv.
  generalize (∅ : gmap string Entry.t).
  induction entities as [|e es IH]; intros groups; [done|].
  rewrite fmap_cons. cbn [concat foldl]. rewrite foldl_app, IH. f_equal.
  generalize (extractValues e tc ed). clear. intros values. revert groups.
  induction values as [|v vs IH]; intros groups; [done|].
  rewrite fmap_cons. cbn [foldl]. by rewrite IH.
Qed.

(** The groups map after the grouping loop, key by key. *)
Lemma filed_groups (pairs : list (Entity * string)) slug :
  foldl file ∅ pairs !! slug
  = match filter (fun p => ToSlug p.2 = slug) pairs with
    | [] => None
    | p :: ps =>
        if String.eqb slug "" then None
        else Some (Entry.mk p.2 slug ((p :: ps).*1))
    end.
Proof.
  induction pairs as [|q pairs IH] using rev_ind.
  { cbn [foldl]. by rewrite lookup_empty, filter_nil. }
  rewrite foldl_snoc, filter_app, filter_cons, filter_nil.
  unfold file at 1. unfold addValue.
  destruct (String.eqb (ToSlug q.2) "") eqn:Hempty.
  - apply String.eqb_eq in Hempty. rewrite IH.
    destruct (decide (ToSlug q.2 = slug)) as [Heq|Hne];
      [|by rewrite app_nil_r].
    rewrite <- Heq, Hempty. cbn [String.eqb].
    by repeat case_match.
  - apply String.eqb_neq in Hempty.
    destruct (decide (ToSlug q.2 = slug)) as [Heq|Hne].
    + subst slug. rewrite lookup_alter_eq.
      assert (String.eqb (ToSlug q.2) "" = false) as Hnb
        by by apply String.eqb_neq.
      rewrite Hnb in IH |- *.
      destruct (foldl file ∅ pairs !! ToSlug q.2) as [g|] eqn:Hg.
      * rewrite Hg. simpl.
        destruct (filter _ pairs) as [|p ps]; [done|].
        injection IH as ->. simpl. by rewrite fmap_app.
      * rewrite lookup_insert_eq. simpl.
        by destruct (filter _ pairs) as [|p ps].
    + rewrite lookup_alter_ne by done. rewrite app_nil_r.
      destruct (foldl file ∅ pairs !! ToSlug q.2);
        [done|by rewrite lookup_insert_ne].
Qed.

(** X3: when [Invert] is off, every entry of a built taxonomy has a
    non-empty slug, which is the slug of its name; its members are the
    entities that have a value with that slug, once for each such value
    and in input order; and its name is the first such value. *)
Theorem buildOne_entry_contents (order : MapOrder) entities tc ed entry :
  Slice_permutes -> visits_each_once order ->
  config.Invert tc = false ->
  entry ∈ Taxonomy.Entries (buildOne order entities tc ed) ->
  Entry.Slug entry <> "" /\
  ToSlug (Entry.Name entry) = Entry.Slug entry /\
  Entry.Entities entry = (filedUnder entities tc ed (Entry.Slug entry)).*1 /\
  head (filedUnder entities tc ed (Entry.Slug entry)).*2
    = Some (Entry.Name entry).
Proof.
  intros Hp Ho Hinv Hin.
  rewrite (buildOne_entries_perm _ _ _ _ Hp Ho) in Hin.
  unfold kept, reference.order in Hin.
  apply list_elem_of_filter in Hin as [_ Hin].
  apply list_elem_of_fmap in Hin as ([k g] & -> & Hkg). simpl.
  apply elem_of_map_to_list in Hkg.
  rewrite (groupEntities_filings _ _ _ Hinv), filed_groups in Hkg.
  unfold filedUnder.
  destruct (filter (fun p => ToSlug p.2 = k) (filings entities tc ed))
    as [|p ps] eqn:Hf; [done|].
  destruct (String.eqb k "") eqn:Hk; [done|]. injection Hkg as <-. simpl.
  assert (p ∈ filter (fun p => ToSlug p.2 = k) (filings entities tc ed))
    as Hpin by (rewrite Hf; apply list_elem_of_here).
  apply list_elem_of_filter in Hpin as [Hp2 _].
  rewrite Hf. split; [by apply String.eqb_neq|]. by split.
Qed.

(** X4: with [Invert] set the grouping loop passes over every entity, and
    the taxonomy has no entries, whatever the entities are. *)
Theorem buildOne_invert_empty (order : MapOrder) entities tc ed :
  Slice_permutes -> visits_each_once order ->
  config.Invert tc = true ->
  Taxonomy.Entries (buildOne order entities tc ed) = [].
Proof.
  intros Hp Ho Hinv. apply Permutation_nil_r.
  rewrite (buildOne_entries_perm _ _ _ _ Hp Ho).
  unfold kept, reference.order.
  assert (groupEntities entities tc ed = ∅) as ->.
  { unfold groupEntities. apply foldl_preserves; [|done].
    intros groups e ->. by rewrite Hinv. }
  by rewrite map_to_list_empty.
Qed.

End TaxonomyContents.

Section TaxonomyWitnesses.
Import Go entity taxonomy sample reference.

Lemma FindEntry_buildOne_witness :
  let t := buildOne reference.order corpus byTag enrichment in
  summary <$> FindEntry t "eggs" = Some ("eggs", "eggs", ["flan"; "ramen"; "tiramisu"]) /\
  FindEntry t "Eggs" = None /\
  forall e,
    (FindEntry t "eggs" = Some e <-> e ∈ Taxonomy.Entries t /\ Entry.Slug e = "eggs") /\
    (FindEntry t "eggs" = None <->
     forall e', e' ∈ Taxonomy.Entries t -> Entry.Slug e' <> "eggs").
Proof.
  split; [vm_compute; reflexivity|]. split; [vm_compute; reflexivity|].
  exact (fun e => FindEntry_buildOne reference.order corpus byTag enrichment
                    "eggs" e reference_Slice_permutes reference_Slice_sorts
                    reference_order_once).
Defined.

Lemma TopEntries_largest_witness :
  let entries := Taxonomy.Entries (buildOne reference.order corpus byTag enrichment) in
  fmap (M := list) summary <$> TopEntries entries 1
    = Some [("eggs", "eggs", ["flan"; "ramen"; "tiramisu"])] /\
  exists top rest,
    TopEntries entries 1 = Some top /\
    top ++ rest ≡ₚ entries /\
    len top = Z.min 1 (len entries) /\
    StronglySorted
      (fun a b => len (Entry.Entities b) <= len (Entry.Entities a)) top /\
    forall a b, a ∈ top -> b ∈ rest ->
                len (Entry.Entities b) <= len (Entry.Entities a).
Proof.
  split; [vm_compute; reflexivity|].
  refine (proj2 (TopEntries_largest _ 1 reference_Slice_permutes
                   reference_Slice_sorts) _).
  lia.
Defined.

Lemma buildOne_entry_contents_witness :
  let entry := Entry.mk "Soup" "soup" [recipe "pho" "Soup" ["Beef"; "noodles"];
                                       recipe "ramen" "soup" ["noodles"; "Eggs"]] in
  (filedUnder corpus byCategory enrichment "soup").*2 = ["Soup"; "soup"] /\
  Entry.Slug entry <> "" /\
  ToSlug (Entry.Name entry) = Entry.Slug entry /\
  Entry.Entities entry = (filedUnder corpus byCategory enrichment (Entry.Slug entry)).*1 /\
  head (filedUnder corpus byCategory enrichment (Entry.Slug entry)).*2
    = Some (Entry.Name entry).
Proof.
  split; [vm_compute; reflexivity|].
  apply (buildOne_entry_contents reference.order corpus byCategory enrichment
           _ reference_Slice_permutes reference_order_once).
  - reflexivity.
  - vm_compute. apply list_elem_of_further, list_elem_of_here.
Defined.

Lemma buildOne_invert_empty_witness :
  Entry.Slug <$> Taxonomy.Entries (buildOne reference.order corpus byTag ∅)
    = ["beef"; "coffee"; "eggs"; "noodles"] /\
  Taxonomy.Entries (buildOne reference.order corpus inverted ∅) = [].
Proof.
  split; [vm_compute; reflexivity|].
  exact (buildOne_invert_empty reference.order corpus inverted ∅
           reference_Slice_permutes reference_order_once eq_refl).
Defined.

End TaxonomyWitnesses.

(** ** Byte strings *)

Section StringTools.

Lemma append_cons a (s t : string) : (String a s ++ t)%string = String a (s ++ t).
Proof. done. Qed.

Lemma append_nil_r (s : string) : (s ++ "")%string = s.
Proof. induction s as [|a s IH]; [done|]. by rewrite append_cons, IH. Qed.

Lemma append_assoc (s t u : string) :
  ((s ++ t) ++ u)%string = (s ++ t ++ u)%string.
Proof. induction s as [|a s IH]; [done|]. by rewrite !append_cons, IH. Qed.

Lemma bytes_append (s t : string) :
  list_ascii_of_string (s ++ t)
  = list_ascii_of_string s ++ list_ascii_of_string t.
Proof.
  induction s as [|a s IH]; [done|]. rewrite append_cons. simpl. by rewrite IH.
Qed.

Lemma bytes_inj (s t : string) :
  list_ascii_of_string s = list_ascii_of_string t -> s = t.
Proof.
  intros Heq. rewrite <- (string_of_list_ascii_of_string s),
    <- (string_of_list_ascii_of_string t). by rewrite Heq.
Qed.

Lemma append_inj_r (s1 s2 t : string) :
  (s1 ++ t)%string = (s2 ++ t)%string -> s1 = s2.
Proof.
  intros Heq. apply bytes_inj. apply (f_equal list_ascii_of_string) in Heq.
  rewrite !bytes_append in Heq. by apply app_inv_tail in Heq.
Qed.

End StringTools.

(** ** Pagination: page links and windows *)

Section PaginationLinks.
Import Go entity taxonomy output build.

Variables (entry : Entry.t) (perPage : Z) (taxonomyName : string).
Hypothesis perPage_pos : 0 < perPage <= max_int.
Hypothesis no_overflow : len (Entry.Entities entry) + perPage - 1 <= max_int.

Let total := len (Entry.Entities entry).
Let T := Z.max 1 ((total + perPage - 1) / perPage).
Let link (p : Z) : PageURL :=
  {| Number := p; URL := HubPageURL taxonomyName (Entry.Slug entry) p |}.

Lemma total_range : 0 <= total <= max_int.
Proof.
  pose proof (len_nonneg (Entry.Entities entry)). subst total. lia.
Qed.

Lemma T_bounds : 1 <= T /\ (T - 1) * perPage <= total <= T * perPage /\
                 (0 < total -> (T - 1) * perPage < total).
Proof.
  pose proof total_range as Ht. fold total in no_overflow.
  pose proof (Z.div_mod (total + perPage - 1) perPage ltac:(lia)) as Hdm.
  pose proof (Z.mod_pos_bound (total + perPage - 1) perPage ltac:(lia)) as Hmb.
  subst T. set (q := (total + perPage - 1) / perPage) in *.
  assert (0 <= q) by nia.
  destruct (Z.max_spec 1 q) as [[Hq ->]|[Hq ->]]; nia.
Qed.

Lemma totalPages_ok :
  div (sub (add total perPage) 1) perPage
  = Some ((total + perPage - 1) / perPage).
Proof.
  pose proof total_range as Ht. fold total in no_overflow.
  unfold max_int in *. unfold div, sub, add. rewrite wrap_sub_l.
  destruct (perPage =? 0) eqn:Hz; [lia|].
  rewrite (wrap_id (total + perPage - 1))
    by (unfold in_int, min_int, max_int; lia).
  rewrite Z.quot_div_nonneg by lia.
  pose proof (Z.div_mod (total + perPage - 1) perPage ltac:(lia)) as Hdm.
  pose proof (Z.mod_pos_bound (total + perPage - 1) perPage ltac:(lia)) as Hmb.
  rewrite wrap_id; [done|]. unfold in_int, min_int, max_int. nia.
Qed.

Lemma T_alt :
  (if (total + perPage - 1) / perPage =? 0 then 1
   else (total + perPage - 1) / perPage) = T.
Proof.
  pose proof total_range as Ht.
  pose proof (Z.div_pos (total + perPage - 1) perPage ltac:(lia) ltac:(lia)).
  subst T. destruct (_ =? 0) eqn:Hz; lia.
Qed.

(** What [ComputePagination] returns for a page within the page count. *)
Lemma ComputePagination_explicit page :
  1 <= page <= T ->
  ComputePagination entry page perPage taxonomyName
  = Some {| CurrentPage := page;
            TotalPages := T;
            TotalItems := total;
            StartIndex := (page - 1) * perPage;
            EndIndex := Z.min (page * perPage) total;
            PrevURL := if 1 <? page
                       then HubPageURL taxonomyName (Entry.Slug entry) (page - 1)
                       else "";
            NextURL := if page <? T
                       then HubPageURL taxonomyName (Entry.Slug entry) (page + 1)
                       else "";
            PageURLs := link <$> seqZ 1 T |}.
Proof.
  intros Hpage. unfold ComputePagination. fold total.
  rewrite totalPages_ok. cbn [mbind option_bind]. rewrite T_alt.
  pose proof total_range as Ht. pose proof T_bounds as (HT1 & HT2 & HT3).
  fold total in no_overflow. unfold max_int in *.
  assert (0 <= (page - 1) * perPage <= total) by nia.
  assert (T <= total \/ T = 1) as HTt by nia.
  unfold mul, sub, add.
  rewrite (wrap_id (page - 1)) by (unfold in_int, min_int, max_int; lia).
  rewrite (wrap_id ((page - 1) * perPage))
    by (unfold in_int, min_int, max_int; lia).
  rewrite (wrap_id ((page - 1) * perPage + perPage))
    by (unfold in_int, min_int, max_int; nia).
  assert ((if page <? T
           then HubPageURL taxonomyName (Entry.Slug entry) (wrap (page + 1))
           else "")
          = (if page <? T
             then HubPageURL taxonomyName (Entry.Slug entry) (page + 1)
             else "")) as ->.
  { destruct (page <? T) eqn:Hlt; [|done].
    rewrite wrap_id; [done|]. unfold in_int, min_int, max_int. lia. }
  f_equal. f_equal.
  destruct (total <? (page - 1) * perPage + perPage) eqn:Hlt; lia.
Qed.

(** The page list does not depend on the page asked for. *)
Lemma ComputePagination_links page :
  exists info,
    ComputePagination entry page perPage taxonomyName = Some info /\
    TotalPages info = T /\ PageURLs info = link <$> seqZ 1 T.
Proof.
  unfold ComputePagination. fold total.
  rewrite totalPages_ok. cbn [mbind option_bind]. rewrite T_alt.
  eexists. split; [reflexivity|]. done.
Qed.

Lemma HubPageURL_inj name slug : Inj (=) (=) (HubPageURL name slug).
Proof.
  intros p q. unfold HubPageURL.
  destruct (p =? 1) eqn:Hp, (q =? 1) eqn:Hq; intros Heq;
    do 4 apply (inj (String.app _)) in Heq.
  - lia.
  - by rewrite append_cons in Heq.
  - by rewrite append_cons in Heq.
  - apply (inj (String.app _)), append_inj_r in Heq.
    by apply (inj pretty) in Heq.
Qed.

Lemma HubPageURL_nonempty name slug p : HubPageURL name slug p <> "".
Proof. unfold HubPageURL. by destruct (p =? 1). Qed.

(** X5: whatever page is asked for, [ComputePagination] lists the pages
    1, 2, ... up to the page count, each with its hub URL, and no two of
    the listed URLs are the same. *)
Theorem ComputePagination_page_list (page : Z) :
  exists info,
    ComputePagination entry page perPage taxonomyName = Some info /\
    Number <$> PageURLs info = seqZ 1 (TotalPages info) /\
    Forall (fun pu => URL pu
                      = HubPageURL taxonomyName (Entry.Slug entry) (Number pu))
           (PageURLs info) /\
    NoDup (URL <$> PageURLs info).
Proof.
  destruct (ComputePagination_links page) as (info & Hinfo & HT & Hurls).
  exists info. split; [done|]. rewrite Hurls, HT.
  split; [|split].
  - rewrite <- list_fmap_compose. apply list_fmap_id.
  - apply Forall_fmap, Forall_forall. by intros p _.
  - rewrite <- list_fmap_compose.
    pose proof (HubPageURL_inj taxonomyName (Entry.Slug entry)).
    apply (NoDup_fmap_2 (HubPageURL taxonomyName (Entry.Slug entry))).
    apply NoDup_seqZ.
Qed.


Let window (page : Z) : list Entity :=
  slice (Entry.Entities entry) ((page - 1) * perPage)
        (Z.min (page * perPage) total).

Lemma windows_prefix (m : nat) :
  Z.of_nat m <= T ->
  concat (window <$> seqZ 1 (Z.of_nat m))
  = take (Z.to_nat (Z.min (Z.of_nat m * perPage) total)) (Entry.Entities entry).
Proof.
  pose proof total_range as Ht. pose proof T_bounds as (HT1 & HT2 & HT3).
  induction m as [|m IH]; intros Hm.
  - rewrite seqZ_nil by lia. simpl.
    by replace (Z.to_nat ((Z.of_nat 0 * perPage) `min` total)) with 0%nat
      by lia.
  - rewrite seqZ_S, fmap_app, concat_app, IH by lia. cbn [fmap list_fmap concat].
    rewrite app_nil_r. unfold window, slice.
    replace (1 + Z.of_nat m - 1) with (Z.of_nat m) by lia.
    replace (1 + Z.of_nat m) with (Z.of_nat (S m)) by lia.
    assert (Z.of_nat m * perPage <= total) by nia.
    rewrite (Z.min_l (Z.of_nat m * perPage)) by done.
    rewrite take_take_drop. f_equal. lia.
Qed.


End PaginationLinks.

Section PaginationWitnesses.
Import Go entity taxonomy output build sample.

Lemma ComputePagination_page_list_witness :
  (fun info => (TotalPages info, URL <$> PageURLs info))
    <$> ComputePagination everything 7 2 "category"
  = Some (3, ["/category/all.html"; "/category/all-page-2.html";
              "/category/all-page-3.html"]) /\
  exists info,
    ComputePagination everything 7 2 "category" = Some info /\
    Number <$> PageURLs info = seqZ 1 (TotalPages info) /\
    Forall (fun pu => URL pu
                      = HubPageURL "category" (Entry.Slug everything) (Number pu))
           (PageURLs info) /\
    NoDup (URL <$> PageURLs info).
Proof.
  split; [vm_compute; reflexivity|].
  apply (ComputePagination_page_list everything 2 "category"); vm_compute;
    repeat split; first [reflexivity | discriminate].
Defined.



End PaginationWitnesses.

(** ** Sitemap locations *)

Section SitemapLoc.
Import Go output.

Lemma trimRightByte_tail s c :
  exists tail,
    s = (trimRightByte s c ++ tail)%string /\
    all_bytes (fun d => Ascii.eqb d c) tail = true.
Proof.
  induction s as [|d r (tail & Hr & Htail)].
  - by exists "".
  - cbn [trimRightByte]. destruct (trimRightByte r c) as [|e r'] eqn:Ht.
    + destruct (Ascii.eqb d c) eqn:Hd.
      * exists (String d tail). split; [by rewrite Hr|].
        cbn [all_bytes]. by rewrite Hd.
      * exists tail. split; [by rewrite Hr at 1|done].
    + exists tail. split; [|done]. rewrite append_cons. by rewrite <- Hr.
Qed.

Lemma trimRightByte_last s c r :
  trimRightByte s c <> (r ++ String c "")%string.
Proof.
  revert r. induction s as [|d s IH]; intros r.
  - by destruct r.
  - cbn [trimRightByte]. destruct (trimRightByte s c) as [|e s'] eqn:Ht.
    + destruct (Ascii.eqb d c) eqn:Hd; [by destruct r|].
      destruct r as [|a [|b r]]; [|by intros [=]|by intros [=]].
      intros [= ->]. by rewrite Ascii.eqb_refl in Hd.
    + destruct r as [|a r]; [by intros [=]|].
      rewrite append_cons. intros [= -> Heq]. by apply (IH r).
Qed.

(** X8: the location of a sitemap entry is the base URL followed by a
    slash for the root path ["/"]; for every other path it is base URL
    and path less their trailing slashes, so that it never ends in a
    slash. *)
Theorem NewSitemapEntry_loc (baseURL path lastmod priority changefreq : string) :
  let loc := SitemapEntry.Loc
               (NewSitemapEntry baseURL path lastmod priority changefreq) in
  (path = "/" -> loc = (baseURL ++ "/")%string) /\
  (path <> "/" ->
   (exists slashes,
      (baseURL ++ path)%string = (loc ++ slashes)%string /\
      all_bytes (fun c => Ascii.eqb c "/") slashes = true) /\
   forall s, loc <> (s ++ "/")%string).
Proof.
  unfold NewSitemapEntry. cbn [SitemapEntry.Loc]. split.
  - by intros ->.
  - intros Hne. apply String.eqb_neq in Hne. rewrite Hne.
    split; [apply trimRightByte_tail|apply trimRightByte_last].
Qed.

End SitemapLoc.

(** ** Slugs from file names *)

Section FileSlugs.
Import Go entity loader.
Context `{Lib}.

Lemma has_byte_append c s t :
  has_byte c (s ++ t) = has_byte c s || has_byte c t.
Proof.
  induction s as [|d s IH]; [done|]. rewrite append_cons. cbn [has_byte].
  rewrite IH. by rewrite orb_assoc.
Qed.

Lemma lastElement_join dir name :
  has_byte "/" name = false ->
  lastElement (dir ++ "/" ++ name) = name.
Proof.
  intros Hname. induction dir as [|c dir IH].
  - change (lastElement (String "/" name) = name). cbn [lastElement].
    by rewrite Hname.
  - rewrite append_cons. cbn [lastElement].
    by rewrite has_byte_append, orb_true_r.
Qed.

Lemma trimRightByte_fixed s d c :
  Ascii.eqb d c = false ->
  trimRightByte (s ++ String d "") c = (s ++ String d "")%string.
Proof.
  intros Hd. induction s as [|a s IH].
  - change (trimRightByte (String d "") c = String d ""). cbn [trimRightByte].
    by rewrite Hd.
  - rewrite append_cons. cbn [trimRightByte]. rewrite IH.
    by destruct s.
Qed.

Lemma filepath_Ext_md stem :
  has_byte "/" stem = false -> filepath_Ext (stem ++ ".md") = ".md".
Proof.
  intros _. induction stem as [|c stem IH]; [done|].
  rewrite append_cons. cbn [filepath_Ext]. by rewrite IH.
Qed.

Lemma take_append (s t : string) :
  String.substring 0 (String.length s) (s ++ t) = s.
Proof.
  induction s as [|a s IH]; [by destruct t|].
  rewrite append_cons. cbn [String.length String.substring]. by rewrite IH.
Qed.

Lemma TrimSuffix_append s suf : TrimSuffix (s ++ suf) suf = s.
Proof.
  unfold TrimSuffix, HasSuffix. rewrite length_append.
  replace (String.length s + String.length suf - String.length suf)%nat
    with (String.length s) by lia.
  rewrite drop_append, String.eqb_refl, andb_true_r.
  assert ((String.length suf <=? String.length s + String.length suf)%nat = true)
    as -> by (apply Nat.leb_le; lia).
  apply take_append.
Qed.

(** X9: when the slug is not taken from a field (the source is not a
    [field:] source, or the entity has no string under the named field),
    a file [stem.md] in the data directory gets the slug [stem], as it
    is. *)
Theorem deriveSlug_stem (cfg : config.Config) (dir stem : string)
    (fields : gmap string Value) :
  HasPrefix (config.Data_EntitySlug_Source cfg) "field:" = false \/
    (forall s, fields !! from 6 (config.Data_EntitySlug_Source cfg)
               <> Some (VString s)) ->
  has_byte "/" stem = false ->
  deriveSlug cfg (filepath_Join dir (stem ++ ".md")) fields = stem.
Proof.
  intros Hsrc Hstem. unfold deriveSlug.
  assert ((if HasPrefix (config.Data_EntitySlug_Source cfg) "field:"
           then match fields !! from 6 (config.Data_EntitySlug_Source cfg) with
                | Some (VString s) => Some (ToSlug s)
                | _ => None
                end
           else None) = None) as ->.
  { destruct Hsrc as [->|Hnone]; [done|].
    destruct (HasPrefix _ _); [|done].
    destruct (fields !! _) as [[]|] eqn:Hf; try done. by destruct (Hnone s). }
  assert (filepath_Base (filepath_Join dir (stem ++ ".md"))
          = (stem ++ ".md")%string) as ->.
  { unfold filepath_Base, filepath_Join.
    assert ((dir ++ "/" ++ stem ++ ".md")%string
            = ((dir ++ "/" ++ stem ++ ".m") ++ "d")%string) as Hsplit
      by (rewrite !append_assoc; done).
    assert (String.eqb (dir ++ "/" ++ stem ++ ".md") "" = false) as ->.
    { apply String.eqb_neq. intros Heq.
      apply (f_equal String.length) in Heq.
      rewrite !length_append in Heq. simpl in Heq. lia. }
    rewrite Hsplit, trimRightByte_fixed by done. rewrite <- Hsplit.
    rewrite lastElement_join.
    - destruct stem; done.
    - by rewrite has_byte_append, Hstem. }
  by rewrite filepath_Ext_md, TrimSuffix_append.
Qed.

End FileSlugs.

Section FileSlugWitnesses.
Import Go entity loader sample reference.

Lemma deriveSlug_stem_witness :
  deriveSlug (site "field:title" 10) "data/Pho Bo.md"
    {[ "title" := VString "Beef Noodle Soup" ]} = "beef-noodle-soup" /\
  deriveSlug (site "field:title" 10)
    (filepath_Join "data" ("Pho Bo" ++ ".md")) ∅ = "Pho Bo".
Proof.
  split; [vm_compute; reflexivity|].
  apply (deriveSlug_stem (site "field:title" 10) "data" "Pho Bo" ∅).
  - right. intros s. rewrite lookup_empty. discriminate.
  - reflexivity.
Defined.

End FileSlugWitnesses.

(** ** Letter pages: links and files *)

Section LetterLinks.
Import Go entity taxonomy build.
Context `{Lib}.

Lemma lower_byte_hash c : lower_byte c = "#"%char <-> c = "#"%char.
Proof.
  destruct c as [[] [] [] [] [] [] [] []]; split; intros Heq;
    try done; vm_compute in Heq; discriminate.
Qed.

Lemma lower_hash s : map_bytes lower_byte s = "#" <-> s = "#".
Proof.
  destruct s as [|c [|d s]]; cbn [map_bytes]; [done| |done].
  split.
  - intros [= Hc]. apply (proj1 (lower_byte_hash c)) in Hc. by subst.
  - by intros [= ->].
Qed.

Lemma letterSlug_ascii letter :
  ToLower_ascii -> all_bytes is_ascii_byte letter = true ->
  letterSlug letter
  = (if String.eqb letter "#" then "num" else map_bytes lower_byte letter) /\
  (if String.eqb (strings_ToLower letter) "#" then "num"
   else strings_ToLower letter) = letterSlug letter.
Proof.
  intros Hlow Hascii. unfold letterSlug. rewrite (Hlow _ Hascii).
  split; [done|].
  destruct (String.eqb letter "#") eqn:Hl.
  - apply String.eqb_eq in Hl. subst. done.
  - apply String.eqb_neq in Hl.
    destruct (String.eqb (map_bytes lower_byte letter) "#") eqn:Hm; [|done].
    apply String.eqb_eq in Hm. by apply (proj1 (lower_hash letter)) in Hm.
Qed.

(** For a label of ASCII bytes, the letter-page link is the path of the
    letter file. *)
Lemma LetterPageURL_file (name letter : string) :
  ToLower_ascii -> all_bytes is_ascii_byte letter = true ->
  LetterPageURL name letter
  = ("/" ++ name ++ "/" ++ "letter-" ++ letterSlug letter ++ ".html")%string.
Proof.
  intros Hlow Hascii. unfold LetterPageURL.
  destruct (letterSlug_ascii letter Hlow Hascii) as [_ ->]. done.
Qed.

(** X10: the links that the taxonomy package computes are the paths
    under which the builder files the pages: [HubPageURL] is the
    taxonomy directory followed by the hub file name of the page, and,
    for a label of ASCII bytes, [LetterPageURL] is the taxonomy directory
    followed by the letter file name. *)
Theorem links_match_files (name : string) :
  ToLower_ascii ->
  (forall entry page,
     HubPageURL name (Entry.Slug entry) page
     = ("/" ++ name ++ "/" ++ hubFilename entry page)%string) /\
  (forall letter,
     all_bytes is_ascii_byte letter = true ->
     LetterPageURL name letter
     = ("/" ++ name ++ "/" ++ "letter-" ++ letterSlug letter ++ ".html")%string).
Proof.
  intros Hlow. split.
  - intros entry page. unfold HubPageURL, hubFilename.
    by destruct (page =? 1).
  - intros letter Hascii. by apply LetterPageURL_file.
Qed.

Lemma upper_lower_byte x : upper_byte (lower_byte x) = upper_byte x.
Proof. by destruct x as [[] [] [] [] [] [] [] []]. Qed.

Lemma upper_upper_byte x : upper_byte (upper_byte x) = upper_byte x.
Proof. by destruct x as [[] [] [] [] [] [] [] []]. Qed.

Lemma upper_letter_byte x :
  is_lower_byte x || is_upper_byte x = true ->
  is_ascii_byte (upper_byte x) = true /\ upper_byte x <> "#"%char.
Proof. by destruct x as [[] [] [] [] [] [] [] []]. Qed.

(** The labels that names with an ASCII first byte give rise to. *)
Lemma ascii_labels entries k :
  ToUpper_ascii -> IsLetter_ascii ->
  Forall (fun e => asciiInitial (Entry.Name e) = true) entries ->
  bucketOf entries k <> [] ->
  k = "#" \/
  exists c, k = String (upper_byte c) "" /\
            is_lower_byte c || is_upper_byte c = true.
Proof.
  intros Hup Hlet Hall Hk.
  destruct (bucketOf entries k) as [|e es] eqn:Hb; [done|].
  assert (e ∈ bucketOf entries k) as Hin by (rewrite Hb; apply list_elem_of_here).
  unfold bucketOf in Hin. apply list_elem_of_filter in Hin as [Hletter Hin].
  rewrite Forall_forall in Hall. specialize (Hall e Hin).
  destruct (Entry.Name e) as [|c rest]; [done|]. simpl in Hall.
  rewrite (letterOf_ascii c rest Hup Hlet Hall) in Hletter.
  injection Hletter as <-.
  destruct (is_lower_byte c || is_upper_byte c) eqn:Hc; eauto.
Qed.

Lemma label_slug k :
  ToLower_ascii ->
  k = "#" \/
    (exists c, k = String (upper_byte c) "" /\
               is_lower_byte c || is_upper_byte c = true) ->
  all_bytes is_ascii_byte k = true /\
  letterSlug k
  = (if String.eqb k "#" then "num" else map_bytes lower_byte k).
Proof.
  intros Hlow Hk.
  assert (all_bytes is_ascii_byte k = true) as Hascii.
  { destruct Hk as [->|(c & -> & Hc)]; [done|].
    cbn [all_bytes]. by rewrite (proj1 (upper_letter_byte c Hc)). }
  split; [done|]. by apply letterSlug_ascii.
Qed.

(** X11: when every name starts with an ASCII byte, no two letter groups
    of [GroupByLetter] have the same letter-page URL. *)
Theorem LetterPageURL_distinct (entries : list Entry.t) (name : string) :
  Strings_sorts -> ToUpper_ascii -> IsLetter_ascii -> ToLower_ascii ->
  Forall (fun e => asciiInitial (Entry.Name e) = true) entries ->
  forall g1 g2,
    g1 ∈ GroupByLetter entries -> g2 ∈ GroupByLetter entries ->
    LetterPageURL name (LetterGroup.Letter g1)
      = LetterPageURL name (LetterGroup.Letter g2) ->
    g1 = g2.
Proof.
  intros Hsort Hup Hlet Hlow Hall g1 g2.
  destruct (GroupByLetter_buckets entries Hsort) as (letters & -> & _ & _ & Hl).
  intros (k1 & -> & Hk1)%list_elem_of_fmap (k2 & -> & Hk2)%list_elem_of_fmap.
  cbn [LetterGroup.Letter]. intros Hurl.
  apply Hl in Hk1, Hk2.
  pose proof (ascii_labels entries k1 Hup Hlet Hall Hk1) as Hlab1.
  pose proof (ascii_labels entries k2 Hup Hlet Hall Hk2) as Hlab2.
  destruct (label_slug k1 Hlow Hlab1) as [Ha1 Hs1].
  destruct (label_slug k2 Hlow Hlab2) as [Ha2 Hs2].
  rewrite (LetterPageURL_file name k1 Hlow Ha1),
    (LetterPageURL_file name k2 Hlow Ha2), Hs1, Hs2 in Hurl.
  do 4 apply (inj (String.app _)) in Hurl. apply append_inj_r in Hurl.
  assert (k1 = k2) as ->; [|done].
  destruct Hlab1 as [->|(c1 & -> & Hc1)], Hlab2 as [->|(c2 & -> & Hc2)].
  - done.
  - exfalso. revert Hurl. cbn [String.eqb map_bytes]. rewrite Ascii.eqb_refl.
    destruct (Ascii.eqb_spec (upper_byte c2) "#") as [He2|_];
      [by destruct (upper_letter_byte c2 Hc2)|done].
  - exfalso. revert Hurl. cbn [String.eqb map_bytes]. rewrite Ascii.eqb_refl.
    destruct (Ascii.eqb_spec (upper_byte c1) "#") as [He1|_];
      [by destruct (upper_letter_byte c1 Hc1)|done].
  - revert Hurl. cbn [String.eqb map_bytes].
    destruct (Ascii.eqb_spec (upper_byte c1) "#") as [He1|_];
      [by destruct (upper_letter_byte c1 Hc1)|].
    destruct (Ascii.eqb_spec (upper_byte c2) "#") as [He2|_];
      [by destruct (upper_letter_byte c2 Hc2)|].
    intros [= Heq]. apply (f_equal upper_byte) in Heq.
    rewrite !upper_lower_byte, !upper_upper_byte in Heq. by rewrite Heq.
Qed.

End LetterLinks.

Section LetterLinkWitnesses.
Import Go entity taxonomy build sample reference.

Lemma links_match_files_witness :
  LetterPageURL "tag" "S" = "/tag/letter-s.html" /\
  LetterPageURL "tag" "#" = "/tag/letter-num.html" /\
  (forall entry page,
     HubPageURL "tag" (Entry.Slug entry) page
     = ("/" ++ "tag" ++ "/" ++ hubFilename entry page)%string) /\
  (forall letter,
     all_bytes is_ascii_byte letter = true ->
     LetterPageURL "tag" letter
     = ("/" ++ "tag" ++ "/" ++ "letter-" ++ letterSlug letter ++ ".html")%string).
Proof.
  split; [vm_compute; reflexivity|]. split; [vm_compute; reflexivity|].
  exact (links_match_files "tag" reference_ToLower_ascii).
Defined.

Lemma LetterPageURL_distinct_witness :
  let entry := fun name => Entry.mk name (ToSlug name) [] in
  let entries := entry <$> ["soup"; "Salad"; "9 lives"; "apple"; "_misc"] in
  (fun g => LetterPageURL "tag" (LetterGroup.Letter g)) <$> GroupByLetter entries
  = ["/tag/letter-num.html"; "/tag/letter-a.html"; "/tag/letter-s.html"] /\
  forall g1 g2,
    g1 ∈ GroupByLetter entries -> g2 ∈ GroupByLetter entries ->
    LetterPageURL "tag" (LetterGroup.Letter g1)
      = LetterPageURL "tag" (LetterGroup.Letter g2) ->
    g1 = g2.
Proof.
  intros entry entries. split; [vm_compute; reflexivity|].
  apply (LetterPageURL_distinct entries "tag" reference_Strings_sorts
           reference_ToUpper_ascii reference_IsLetter_ascii
           reference_ToLower_ascii).
  repeat constructor.
Defined.

End LetterLinkWitnesses.

(** ** The sitemap lists what was written *)

Section SitemapTracksWrites.
Import Go entity taxonomy output build.
Context `{Lib} (cfg : config.Config) (env : Env).

Let J : State -> Prop := listsWritten cfg env.
Let listed (p : Page) : Prop := is_Some (sitemapEntryOf cfg env p).
Let unlisted (ev : Event) : Prop :=
  match ev with
  | Wrote (FPage p) => sitemapEntryOf cfg env p = None
  | _ => True
  end.

Lemma ends_ret {A} (P R : State -> Prop) (a : A) : ends P P R (ret a).
Proof. by intros st Hst. Qed.

Lemma ends_fail {A} (P Q : State -> Prop) err : ends P Q P (@fail A err).
Proof. by intros st Hst. Qed.

Lemma ends_orPanic {A} (P : State -> Prop) (o : option A) :
  ends P P P (orPanic o).
Proof. intros st Hst. by destruct o. Qed.

Lemma ends_check (P : State -> Prop) prefix o : ends P P P (check prefix o).
Proof. intros st Hst. by destruct o. Qed.

Lemma ends_bind {A B} (P Q Q' R : State -> Prop) (m : M A) (k : A -> M B) :
  ends P Q R m -> (forall a, ends Q Q' R (k a)) -> ends P Q' R (bind m k).
Proof.
  intros Hm Hk st Hst. unfold bind. specialize (Hm st Hst).
  destruct (m st) as [[a|err|] st']; [|done|done]. by apply Hk.
Qed.

Lemma ends_forEach {A} (P R : State -> Prop) (l : list A) body :
  (forall x, ends P P R (body x)) -> ends P P R (forEach l body).
Proof.
  intros Hbody. induction l as [|x l IH]; simpl; [apply ends_ret|].
  eapply ends_bind; [apply Hbody|]. by intros _.
Qed.

Lemma ends_recover {A} (P Q R : State -> Prop) (m : M A) handler :
  ends P Q R m -> (forall err, ends R Q R (handler err)) ->
  ends P Q R (recover m handler).
Proof.
  intros Hm Hh st Hst. unfold recover. specialize (Hm st Hst).
  destruct (m st) as [[a|err|] st']; [done| |done]. by apply Hh.
Qed.

Lemma ends_getSitemap (P R : State -> Prop) : ends P P R getSitemap.
Proof. by intros st Hst. Qed.

Lemma ends_getEntityErrors (P R : State -> Prop) : ends P P R getEntityErrors.
Proof. by intros st Hst. Qed.

Lemma writtenPages_snoc evs ev :
  writtenPages (evs ++ [ev])
  = writtenPages evs ++ match ev with Wrote (FPage p) => [p] | _ => [] end.
Proof.
  unfold writtenPages. rewrite omap_app. f_equal.
  by destruct ev as [|[]].
Qed.

Lemma ends_emit R ev : unlisted ev -> ends J J R (emit ev).
Proof.
  intros Hev st Hst. unfold J, listsWritten in *. simpl.
  rewrite writtenPages_snoc, omap_app, <- Hst.
  destruct ev as [|[]]; simpl in *; try by rewrite app_nil_r.
  by rewrite Hev, app_nil_r.
Qed.

Lemma ends_warn R message : ends J J R (warn message).
Proof. by apply ends_emit. Qed.

Lemma ends_write R f : unlisted (Wrote f) -> ends J J R (write env f).
Proof.
  intros Hf. unfold write. destruct (WriteFile env f); [apply ends_ret|].
  eapply ends_bind; [by apply ends_emit|]. intros _. apply ends_ret.
Qed.

Lemma ends_countEntityError R : ends J J R countEntityError.
Proof. by intros st Hst. Qed.

Lemma ends_shareImage filename what : ends J J J (shareImage env filename what).
Proof.
  unfold shareImage, writeShareSVG. eapply ends_bind.
  - destruct (MkdirAll env DShare); [apply ends_ret|]. by apply ends_write.
  - intros [err|]; [apply ends_warn|apply ends_ret].
Qed.

(** Rendering and writing a listed page leaves its entry to be added. *)
Lemma ends_renderAndWrite a b p :
  listed p -> ends J (awaits cfg env p) J (renderAndWrite env a b p).
Proof.
  intros Hp st Hst. unfold renderAndWrite, bind, check, write.
  destruct (Render env p); [done|]. simpl.
  destruct (WriteFile env (FPage p)); simpl; [done|].
  exists (events st). by split.
Qed.

Lemma ends_addSitemapEntry R p path prio freq :
  sitemapEntryOf cfg env p
  = Some (NewSitemapEntry (config.Site_BaseURL cfg) path (today env) prio freq) ->
  ends (awaits cfg env p) J R (addSitemapEntry cfg env path prio freq).
Proof.
  intros Hp st (evs & Hevs & Hmap). unfold J, listsWritten. simpl.
  rewrite Hevs, writtenPages_snoc, omap_app, <- Hmap. simpl. by rewrite Hp.
Qed.

(** A page is rendered, written and entered. *)
Lemma ends_page a b p path prio freq :
  sitemapEntryOf cfg env p
  = Some (NewSitemapEntry (config.Site_BaseURL cfg) path (today env) prio freq) ->
  ends J J J (renderAndWrite env a b p ;;;
              addSitemapEntry cfg env path prio freq).
Proof.
  intros Hp.
  eapply ends_bind; [apply ends_renderAndWrite; unfold listed; by rewrite Hp|].
  intros _. by apply ends_addSitemapEntry.
Qed.

Ltac step := eapply ends_bind; [|intros ?].
Ltac listed_page :=
  apply ends_renderAndWrite; unfold listed; simpl; by eexists.

Lemma ends_renderEntityPage e : ends J J J (renderEntityPage cfg env e).
Proof.
  unfold renderEntityPage. step; [apply ends_shareImage|]. by apply ends_page.
Qed.

Lemma ends_renderEntityPages entities :
  ends J J J (renderEntityPages cfg env entities).
Proof.
  apply ends_forEach. intros e. apply ends_recover.
  - apply ends_renderEntityPage.
  - intros err. step; [apply ends_countEntityError|apply ends_warn].
Qed.

Lemma hub_path name entry page :
  ("/" ++ name ++ "/" ++ hubFilename entry page)%string
  = HubPageURL name (Entry.Slug entry) page.
Proof. unfold HubPageURL, hubFilename. by destruct (page =? 1). Qed.

Lemma ends_renderHubPage tax entry perPage page :
  ends J J J (renderHubPage cfg env tax entry perPage page).
Proof.
  unfold renderHubPage. step; [apply ends_orPanic|].
  step; [apply ends_orPanic|]. apply ends_page. simpl. by rewrite hub_path.
Qed.

Lemma ends_renderTaxonomyPages tax : ends J J J (renderTaxonomyPages cfg env tax).
Proof.
  unfold renderTaxonomyPages. step; [apply ends_check|].
  step.
  { apply ends_forEach. intros entry. unfold renderHubPages.
    step; [apply ends_orPanic|]. step.
    - destruct (1 <=? _); [apply ends_shareImage|apply ends_ret].
    - apply ends_forEach. intros page. apply ends_renderHubPage. }
  step; [apply ends_shareImage|].
  step; [listed_page|].
  step; [by apply ends_addSitemapEntry|].
  destruct (_ <=? _); [|apply ends_ret].
  apply ends_forEach. intros lg. unfold renderLetterPage.
  step; [apply ends_shareImage|]. by apply ends_page.
Qed.

Lemma ends_renderAllEntitiesPages entities :
  ends J J J (renderAllEntitiesPages cfg env entities).
Proof.
  unfold renderAllEntitiesPages. step; [apply ends_check|].
  step; [apply ends_shareImage|]. step; [apply ends_orPanic|].
  apply ends_forEach. intros page. unfold renderAllEntitiesPage.
  step; [apply ends_orPanic|]. by apply ends_page.
Qed.

Lemma ends_structure entities taxonomies :
  ends J J J (structure cfg env entities taxonomies).
Proof.
  unfold structure. step.
  { apply ends_forEach. intros tax. apply ends_recover;
      [apply ends_renderTaxonomyPages|intros err; apply ends_fail]. }
  step.
  { apply ends_recover;
      [apply ends_renderAllEntitiesPages|intros err; apply ends_fail]. }
  step.
  { apply ends_recover; [|intros err; apply ends_fail].
    unfold renderHomepage. step; [apply ends_shareImage|]. listed_page. }
  by apply ends_addSitemapEntry.
Qed.

Lemma ends_extract name rendered f what :
  unlisted (Wrote f) -> ends J J J (extract env name rendered f what).
Proof.
  intros Hf. unfold extract. destruct (String.eqb name ""); [apply ends_ret|].
  destruct rendered as [err|content]; [apply ends_warn|].
  destruct (String.eqb content ""); [apply ends_ret|].
  step; [by apply ends_write|apply ends_check].
Qed.

Lemma ends_prepare : ends J J J (prepare cfg env).
Proof.
  unfold prepare. step.
  { destruct (loader.Load _ _); [apply ends_ret|apply ends_fail]. }
  step.
  { destruct (String.eqb _ ""); [apply ends_ret|].
    destruct (ReadAllCaches env _); [|apply ends_ret].
    step; [apply ends_warn|apply ends_ret]. }
  step; [apply ends_check|]. step; [apply ends_check|].
  step; [by apply ends_extract|]. step; [by apply ends_extract|].
  apply ends_ret.
Qed.

Lemma ends_content entities : ends J J J (content cfg env entities).
Proof.
  unfold content. step; [apply ends_renderEntityPages|].
  step; [apply ends_getEntityErrors|].
  step; [destruct (0 <? _); [apply ends_warn|apply ends_ret]|].
  destruct (0 <? _); [|apply ends_ret].
  eapply ends_bind.
  - unfold generateSearchIndex.
    destruct (config.Search_Enabled cfg); [by apply ends_write|apply ends_ret].
  - intros [err|]; [apply ends_warn|apply ends_ret].
Qed.

Lemma ends_written f prefix :
  unlisted (Wrote f) ->
  ends J J J (w <- write env f ;; check prefix w).
Proof. intros Hf. step; [by apply ends_write|apply ends_check]. Qed.

Lemma ends_finish taxonomies : ends J J J (finish cfg env taxonomies).
Proof.
  unfold finish. step.
  { apply ends_forEach. intros [path tmpl]. unfold renderStaticPage.
    destruct (Render env _); [apply ends_warn|].
    step; [apply ends_check|]. by apply ends_written. }
  step; [apply ends_getSitemap|]. step; [apply ends_orPanic|].
  step; [apply ends_forEach; intros sf; by apply ends_written|].
  step.
  { apply ends_forEach. intros path. unfold writeFeed.
    step; [apply ends_check|]. by apply ends_written. }
  step; [by apply ends_write|]. step; [apply ends_check|].
  step.
  { destruct (config.LlmsTxt_Enabled cfg); [by apply ends_written|apply ends_ret]. }
  step; [by apply ends_write|]. step; [apply ends_check|].
  step.
  { destruct (String.eqb _ ""); [apply ends_ret|by apply ends_written]. }
  destruct (String.eqb _ ""); [apply ends_ret|].
  destruct (copyDir env); [apply ends_warn|apply ends_ret].
Qed.

(** X12: however [Build] ends, the sitemap entries it has accumulated
    are those of the pages it has written, static pages apart: one entry
    for each written entity, hub, index, letter, all-entities and home
    page, with that page's path, priority and change frequency, and no
    entry for a page that was not written. *)
Theorem Build_sitemap_lists_written :
  sitemapEntries (Build cfg env).2
  ≡ₚ omap (sitemapEntryOf cfg env) (writtenPages (events (Build cfg env).2)).
Proof.
  assert (ends J J J (run cfg env)) as Hrun.
  { unfold run. eapply ends_bind; [apply ends_prepare|].
    intros [entities taxonomies].
    step; [apply ends_content|]. step; [apply ends_structure|].
    apply ends_finish. }
  assert (J initial) as Hinit by done.
  specialize (Hrun initial Hinit). unfold Build.
  destruct (run cfg env initial) as [[[]|err|] st]; simpl; by rewrite Hrun.
Qed.

End SitemapTracksWrites.

(** ** Field distributions *)

Section FieldDistribution.
Import Go entity taxonomy build.
Context `{Lib}.

Lemma higherCount_strict_weak : strict_weak higherCount.
Proof.
  split; unfold higherCount; intros.
  - apply Z.ltb_irrefl.
  - apply Z.ltb_lt in H0, H1. apply Z.ltb_lt. lia.
  - apply Z.ltb_ge in H0, H1. apply Z.ltb_ge. lia.
Qed.

(** The counting loop, key by key. *)
Lemma countValues_spec entities field v :
  len entities <= max_int ->
  countValues entities field !! v
  = (if decide (v = "" \/ filter (fun e => GetString e field = v) entities = [])
     then None
     else Some (len (filter (fun e => GetString e field = v) entities))).
Proof.
  unfold countValues.
  induction entities as [|e es IH] using rev_ind; intros Hlen.
  { cbn [foldl]. rewrite lookup_empty, filter_nil. by rewrite decide_True by auto. }
  assert (len es + 1 <= max_int) as Hes
    by (unfold len in *; rewrite length_app in Hlen; simpl in Hlen; lia).
  specialize (IH ltac:(lia)).
  rewrite foldl_snoc, filter_app, filter_cons, filter_nil.
  set (occ := filter (fun e => GetString e field = v) es) in *.
  assert (len occ <= len es) as Hocc
    by (unfold len; apply inj_le, length_filter).
  pose proof (len_nonneg occ) as Hocc0.
  destruct (String.eqb (GetString e field) "") eqn:Hempty.
  - apply String.eqb_eq in Hempty. rewrite IH.
    destruct (decide (GetString e field = v)) as [Hv|Hv];
      [|by rewrite app_nil_r].
    rewrite decide_True by (left; congruence).
    rewrite decide_True by (left; congruence). done.
  - apply String.eqb_neq in Hempty.
    destruct (decide (GetString e field = v)) as [Hv|Hv].
    + subst v. rewrite lookup_insert_eq, IH.
      destruct (decide (GetString e field = "" \/ occ ++ [e] = []))
        as [[?|Hnil]|_]; [done|by destruct occ|].
      f_equal. unfold add.
      destruct (decide (GetString e field = "" \/ occ = [])) as [[?|Hnil]|Hsome];
        [done| |]; simpl.
      * rewrite Hnil. by vm_compute.
      * rewrite wrap_id by (unfold in_int, min_int, max_int in *; lia).
        unfold len. rewrite length_app. simpl. lia.
    + rewrite lookup_insert_ne by done. by rewrite IH, app_nil_r.
Qed.

(** X13: [countFieldDistribution] lists each value once, none of them
    empty, each with the number of entities that have it, most frequent
    first; a positive [limit] caps the list, and then no value left out
    occurs more often than a value listed. *)
Theorem countFieldDistribution_counts (order : MapOrder) entities field limit :
  Slice_permutes -> Slice_sorts -> visits_each_once order ->
  len entities <= max_int ->
  let occurrences v := len (filter (fun e => GetString e field = v) entities) in
  let result := countFieldDistribution order entities field limit in
  NoDup (render.Name <$> result) /\
  Forall (fun nc => render.Name nc <> "" /\ 0 < render.Count nc /\
                    render.Count nc = occurrences (render.Name nc)) result /\
  StronglySorted (fun a b => render.Count b <= render.Count a) result /\
  (0 < limit -> len result <= limit) /\
  (forall v, v <> "" -> 0 < occurrences v ->
     v ∈ render.Name <$> result \/
     (0 < limit /\ len result = limit /\
      Forall (fun nc => occurrences v <= render.Count nc) result)).
Proof.
  intros Hp Hs Ho Hlen occurrences result. subst result.
  unfold countFieldDistribution.
  set (counts := countValues entities field).
  set (mk := fun kv : string * Z =>
               {| render.Name := kv.1; render.Count := kv.2 |}).
  set (full := sort_Slice higherCount (mk <$> order Z counts)).
  assert (full ≡ₚ mk <$> map_to_list counts) as Hperm
    by (subst full; by rewrite (Hp _ _ _), (Ho _ _)).
  assert (StronglySorted (fun a b => render.Count b <= render.Count a) full)
    as Hsorted.
  { eapply StronglySorted_mono;
      [|exact (Hs _ higherCount (mk <$> order Z counts) higherCount_strict_weak)].
    intros a b Hab. unfold higherCount in Hab. by apply Z.ltb_ge in Hab. }
  assert (forall nc, nc ∈ full ->
            counts !! render.Name nc = Some (render.Count nc)) as Hin.
  { intros nc. rewrite Hperm. intros ([k c] & -> & Hkc)%list_elem_of_fmap.
    by apply elem_of_map_to_list in Hkc. }
  assert (NoDup (render.Name <$> full)) as Hnd.
  { rewrite Hperm, <- list_fmap_compose.
    apply (NoDup_fst_map_to_list counts). }
  assert (Forall (fun nc => render.Name nc <> "" /\ 0 < render.Count nc /\
                    render.Count nc = occurrences (render.Name nc)) full)
    as Hall.
  { apply Forall_forall. intros nc Hnc. apply Hin in Hnc.
    subst counts. rewrite countValues_spec in Hnc by done.
    destruct (decide _) as [|Hsome]; [done|]. injection Hnc as Hnc.
    split; [tauto|]. split; [|done]. rewrite <- Hnc.
    destruct (filter _ entities); [tauto|]. unfold len. simpl. lia. }
  assert (forall v, v <> "" -> 0 < occurrences v ->
            exists nc, nc ∈ full /\ render.Name nc = v /\
                       render.Count nc = occurrences v) as Hfound.
  { intros v Hv Hocc. exists (mk (v, occurrences v)). split; [|done].
    rewrite Hperm. apply list_elem_of_fmap_2, elem_of_map_to_list.
    subst counts. rewrite countValues_spec by done.
    rewrite decide_False; [done|]. intros [?|Hnil]; [done|].
    subst occurrences. simpl in Hocc. rewrite Hnil in Hocc.
    unfold len in Hocc. simpl in Hocc. lia. }
  pose proof (len_nonneg full) as Hfull.
  destruct ((0 <? limit) && (limit <? len full)) eqn:Hcut.
  - apply andb_prop in Hcut as [Hpos%Z.ltb_lt Hlt%Z.ltb_lt].
    unfold slice. rewrite Z.sub_0_r, drop_0.
    set (k := Z.to_nat limit).
    rewrite <- (take_drop k full) in Hsorted.
    assert (len (take k full) = limit) as Htake
      by (unfold len in *; rewrite length_take; lia).
    split; [|split; [|split; [|split]]].
    + eapply sublist_NoDup; [exact Hnd|]. apply fmap_sublist, sublist_take.
    + by apply Forall_take.
    + exact (StronglySorted_app_1_l _ _ _ Hsorted).
    + lia.
    + intros v Hv Hocc. destruct (Hfound v Hv Hocc) as (nc & Hnc & Hname & Hcount).
      rewrite <- (take_drop k full) in Hnc. apply elem_of_app in Hnc as [Hnc|Hnc].
      * left. rewrite <- Hname. by apply list_elem_of_fmap_2.
      * right. split; [done|]. split; [done|].
        apply Forall_forall. intros nc' Hnc'. rewrite <- Hcount.
        exact (StronglySorted_app_1_elem_of _ _ _ _ _ Hsorted Hnc' Hnc).
  - split; [done|]. split; [done|]. split; [done|]. split.
    + intros Hpos. apply andb_false_iff in Hcut as [?%Z.ltb_ge|?%Z.ltb_ge]; lia.
    + intros v Hv Hocc. left.
      destruct (Hfound v Hv Hocc) as (nc & Hnc & Hname & _).
      rewrite <- Hname. by apply list_elem_of_fmap_2.
Qed.

End FieldDistribution.

Section FieldDistributionWitnesses.
Import Go entity taxonomy build sample reference.

Lemma countFieldDistribution_counts_witness :
  let occurrences v :=
    len (filter (fun e => GetString e "recipe_category" = v)
                (corpus ++ [recipe "bun" "Soup" []])) in
  let result := countFieldDistribution reference.order
                  (corpus ++ [recipe "bun" "Soup" []]) "recipe_category" 1 in
  result = [{| render.Name := "Soup"; render.Count := 2 |}] /\
  NoDup (render.Name <$> result) /\
  Forall (fun nc => render.Name nc <> "" /\ 0 < render.Count nc /\
                    render.Count nc = occurrences (render.Name nc)) result /\
  StronglySorted (fun a b => render.Count b <= render.Count a) result /\
  (0 < 1 -> len result <= 1) /\
  (forall v, v <> "" -> 0 < occurrences v ->
     v ∈ render.Name <$> result \/
     (0 < 1 /\ len result = 1 /\
      Forall (fun nc => occurrences v <= render.Count nc) result)).
Proof.
  intros occurrences result. split; [vm_compute; reflexivity|].
  apply (countFieldDistribution_counts reference.order
           (corpus ++ [recipe "bun" "Soup" []]) "recipe_category" 1
           reference_Slice_permutes reference_Slice_sorts reference_order_once).
  vm_compute. discriminate.
Defined.

End FieldDistributionWitnesses.

(** ** Escaping *)

Section Escaping.
Import Go output.

Lemma expand_append f (s t : string) :
  expand f (s ++ t) = (expand f s ++ expand f t)%string.
Proof.
  induction s as [|c s IH]; [done|].
  rewrite append_cons. cbn [expand]. by rewrite IH, append_assoc.
Qed.

Lemma expand_expand f g s :
  expand g (expand f s) = expand (fun c => expand g (f c)) s.
Proof.
  induction s as [|c s IH]; [done|]. cbn [expand].
  by rewrite expand_append, IH.
Qed.

Lemma expand_ext f g s : (forall c, f c = g c) -> expand f s = expand g s.
Proof. intros Hfg. induction s as [|c s IH]; [done|]. cbn [expand]. by rewrite Hfg, IH. Qed.

(** Replacing a single byte works byte by byte. *)
Lemma ReplaceAll_byte s c new :
  ReplaceAll s (String c "") new
  = expand (fun d => if Ascii.eqb d c then new else String d "") s.
Proof.
  unfold ReplaceAll. induction s as [|d s IH]; [done|].
  cbn [replace_from expand String.prefix String.length Nat.sub].
  destruct (ascii_dec c d) as [->|Hne].
  - rewrite Ascii.eqb_refl.
    assert (String.prefix "" s = true) as -> by by destruct s.
    by rewrite IH.
  - assert (Ascii.eqb d c = false) as -> by (apply Ascii.eqb_neq; congruence).
    by rewrite IH.
Qed.

(** The four passes of [xmlEscape] amount to one pass over the bytes:
    no pass touches what an earlier one has put in. *)
Lemma xmlEscape_bytes s : xmlEscape s = expand escapeByte s.
Proof.
  unfold xmlEscape, quote. rewrite !ReplaceAll_byte, !expand_expand.
  apply expand_ext. intros c. unfold escapeByte.
  destruct (Ascii.eqb_spec c "&") as [->|Hamp]; [done|].
  destruct (Ascii.eqb_spec c "<") as [->|Hlt]; [done|].
  destruct (Ascii.eqb_spec c ">") as [->|Hgt]; [done|].
  destruct (Ascii.eqb_spec c (byte_of 34)) as [->|Hquot]; [done|].
  cbn [expand]. apply Ascii.eqb_neq in Hlt, Hgt, Hquot.
  rewrite Hlt. cbn [expand String.append]. rewrite Hgt.
  cbn [expand String.append]. by rewrite Hquot.
Qed.

Lemma all_bytes_append p (s t : string) :
  all_bytes p (s ++ t) = all_bytes p s && all_bytes p t.
Proof.
  induction s as [|c s IH]; [done|]. rewrite append_cons. cbn [all_bytes].
  by rewrite IH, andb_assoc.
Qed.

Lemma escapeByte_clean c : all_bytes (fun d => negb (markup d)) (escapeByte c) = true.
Proof.
  unfold escapeByte.
  destruct (Ascii.eqb_spec c "&") as [->|Hamp]; [done|].
  destruct (Ascii.eqb c "<") eqn:Hlt; [done|].
  destruct (Ascii.eqb c ">") eqn:Hgt; [done|].
  destruct (Ascii.eqb c (byte_of 34)) eqn:Hquot; [done|].
  cbn [all_bytes]. unfold markup. by rewrite Hlt, Hgt, Hquot.
Qed.

(** X14: the output of [xmlEscape], and of [svgEscape], has no [<], no
    [>] and no double quote in it, and a text without these and without
    [&] is returned as it is. *)
Theorem xmlEscape_clean (s : string) :
  all_bytes (fun c => negb (markup c)) (xmlEscape s) = true /\
  all_bytes (fun c => negb (markup c)) (render.svgEscape s) = true /\
  (all_bytes (fun c => negb (markup c || Ascii.eqb c "&")) s = true ->
   xmlEscape s = s /\ render.svgEscape s = s).
Proof.
  change (render.svgEscape s) with (xmlEscape s). rewrite xmlEscape_bytes.
  split; [|split; [|intros Hplain; split; [|]]].
  1,2: induction s as [|c s IH]; [done|]; cbn [expand];
       by rewrite all_bytes_append, escapeByte_clean, IH.
  1,2: induction s as [|c s IH]; [done|]; cbn [expand all_bytes] in *;
       apply andb_prop in Hplain as [Hc Hs]; rewrite (IH Hs);
       unfold escapeByte, markup in *;
       destruct (Ascii.eqb c "&"), (Ascii.eqb c "<"), (Ascii.eqb c ">"),
         (Ascii.eqb c (byte_of 34)); done.
Qed.

Lemma escapeByte_code c d (r1 r2 : string) :
  (escapeByte c ++ r1)%string = (escapeByte d ++ r2)%string -> c = d /\ r1 = r2.
Proof.
  unfold escapeByte.
  destruct (Ascii.eqb_spec c "&") as [->|Hc1];
    [|destruct (Ascii.eqb_spec c "<") as [->|Hc2];
      [|destruct (Ascii.eqb_spec c ">") as [->|Hc3];
        [|destruct (Ascii.eqb_spec c (byte_of 34)) as [->|Hc4]]]];
  (destruct (Ascii.eqb_spec d "&") as [->|Hd1];
    [|destruct (Ascii.eqb_spec d "<") as [->|Hd2];
      [|destruct (Ascii.eqb_spec d ">") as [->|Hd3];
        [|destruct (Ascii.eqb_spec d (byte_of 34)) as [->|Hd4]]]]);
  rewrite ?append_cons; cbn [String.append]; intros Heq;
    try (injection Heq as ?; by subst); try done.
Qed.

(** X15: [xmlEscape] loses nothing: two different texts never have the
    same escaped form. *)
Theorem xmlEscape_inj (s t : string) : s <> t -> xmlEscape s <> xmlEscape t.
Proof.
  intros Hne Heq. apply Hne. clear Hne. revert Heq.
  rewrite !xmlEscape_bytes. revert t.
  induction s as [|c s IH]; intros [|d t]; cbn [expand]; [done| | |].
  - unfold escapeByte.
    destruct (Ascii.eqb d "&"), (Ascii.eqb d "<"), (Ascii.eqb d ">"),
      (Ascii.eqb d (byte_of 34)); done.
  - unfold escapeByte.
    destruct (Ascii.eqb c "&"), (Ascii.eqb c "<"), (Ascii.eqb c ">"),
      (Ascii.eqb c (byte_of 34)); done.
  - intros [-> Heq]%escapeByte_code. by rewrite (IH t Heq).
Qed.

End Escaping.

Section EscapingWitnesses.
Import Go output.

Lemma xmlEscape_inj_witness :
  xmlEscape "<" = "&lt;" /\ xmlEscape "&lt;" = "&amp;lt;" /\
  xmlEscape "<" <> xmlEscape "&lt;".
Proof.
  split; [vm_compute; reflexivity|]. split; [vm_compute; reflexivity|].
  apply (xmlEscape_inj "<" "&lt;"). discriminate.
Defined.

End EscapingWitnesses.

(** ** Truncation and step names *)

Section Truncation.
Import Go render schema.

Lemma length_substring_0 n s :
  (n <= String.length s)%nat -> String.length (String.substring 0 n s) = n.
Proof.
  revert n. induction s as [|c s IH]; intros [|n] Hn; cbn in *; try lia; try done.
  rewrite IH; lia.
Qed.

Lemma length_substring_le n s : (String.length (String.substring 0 n s) <= n)%nat.
Proof.
  revert n. induction s as [|c s IH]; intros [|n]; cbn; try lia.
  specialize (IH n). lia.
Qed.

Lemma prefix_substring_0 n s : String.prefix (String.substring 0 n s) s = true.
Proof.
  revert n. induction s as [|c s IH]; intros [|n]; cbn; try done.
  destruct (ascii_dec c c); [apply IH|done].
Qed.

Lemma slen_append (s t : string) : slen (s ++ t) = slen s + slen t.
Proof. unfold slen. rewrite length_append. lia. Qed.

(** X16: for a limit of at least one, [truncate] returns a text that
    fits the limit unchanged, and cuts a longer one to its first
    [max - 1] bytes followed by the three bytes of an ellipsis, which
    makes [max + 2] bytes; for a limit below one and a text that does not
    fit, the slice expression panics. *)
Theorem truncate_length (s : string) (max : Z) :
  (1 <= max <= max_int ->
   exists t,
     truncate s max = Some t /\
     (slen s <= max -> t = s) /\
     (max < slen s ->
      t = (String.substring 0 (Z.to_nat (max - 1)) s ++ ellipsis)%string /\
      slen t = max + 2)) /\
  (min_int < max <= 0 -> max < slen s -> truncate s max = None).
Proof.
  unfold truncate, sub. split.
  - intros Hmax.
    rewrite wrap_id by (unfold in_int, min_int, max_int in *; lia).
    destruct (slen s <=? max) eqn:Hfit.
    + exists s. split; [done|]. split; [done|lia].
    + apply Z.leb_gt in Hfit.
      assert ((0 <=? max - 1) && (max - 1 <=? slen s) = true) as ->
        by (rewrite andb_true_iff, !Z.leb_le; lia).
      eexists. split; [reflexivity|]. split; [lia|]. intros _.
      unfold sslice. rewrite Z.sub_0_r. split; [done|].
      rewrite slen_append. unfold slen at 1.
      rewrite length_substring_0 by (unfold slen in Hfit; lia).
      change (slen ellipsis) with 3. lia.
  - intros Hmax Hlong.
    rewrite wrap_id by (unfold in_int, min_int, max_int in *; lia).
    assert ((slen s <=? max) = false) as -> by lia.
    by assert ((0 <=? max - 1) = false) as -> by lia.
Qed.

Lemma firstSentence_short step sep name :
  firstSentence step sep = Some name ->
  slen name <= 80 /\ String.prefix name step = true.
Proof.
  unfold firstSentence.
  destruct ((0 <? Index step sep) && (Index step sep <? 80)) eqn:Hidx; [|done].
  apply andb_prop in Hidx as [?%Z.ltb_lt ?%Z.ltb_lt]. intros [= <-].
  unfold sslice, add. rewrite Z.sub_0_r.
  rewrite wrap_id by (unfold in_int, min_int, max_int; lia).
  split; [|apply prefix_substring_0].
  pose proof (length_substring_le (Z.to_nat (Index step sep + 1)) step).
  unfold slen. change (Z.to_nat 0) with 0%nat. lia.
Qed.

(** X17: a step name is never longer than 80 bytes, and it is either a
    prefix of the step or the first 77 bytes of the step followed by
    three dots. *)
Theorem stepName_short (step : string) :
  slen (stepName step) <= 80 /\
  (String.prefix (stepName step) step = true \/
   stepName step = (String.substring 0 77 step ++ "...")%string).
Proof.
  unfold stepName.
  destruct (firstSentence step ". ") as [name|] eqn:H1.
  { apply firstSentence_short in H1 as [? ?]. split; [done|by left]. }
  destruct (firstSentence step ("." ++ output.newline)%string)
    as [name|] eqn:H2.
  { apply firstSentence_short in H2 as [? ?]. split; [done|by left]. }
  destruct (80 <? slen step) eqn:Hlong.
  - apply Z.ltb_lt in Hlong. split; [|by right].
    rewrite slen_append. unfold slen at 1, sslice.
    change (Z.to_nat 0) with 0%nat. change (Z.to_nat (77 - 0)) with 77%nat.
    rewrite length_substring_0 by (unfold slen in Hlong; lia).
    change (slen "...") with 3. lia.
  - apply Z.ltb_ge in Hlong. split; [done|]. left.
    rewrite <- (append_nil_r step) at 2. apply prefix_append.
Qed.

End Truncation.

(** ** Searching and cutting byte strings *)

Section StringSearch.
Import Go.

Lemma prefix_length sub s :
  String.prefix sub s = true -> (String.length sub <= String.length s)%nat.
Proof.
  revert sub. induction s as [|c s IH]; intros [|d sub]; cbn; try done; try lia.
  destruct (ascii_dec d c); [|done]. intros Hp%IH. lia.
Qed.

Lemma prefix_app_r sub s (t : string) :
  String.prefix sub s = true -> String.prefix sub (s ++ t) = true.
Proof.
  revert sub. induction s as [|c s IH]; intros [|d sub]; try done.
  - by destruct t.
  - rewrite append_cons. cbn. destruct (ascii_dec d c); [apply IH|done].
Qed.

Lemma prefix_app_long sub s (t : string) :
  (String.length sub <= String.length s)%nat ->
  String.prefix sub (s ++ t) = String.prefix sub s.
Proof.
  revert sub. induction s as [|c s IH]; intros [|d sub] Hlen;
    cbn in *; try done; try lia.
  - by destruct t.
  - rewrite append_cons. cbn. destruct (ascii_dec d c); [|done].
    apply IH. lia.
Qed.

Lemma index_of_unfold sub s :
  index_of sub s
  = if String.prefix sub s then Some O
    else match s with
         | EmptyString => None
         | String _ r => S <$> index_of sub r
         end.
Proof. by destruct s. Qed.

Lemma index_of_bound sub s i :
  index_of sub s = Some i ->
  (i + String.length sub <= String.length s)%nat.
Proof.
  revert i. induction s as [|c s IH]; intros i; rewrite index_of_unfold.
  - destruct (String.prefix sub "") eqn:Hp; [|done].
    intros [= <-]. by apply prefix_length in Hp.
  - destruct (String.prefix sub (String c s)) eqn:Hp.
    + intros [= <-]. by apply prefix_length in Hp.
    + destruct (index_of sub s) as [j|]; [|done].
      cbn [fmap option_fmap option_map]. intros [= <-].
      specialize (IH j eq_refl). cbn [String.length]. lia.
Qed.

(** The first occurrence stays the first when the text goes on. *)
Lemma index_of_app sub s (t : string) i :
  index_of sub s = Some i -> index_of sub (s ++ t) = Some i.
Proof.
  revert i. induction s as [|c s IH]; intros i; rewrite index_of_unfold.
  - destruct (String.prefix sub "") eqn:Hp; [|done]. intros [= <-].
    rewrite index_of_unfold. by rewrite (prefix_app_r sub "" t Hp).
  - destruct (String.prefix sub (String c s)) eqn:Hp.
    + intros [= <-]. rewrite index_of_unfold.
      by rewrite (prefix_app_r sub (String c s) t Hp).
    + destruct (index_of sub s) as [j|] eqn:Hj; [|done].
      cbn [fmap option_fmap option_map]. intros [= <-].
      pose proof (index_of_bound sub s j Hj) as Hb.
      rewrite index_of_unfold.
      rewrite (prefix_app_long sub (String c s) t) by (cbn [String.length]; lia).
      rewrite Hp, append_cons. by rewrite (IH j eq_refl).
Qed.

Lemma Index_app sub s (t : string) :
  0 <= Index s sub -> Index (s ++ t) sub = Index s sub.
Proof.
  unfold Index. destruct (index_of sub s) as [i|] eqn:Hi; [|lia].
  intros _. by rewrite (index_of_app sub s t i Hi).
Qed.

(** A text that ends in its only occurrence of [sub] has none without
    it. *)
Lemma Index_last_only sub s :
  sub <> "" -> Index (s ++ sub) sub = slen s -> Index s sub = -1.
Proof.
  intros Hsub. unfold Index, slen.
  destruct (index_of sub s) as [i|] eqn:Hi; [|done].
  rewrite (index_of_app sub s sub i Hi).
  pose proof (index_of_bound sub s i Hi).
  destruct sub; [done|]. cbn [String.length] in *. lia.
Qed.

Lemma Index_here sub (t : string) : Index (sub ++ t) sub = 0.
Proof.
  unfold Index. rewrite index_of_unfold. by rewrite prefix_append.
Qed.

Lemma from_append (a b : string) : from (String.length a) (a ++ b) = b.
Proof.
  unfold from. rewrite length_append.
  replace (String.length a + String.length b - String.length a)%nat
    with (String.length b) by lia.
  apply drop_append.
Qed.

Lemma sfrom_append (a b : string) : sfrom (a ++ b) (slen a) = b.
Proof. unfold sfrom, slen. rewrite Nat2Z.id. apply from_append. Qed.

Lemma sslice_append (a b : string) : sslice (a ++ b) 0 (slen a) = a.
Proof.
  unfold sslice, slen. rewrite Z.sub_0_r, Nat2Z.id. apply take_append.
Qed.

Lemma HasPrefix_append (a b : string) : HasPrefix (a ++ b) a = true.
Proof. apply prefix_append. Qed.

Lemma TrimPrefix_append (a b : string) : TrimPrefix (a ++ b) a = b.
Proof. unfold TrimPrefix. by rewrite HasPrefix_append, from_append. Qed.

Lemma slen_nonneg s : 0 <= slen s.
Proof. unfold slen. lia. Qed.

Lemma lastByte_append (a b : string) :
  b <> "" -> lastByte (a ++ b) = lastByte b.
Proof.
  intros Hb. induction a as [|c a IH]; [done|].
  rewrite append_cons. cbn [lastByte]. rewrite IH.
  destruct (a ++ b)%string eqn:Hab; [|done].
  destruct a; [simpl in Hab; by subst|done].
Qed.

Lemma lastByte_nonempty c s : is_Some (lastByte (String c s)).
Proof.
  revert c. induction s as [|d s IH]; intros c; [by eexists|].
  cbn [lastByte]. apply IH.
Qed.

Lemma tidy_cons c s :
  tidy (String c s)
  = match lastByte (String c s) with
    | Some d => plainByte c && plainByte d
    | None => false
    end.
Proof. done. Qed.

(** A text that starts and ends with plain bytes is tidy. *)
Lemma tidy_between c (s : string) d :
  plainByte c = true -> plainByte d = true ->
  tidy (String c (s ++ String d "")) = true.
Proof.
  intros Hc Hd. rewrite tidy_cons.
  change (String c (s ++ String d "")) with (String c s ++ String d "")%string.
  rewrite lastByte_append by done. cbn [lastByte]. by rewrite Hc, Hd.
Qed.

Lemma tidy_append c (a b : string) :
  plainByte c = true -> tidy b = true -> b <> "" ->
  tidy (String c a ++ b) = true.
Proof.
  intros Hc Hb Hne. rewrite append_cons, tidy_cons.
  change (String c (a ++ b)) with (String c a ++ b)%string.
  rewrite lastByte_append by done.
  destruct b as [|e b]; [done|]. rewrite tidy_cons in Hb.
  destruct (lastByte (String e b)) as [d|]; [|done].
  apply andb_prop in Hb as [_ ->]. by rewrite Hc.
Qed.

End StringSearch.

(** ** White space: the reference instance *)

Section ReferenceSpaces.
Import Go reference.

Lemma trimLeftSpaces_spaces l (s : string) :
  all_bytes is_space_byte l = true ->
  trimLeftSpaces (l ++ s) = trimLeftSpaces s.
Proof.
  induction l as [|c l IH]; [done|]. cbn [all_bytes].
  intros [Hc Hl]%andb_prop. rewrite append_cons. cbn [trimLeftSpaces].
  by rewrite Hc, IH.
Qed.

Lemma trimRightSpaces_spaces r :
  all_bytes is_space_byte r = true -> trimRightSpaces r = "".
Proof.
  induction r as [|c r IH]; [done|]. cbn [all_bytes].
  intros [Hc Hr]%andb_prop. cbn [trimRightSpaces]. by rewrite IH, Hc.
Qed.

Lemma trimRightSpaces_plain m d r :
  lastByte m = Some d -> plainByte d = true ->
  all_bytes is_space_byte r = true ->
  trimRightSpaces (m ++ r) = m.
Proof.
  intros Hlast Hd Hr. induction m as [|c m IH]; [done|].
  rewrite append_cons. cbn [trimRightSpaces].
  destruct m as [|c' m'].
  - injection Hlast as ->. change ("" ++ r)%string with r.
    rewrite trimRightSpaces_spaces by done.
    unfold plainByte in Hd. apply andb_prop in Hd as [_ Hd].
    by destruct (is_space_byte d).
  - rewrite IH by done. done.
Qed.

Lemma reference_TrimSpace_trims : TrimSpace_trims.
Proof.
  intros l m r Hl Hr Hm. cbn [strings_TrimSpace spaces].
  rewrite trimLeftSpaces_spaces by done.
  destruct m as [|c m].
  - change ("" ++ r)%string with r.
    assert (trimLeftSpaces r = "") as ->; [|done].
    clear -Hr. induction r as [|c r IH]; [done|]. cbn [all_bytes] in Hr.
    apply andb_prop in Hr as [Hc Hr]. cbn [trimLeftSpaces]. by rewrite Hc, IH.
  - unfold tidy in Hm.
    destruct (lastByte (String c m)) as [d|] eqn:Hlast; [|done].
    apply andb_prop in Hm as [Hc Hd].
    rewrite append_cons. cbn [trimLeftSpaces].
    assert (is_space_byte c = false) as ->.
    { unfold plainByte in Hc. apply andb_prop in Hc as [_ Hc].
      by destruct (is_space_byte c). }
    change (String c (m ++ r)) with (String c m ++ r)%string.
    by eapply trimRightSpaces_plain.
Qed.

End ReferenceSpaces.

(** ** Front matter and sections *)

Section FrontMatter.
Import Go entity loader.
Context `{Spaces}.
Hypothesis trims : TrimSpace_trims.

Ltac reshape := rewrite ?append_assoc, ?append_nil_r; reflexivity.

Lemma TrimSpace_tidy m : tidy m = true -> strings_TrimSpace m = m.
Proof.
  intros Hm. rewrite <- (trims "" m "") at 2 by done.
  by rewrite append_nil_r.
Qed.

Lemma TrimSpace_after_newline m :
  tidy m = true -> strings_TrimSpace (output.newline ++ m) = m.
Proof.
  intros Hm. rewrite <- (trims output.newline m "") at 2 by done.
  by rewrite append_nil_r.
Qed.

Lemma TrimSpace_before_newline m :
  tidy m = true -> strings_TrimSpace (m ++ output.newline) = m.
Proof. intros Hm. by rewrite <- (trims "" m output.newline) at 2. Qed.

Lemma tidy_lastByte c s d :
  plainByte c = true -> lastByte (String c s) = Some d -> plainByte d = true ->
  tidy (String c s) = true.
Proof. intros Hc Hlast Hd. by rewrite tidy_cons, Hlast, Hc, Hd. Qed.

Lemma tidy_last (s : string) :
  s <> "" -> tidy s = true ->
  exists d, lastByte s = Some d /\ plainByte d = true.
Proof.
  destruct s as [|c s]; [done|]. intros _. rewrite tidy_cons.
  destruct (lastByte (String c s)) as [d|]; [|done].
  intros [_ Hd]%andb_prop. eauto.
Qed.


(** [extractSection] on a section that is there, and on a body without
    the heading. *)
Lemma extractSection_here (before header text : string) (more : option string) :
  tidy text = true -> headingFree text ->
  Index (before ++ "## " ++ header) ("## " ++ header) = slen before ->
  slen (before ++ sectionOf header text) <= max_int ->
  extractSection (before ++ sectionOf header text ++ following more) header
    = text /\
  (forall body, Index body ("## " ++ header) = -1 ->
                extractSection body header = "").
Proof.
  intros Htext Hfree Hfirst Hlen. split.
  2: { intros body Hnone. unfold extractSection. by rewrite Hnone. }
  unfold extractSection, sectionOf.
  set (marker := ("## " ++ header)%string) in *.
  pose proof (slen_nonneg before) as Hb0.
  pose proof (slen_nonneg marker) as Hm0.
  pose proof (slen_nonneg text) as Ht0.
  assert (slen before + slen marker + 1 + slen text <= max_int) as Hfit.
  { assert ((before ++ marker ++ output.newline ++ text)%string
            = (((before ++ marker) ++ output.newline) ++ text)%string) as Heq
      by reshape.
    subst marker. unfold sectionOf in Hlen.
    assert ((before ++ "## " ++ header ++ output.newline ++ text)%string
            = (before ++ ("## " ++ header) ++ output.newline ++ text)%string)
      as Heq' by reshape.
    rewrite Heq', Heq, !slen_append in Hlen.
    change (slen output.newline) with 1 in Hlen.
    rewrite slen_append. lia. }
  clear Hlen.
  assert ((before ++ ("## " ++ header ++ output.newline ++ text)
             ++ following more)%string
          = ((before ++ marker)
               ++ output.newline ++ text ++ following more)%string) as ->
    by (subst marker; reshape).
  rewrite Index_app by (rewrite Hfirst; lia). rewrite Hfirst.
  assert ((slen before <? 0) = false) as -> by lia.
  unfold add.
  rewrite (wrap_id (slen before + slen marker))
    by (unfold in_int, min_int, max_int in *; lia).
  assert (slen before + slen marker = slen (before ++ marker)) as ->
    by by rewrite slen_append.
  rewrite sfrom_append, Index_here.
  assert ((0 <? 0) = false) as -> by done.
  rewrite (wrap_id (0 + 1)) by done.
  rewrite wrap_id by (rewrite slen_append; unfold in_int, min_int, max_int in *; lia).
  assert (slen (before ++ marker) + (0 + 1)
          = slen ((before ++ marker) ++ output.newline)) as ->
    by (rewrite (slen_append _ output.newline); done).
  assert (((before ++ marker) ++ output.newline ++ text ++ following more)%string
          = (((before ++ marker) ++ output.newline)
               ++ text ++ following more)%string) as ->
    by reshape.
  rewrite sfrom_append.
  unfold headingFree in Hfree.
  destruct more as [rest|]; cbn [following].
  - assert ((text ++ output.newline ++ "## " ++ rest)%string
            = ((text ++ output.newline ++ "## ") ++ rest)%string) as ->
      by reshape.
    rewrite Index_app by (rewrite Hfree; lia). rewrite Hfree.
    assert ((0 <=? slen text) = true) as -> by lia.
    rewrite append_assoc, sslice_append. by apply TrimSpace_tidy.
  - rewrite append_nil_r.
    rewrite (Index_last_only (output.newline ++ "## ") text) by done.
    cbn [Z.leb Z.compare]. by apply TrimSpace_tidy.
Qed.


End FrontMatter.

(** ** Decimal numerals *)

Section Numerals.
Import Go.

Lemma pretty_N_char_digit x :
  (x < 10)%N -> is_digit_byte (pretty_N_char x) = true.
Proof.
  intros Hx.
  assert (x = 0 \/ x = 1 \/ x = 2 \/ x = 3 \/ x = 4 \/ x = 5 \/ x = 6
          \/ x = 7 \/ x = 8 \/ x = 9)%N as Hcases by lia.
  by repeat (destruct Hcases as [->|Hcases]; [done|]); subst.
Qed.

(** The digits that [pretty_N_go] puts in front of its accumulator. *)
Lemma pretty_N_go_digits x s :
  exists d,
    pretty_N_go x s = (d ++ s)%string /\
    all_bytes is_digit_byte d = true /\
    (x <> 0%N -> d <> "") /\
    forall k, (x < 10 ^ k)%N -> (String.length d <= N.to_nat k)%nat.
Proof.
  revert s. induction (N.lt_wf_0 x) as [x _ IH]. intros s.
  destruct (decide (x = 0%N)) as [->|Hx].
  { exists "". rewrite pretty_N_go_0. repeat split; try done. simpl. lia. }
  rewrite pretty_N_go_step by lia.
  destruct (IH (x `div` 10)%N ltac:(apply N.div_lt; lia)
               (String (pretty_N_char (x `mod` 10)) s))
    as (d & -> & Hd & _ & Hlen).
  exists (d ++ String (pretty_N_char (x `mod` 10)) "")%string.
  split; [by rewrite append_assoc|]. split; [|split].
  - rewrite all_bytes_append, Hd. cbn [all_bytes].
    rewrite pretty_N_char_digit; [done|]. by apply N.mod_lt.
  - intros _. by destruct d.
  - intros k Hk. rewrite length_append. cbn [String.length].
    destruct (decide (k = 0%N)) as [->|Hk0]; [simpl in Hk; lia|].
    assert (x `div` 10 < 10 ^ (k - 1))%N as Hdiv.
    { apply N.Div0.div_lt_upper_bound.
      replace (10 * 10 ^ (k - 1))%N with (10 ^ k)%N; [done|].
      rewrite <- N.pow_succ_r'. f_equal. lia. }
    specialize (Hlen (k - 1)%N Hdiv). lia.
Qed.

(** A positive number is written with digits only, as many as its size
    asks for. *)
Lemma fmt_d_digits n k :
  0 < n < 10 ^ Z.of_nat k ->
  all_bytes is_digit_byte (fmt_d n) = true /\
  fmt_d n <> "" /\ (String.length (fmt_d n) <= k)%nat.
Proof.
  intros Hn. destruct n as [|p|p]; [lia| |lia].
  unfold fmt_d, pretty, pretty_Z, pretty, pretty_positive, pretty, pretty_N.
  rewrite decide_False by done.
  destruct (pretty_N_go_digits (N.pos p) "") as (d & -> & Hd & Hne & Hlen).
  rewrite append_nil_r. split; [done|]. split; [by apply Hne|].
  specialize (Hlen (N.of_nat k)). rewrite Nat2N.id in Hlen. apply Hlen.
  assert (Z.of_N (N.pos p) < Z.of_N (10 ^ N.of_nat k)); [|lia].
  rewrite N2Z.inj_pow. simpl. rewrite nat_N_Z. lia.
Qed.

End Numerals.

(** ** Lists in sections *)

Section ListSections.
Import Go entity loader.
Context `{Spaces}.
Hypothesis trims : TrimSpace_trims.

#[local] Abbreviation nl := output.newline.
#[local] Abbreviation nlc := (byte_of 10).

Lemma split_plain s :
  has_byte nlc s = false -> split_from nl 0 s = (s, []).
Proof.
  induction s as [|c s IH]; [done|]. cbn [has_byte].
  intros [Hc Hs]%orb_false_elim. cbn [split_from String.prefix output.newline].
  destruct (ascii_dec (byte_of 10) c) as [<-|_];
    [by rewrite Ascii.eqb_refl in Hc|].
  by rewrite (IH Hs).
Qed.

Lemma split_line a rest :
  has_byte nlc a = false ->
  split_from nl 0 (a ++ nl ++ rest)
  = (a, let '(p, ps) := split_from nl 0 rest in p :: ps).
Proof.
  intros Ha. induction a as [|c a IH].
  - change ("" ++ nl ++ rest)%string with (String (byte_of 10) rest).
    cbn [split_from String.prefix output.newline String.length Nat.sub].
    destruct (ascii_dec (byte_of 10) (byte_of 10)); [|done].
    by destruct rest.
  - cbn [has_byte] in Ha. apply orb_false_elim in Ha as [Hc Ha].
    rewrite append_cons.
    cbn [split_from String.prefix output.newline].
    destruct (ascii_dec (byte_of 10) c) as [<-|_];
      [by rewrite Ascii.eqb_refl in Hc|].
    by rewrite (IH Ha).
Qed.

(** Joining lines and splitting them again. *)
Lemma Split_Join lines :
  lines <> [] -> Forall (fun l => has_byte nlc l = false) lines ->
  Split (Join lines nl) nl = lines.
Proof.
  intros Hne Hall. unfold Split, Join.
  induction Hall as [|l lines Hl Hall IH]; [done|].
  destruct lines as [|l' lines].
  - cbn [String.concat]. by rewrite split_plain.
  - change (String.concat nl (l :: l' :: lines))
      with (l ++ nl ++ String.concat nl (l' :: lines))%string.
    rewrite split_line by done. specialize (IH ltac:(done)).
    destruct (split_from nl 0 (String.concat nl (l' :: lines))) as [p ps].
    by rewrite IH.
Qed.

Lemma Split_empty : Split "" nl = [""].
Proof. done. Qed.

Lemma bulletItem_line b : oneLine b.2 -> bulletItem (bulletLine b) = Some b.2.
Proof.
  destruct b as [star item]. intros (Hne & Htidy & _). cbn [fst snd] in *.
  unfold bulletItem, bulletLine. cbn [fst snd].
  assert (strings_TrimSpace ((if star then "* " else "- ") ++ item) =
          ((if star then "* " else "- ") ++ item)%string) as ->.
  { apply (TrimSpace_tidy trims). destruct star.
    - by apply (tidy_append "*" " " item).
    - by apply (tidy_append "-" " " item). }
  destruct star.
  - assert (HasPrefix ("* " ++ item) "- " = false) as -> by done.
    by rewrite HasPrefix_append, TrimPrefix_append.
  - by rewrite HasPrefix_append, TrimPrefix_append.
Qed.

Lemma bulletLine_one_line b : oneLine b.2 -> has_byte nlc (bulletLine b) = false.
Proof.
  intros (_ & _ & Hb). unfold bulletLine.
  rewrite has_byte_append, Hb. by destruct b.1.
Qed.

Lemma parseUnorderedList_lines (items : list (bool * string)) :
  Forall (fun b => oneLine b.2) items ->
  parseUnorderedList (Join (bulletLine <$> items) output.newline) = items.*2.
Proof.
  intros Hall. unfold parseUnorderedList.
  destruct items as [|b items].
  { change (Join _ _) with "". rewrite Split_empty. cbn [omap list_omap].
    unfold bulletItem. by rewrite (TrimSpace_tidy trims ""). }
  rewrite Split_Join.
  - induction Hall as [|b' items' Hb Hall IH]; [done|].
    rewrite !fmap_cons. cbn [omap list_omap].
    by rewrite bulletItem_line, IH.
  - done.
  - apply Forall_fmap. eapply Forall_impl; [exact Hall|].
    intros b' Hb'. by apply bulletLine_one_line.
Qed.


Lemma index_of_dot d (x : string) :
  all_bytes is_digit_byte d = true ->
  index_of ". " (d ++ ". " ++ x) = Some (String.length d).
Proof.
  induction d as [|c d IH].
  { intros _. change ("" ++ ". " ++ x)%string with (". " ++ x)%string.
    rewrite index_of_unfold. by rewrite (prefix_append ". " x). }
  cbn [all_bytes].
  intros [Hc Hd]%andb_prop. rewrite append_cons, index_of_unfold.
  cbn [String.prefix]. destruct (ascii_dec "." c) as [<-|_]; [done|].
  by rewrite (IH Hd).
Qed.

Lemma digit_plain c : is_digit_byte c = true -> plainByte c = true.
Proof. by destruct c as [[] [] [] [] [] [] [] []]. Qed.

Lemma digit_not_newline c : is_digit_byte c = true -> Ascii.eqb c nlc = false.
Proof. by destruct c as [[] [] [] [] [] [] [] []]. Qed.

Lemma digits_one_line d :
  all_bytes is_digit_byte d = true -> has_byte nlc d = false.
Proof.
  induction d as [|c d IH]; [done|]. cbn [all_bytes has_byte].
  intros [Hc Hd]%andb_prop. by rewrite digit_not_newline, IH.
Qed.

Lemma numberedItem_line n item :
  1 <= n <= 9999 -> oneLine item ->
  numberedItem (fmt_d n ++ ". " ++ item) = Some item /\
  has_byte nlc (fmt_d n ++ ". " ++ item) = false.
Proof.
  intros Hn (Hne & Htidy & Hline).
  destruct (fmt_d_digits n 4 ltac:(simpl; lia)) as (Hd & Hd0 & Hd4).
  set (d := fmt_d n) in *.
  split.
  2: { by rewrite !has_byte_append, digits_one_line, Hline. }
  unfold numberedItem.
  assert (strings_TrimSpace (d ++ ". " ++ item) = (d ++ ". " ++ item)%string)
    as ->.
  { apply (TrimSpace_tidy trims).
    destruct d as [|c d']; [done|]. cbn [all_bytes] in Hd.
    apply andb_prop in Hd as [Hc _].
    assert ((String c d' ++ ". " ++ item)%string
            = (String c (d' ++ ". ") ++ item)%string) as ->
      by (by rewrite <- append_assoc).
    apply tidy_append; [by apply digit_plain|done|done]. }
  assert (1 <= slen d <= 4) as Hlen.
  { unfold slen. destruct d; [done|]. cbn [String.length] in *. lia. }
  assert ((3 <=? slen (d ++ ". " ++ item)) = true) as ->.
  { rewrite !slen_append. pose proof (slen_nonneg item).
    change (slen ". ") with 2. apply Z.leb_le. lia. }
  unfold Index. rewrite index_of_dot by done. fold (slen d).
  assert ((0 <? slen d) && (slen d <=? 4) = true) as ->
    by (rewrite andb_true_iff, Z.ltb_lt, Z.leb_le; lia).
  rewrite sslice_append, Hd. f_equal.
  unfold add. rewrite wrap_id by (unfold in_int, min_int, max_int; lia).
  assert ((d ++ ". " ++ item)%string = ((d ++ ". ") ++ item)%string) as ->
    by (by rewrite append_assoc).
  assert (slen d + 2 = slen (d ++ ". ")) as -> by (by rewrite slen_append).
  apply sfrom_append.
Qed.


End ListSections.

(** ** Body sections *)

Section BodySections.
Import Go entity loader.
Context `{Spaces}.

#[local] Abbreviation nl := output.newline.
#[local] Abbreviation nlc := (byte_of 10).

Lemma parseSections_snoc cfgs cfg body :
  MarkdownLoader_parseSections (cfgs ++ [cfg]) body
  = (let content := extractSection body (config.BodySection.Header cfg) in
     if String.eqb content "" then MarkdownLoader_parseSections cfgs body
     else <[config.BodySection.Name cfg :=
              parseSection (config.BodySection.Type_ cfg) content]>
            (MarkdownLoader_parseSections cfgs body)).
Proof. unfold MarkdownLoader_parseSections. by rewrite foldl_snoc. Qed.

(** X22: the parsed sections hold, under each name, the section of the
    last configured body section of that name whose text is not empty,
    parsed according to its type; a name with no such section is
    absent. *)
Theorem parseSections_last_wins (bodySections : list config.BodySection.t)
    (body name : string) :
  MarkdownLoader_parseSections bodySections body !! name
  = (fun cfg => parseSection (config.BodySection.Type_ cfg)
                  (extractSection body (config.BodySection.Header cfg)))
      <$> last (filter (fun cfg =>
                          config.BodySection.Name cfg = name /\
                          extractSection body (config.BodySection.Header cfg)
                            <> "")
                       bodySections).
Proof.
  induction bodySections as [|cfg cfgs IH] using rev_ind; [done|].
  rewrite parseSections_snoc, filter_app, filter_cons, filter_nil. cbn zeta.
  destruct (String.eqb_spec
              (extractSection body (config.BodySection.Header cfg)) "")
    as [Hempty|Hsome].
  - rewrite decide_False by tauto. by rewrite app_nil_r.
  - destruct (decide (config.BodySection.Name cfg = name)) as [<-|Hne].
    + rewrite decide_True by done. by rewrite lookup_insert_eq, last_snoc.
    + rewrite decide_False by tauto.
      rewrite lookup_insert_ne by done. by rewrite app_nil_r.
Qed.

Hypothesis trims : TrimSpace_trims.

(** No match of a pattern that starts with a newline can start inside a
    line. *)
Lemma index_of_line sub a (tail : string) :
  has_byte nlc a = false ->
  index_of (String nlc sub) (a ++ tail)
  = Nat.add (String.length a) <$> index_of (String nlc sub) tail.
Proof.
  intros Ha. induction a as [|c a IH].
  - change ("" ++ tail)%string with tail.
    destruct (index_of (String nlc sub) tail); done.
  - cbn [has_byte] in Ha. apply orb_false_elim in Ha as [Hc Ha].
    rewrite append_cons, index_of_unfold. cbn [String.prefix].
    destruct (ascii_dec nlc c) as [<-|_]; [by rewrite Ascii.eqb_refl in Hc|].
    rewrite (IH Ha). by destruct (index_of (String nlc sub) tail).
Qed.

(** A bulleted list has no heading line in it. *)
Lemma bullets_headingFree (items : list (bool * string)) :
  Forall (fun b => oneLine b.2) items ->
  headingFree (Join (bulletLine <$> items) nl).
Proof.
  intros Hall. unfold headingFree, Index, Join.
  assert (index_of (nl ++ "## ")
            (String.concat nl (bulletLine <$> items) ++ nl ++ "## ")
          = Some (String.length (String.concat nl (bulletLine <$> items))))
    as ->; [|done].
  induction Hall as [|b items Hb Hall IH].
  { done. }
  pose proof (bulletLine_one_line b Hb) as Hline.
  destruct items as [|b' items'].
  - cbn [fmap list_fmap String.concat].
    change (nl ++ "## ")%string with (String nlc "## ").
    rewrite index_of_line by done.
    change (index_of (String nlc "## ") (String nlc "## ")) with (Some O).
    cbn [fmap option_fmap option_map]. f_equal. lia.
  - change (String.concat nl (bulletLine <$> b :: b' :: items'))
      with (bulletLine b ++ nl ++ String.concat nl (bulletLine <$> b' :: items'))%string.
    rewrite !append_assoc.
    change (nl ++ "## ")%string with (String nlc "## ") in *.
    rewrite index_of_line by done.
    set (rest := String.concat nl (bulletLine <$> b' :: items')) in *.
    change (nl ++ rest ++ String nlc "## ")%string
      with (String nlc (rest ++ String nlc "## ")).
    rewrite index_of_unfold.
    assert (String.prefix (String nlc "## ") (String nlc (rest ++ String nlc "## "))
            = false) as ->.
    { cbn [String.prefix]. destruct (ascii_dec nlc nlc); [|done].
      subst rest. rewrite fmap_cons.
      destruct items'; cbn [fmap list_fmap String.concat];
        unfold bulletLine; by destruct b'.1. }
    rewrite IH. cbn [fmap option_fmap option_map]. f_equal.
    rewrite !length_append. change (String.length nl) with 1%nat. lia.
Qed.

Lemma tidy_bullets (items : list (bool * string)) :
  Forall (fun b => oneLine b.2) items ->
  tidy (Join (bulletLine <$> items) nl) = true.
Proof.
  intros Hall. unfold Join.
  induction Hall as [|b items (Hne & Htidy & Hline) Hall IH]; [done|].
  assert (tidy (bulletLine b) = true /\ bulletLine b <> "") as [Hb Hb0].
  { unfold bulletLine. destruct b as [[] item]; cbn [fst snd] in *.
    - split; [by apply (tidy_append "*" " " item)|done].
    - split; [by apply (tidy_append "-" " " item)|done]. }
  destruct items as [|b' items']; [done|].
  change (String.concat nl (bulletLine <$> b :: b' :: items'))
    with (bulletLine b ++ nl ++ String.concat nl (bulletLine <$> b' :: items'))%string.
  set (rest := String.concat nl (bulletLine <$> b' :: items')) in *.
  assert (rest <> "") as Hrest.
  { subst rest. rewrite fmap_cons.
    destruct items'; cbn [fmap list_fmap String.concat];
      unfold bulletLine; by destruct b'.1. }
  destruct (bulletLine b) as [|c line] eqn:Hbl; [done|].
  rewrite tidy_cons in Hb.
  destruct (lastByte (String c line)) as [d|]; [|done].
  apply andb_prop in Hb as [Hc _].
  assert ((String c line ++ nl ++ rest)%string
          = (String c (line ++ nl) ++ rest)%string) as ->
    by (by rewrite <- append_assoc).
  by apply tidy_append.
Qed.


End BodySections.

Section FAQSections.
Import Go entity loader.
Context `{Spaces}.
Hypothesis trims : TrimSpace_trims.

#[local] Abbreviation nl := output.newline.
#[local] Abbreviation nlc := (byte_of 10).
#[local] Abbreviation sep := (String nlc "### ").

(** After a separator, [split_from] skips the rest of it. *)
Lemma split_from_skip sub k pre (rest : string) :
  String.length pre = k ->
  split_from sub k (pre ++ rest) = split_from sub 0 rest.
Proof.
  revert k. induction pre as [|c pre IH]; intros k Hk.
  - by subst k.
  - subst k. rewrite append_cons. cbn [split_from String.length].
    by apply IH.
Qed.

(** A piece that ends at the first separator is split off. *)
Lemma split_from_piece sub p (rest : string) :
  sub <> "" ->
  index_of sub (p ++ sub) = Some (String.length p) ->
  split_from sub 0 (p ++ sub ++ rest)
  = (p, let '(q, qs) := split_from sub 0 rest in q :: qs).
Proof.
  intros Hsub. induction p as [|c p IH]; intros Hidx.
  - change ("" ++ sub ++ rest)%string with (sub ++ rest)%string.
    destruct sub as [|d sub]; [done|].
    rewrite append_cons.
    cbn [split_from].
    change (String d (sub ++ rest)) with (String d sub ++ rest)%string.
    rewrite prefix_append. cbn [String.length Nat.sub].
    rewrite Nat.sub_0_r.
    by rewrite split_from_skip.
  - rewrite append_cons in Hidx. rewrite index_of_unfold in Hidx.
    destruct (String.prefix sub (String c (p ++ sub))) eqn:Hp; [done|].
    destruct (index_of sub (p ++ sub)) as [i|] eqn:Hi; [|done].
    cbn [fmap option_fmap option_map String.length] in Hidx.
    injection Hidx as ->.
    rewrite append_cons. cbn [split_from].
    assert (String.prefix sub (String c (p ++ sub ++ rest)) = false) as ->.
    { rewrite <- Hp.
      change (String c (p ++ sub ++ rest))
        with (String c p ++ sub ++ rest)%string.
      rewrite <- append_assoc.
      rewrite prefix_app_long; [by rewrite append_cons|].
      rewrite length_append. lia. }
    by rewrite IH.
Qed.

(** A piece without a separator is the last one. *)
Lemma split_from_last sub p :
  index_of sub p = None -> split_from sub 0 p = (p, []).
Proof.
  induction p as [|c p IH]; [done|]. rewrite index_of_unfold.
  destruct (String.prefix sub (String c p)) eqn:Hp; [done|].
  destruct (index_of sub p) eqn:Hi; [done|]. intros _.
  cbn [split_from]. by rewrite Hp, IH.
Qed.

(** Splitting what was joined by a separator gives the pieces back, when
    no piece runs into a separator. *)
Lemma Split_Join_pieces sub pieces :
  sub <> "" -> pieces <> [] ->
  Forall (fun p => index_of sub (p ++ sub) = Some (String.length p)) pieces ->
  Split (Join pieces sub) sub = pieces.
Proof.
  intros Hsub Hne Hall. unfold Split, Join.
  induction Hall as [|p pieces Hp Hall IH]; [done|].
  destruct pieces as [|p' pieces].
  - cbn [String.concat]. rewrite split_from_last; [done|].
    pose proof (Index_last_only sub p Hsub) as Hlast. unfold Index, slen in Hlast.
    rewrite Hp in Hlast. specialize (Hlast eq_refl).
    destruct (index_of sub p); [lia|done].
  - change (String.concat sub (p :: p' :: pieces))
      with (p ++ sub ++ String.concat sub (p' :: pieces))%string.
    rewrite split_from_piece by done. specialize (IH ltac:(done)).
    destruct (split_from sub 0 (String.concat sub (p' :: pieces))) as [q qs].
    by rewrite IH.
Qed.

(** What stands between two [###] marks: a question line and its answer. *)
Let piece (f : FAQ) : string := (Question f ++ nl ++ Answer f)%string.

Lemma faqOf_piece f :
  oneLine (Question f) -> tidy (Answer f) = true -> faqOf (piece f) = Some f.
Proof.
  destruct f as [q a]. unfold piece. cbn [Question Answer].
  intros (Hne & Htidy & Hline) Ha.
  assert (SplitN2 (q ++ nl ++ a) nl = [q; a]) as Hsplit.
  { unfold SplitN2.
    assert (index_of nl (q ++ nl ++ a) = Some (String.length q)) as ->.
    { change (index_of (String nlc "") (q ++ String nlc a)
              = Some (String.length q)).
      rewrite index_of_line by done. rewrite index_of_unfold.
      cbn [String.prefix]. destruct (ascii_dec nlc nlc); [|done].
      assert (String.prefix "" a = true) as -> by by destruct a.
      cbn [fmap option_fmap option_map]. f_equal. apply Nat.add_0_r. }
    rewrite take_append.
    replace (String.length q + String.length nl)%nat
      with (String.length (q ++ nl)%string) by by rewrite length_append.
    by rewrite <- append_assoc, from_append. }
  unfold faqOf. rewrite Hsplit. cbn [head default from_option id].
  rewrite !(TrimSpace_tidy trims) by done. unfold id.
  destruct (String.eqb q "") eqn:Hq; [by apply String.eqb_eq in Hq|done].
Qed.

Lemma piece_one_mark f :
  oneLine (Question f) -> questionFree (Answer f) ->
  index_of sep (piece f ++ sep) = Some (String.length (piece f)).
Proof.
  destruct f as [q a]. unfold piece, questionFree, Index, slen.
  cbn [Question Answer]. intros (_ & _ & Hline) Hfree.
  rewrite !append_assoc. rewrite index_of_line by done.
  change (nl ++ "### ")%string with sep in Hfree.
  change (nl ++ a ++ nl ++ "### ")%string with (nl ++ a ++ sep)%string.
  destruct (index_of sep (nl ++ a ++ sep)) as [i|]; [|lia].
  cbn [fmap option_fmap option_map]. f_equal.
  rewrite !length_append. change (String.length nl) with 1%nat. lia.
Qed.

Lemma marks_join faqs :
  faqs <> [] ->
  (nl ++ String.concat nl (faqText <$> faqs))%string
  = (sep ++ String.concat sep (piece <$> faqs))%string.
Proof.
  induction faqs as [|f faqs IH]; [done|]. intros _.
  destruct faqs as [|f' faqs].
  - cbn [fmap list_fmap String.concat]. unfold faqText, piece. done.
  - change (String.concat nl (faqText <$> f :: f' :: faqs))
      with (faqText f ++ nl ++ String.concat nl (faqText <$> f' :: faqs))%string.
    change (String.concat sep (piece <$> f :: f' :: faqs))
      with (piece f ++ sep ++ String.concat sep (piece <$> f' :: faqs))%string.
    rewrite IH by done. unfold faqText, piece.
    rewrite ?append_assoc. done.
Qed.


End FAQSections.

Section LoaderWitnesses.
Import Go entity loader output sample reference.







End LoaderWitnesses.

(** ** Field accessors *)

Section Accessors.
Import Go entity.

(** X25: a field that [HasField] reports as missing or empty reads as
    the empty string through [GetString] and as no strings through
    [GetStringSlice]. *)
Theorem HasField_guards (e : Entity) (key : string) :
  HasField e key = false ->
  GetString e key = "" /\ GetStringSlice e key = [].
Proof.
  unfold HasField, GetString, GetStringSlice.
  destruct (Fields e !! key) as [[| | |s|l|l|]|]; try done.
  - intros Hs%negb_false_iff%String.eqb_eq. by subst.
  - intros Hl%Z.ltb_ge. destruct l; [done|]. unfold len in Hl. simpl in Hl. lia.
  - intros Hl%Z.ltb_ge. destruct l; [done|]. unfold len in Hl. simpl in Hl. lia.
Qed.

End Accessors.

Section AccessorWitnesses.
Import Go entity sample.

Lemma HasField_guards_witness :
  HasField (recipe "caesar" "Salad" []) "tags" = false /\
  HasField (recipe "caesar" "Salad" []) "recipe_category" = true /\
  GetString (recipe "caesar" "Salad" []) "tags" = "" /\
  GetStringSlice (recipe "caesar" "Salad" []) "tags" = [].
Proof.
  split; [reflexivity|]. split; [reflexivity|].
  apply (HasField_guards (recipe "caesar" "Salad" []) "tags"). reflexivity.
Defined.

End AccessorWitnesses.

Section Durations.
Import Go render.

Lemma decimalFrom_append n (a b : string) :
  decimalFrom n (a ++ b) = decimalFrom (decimalFrom n a) b.
Proof.
  revert n. induction a as [|c a IH]; intros n; [done|].
  rewrite append_cons. cbn [decimalFrom]. apply IH.
Qed.

Lemma pretty_N_char_value x :
  (x < 10)%N -> byte_val (pretty_N_char x) - 48 = Z.of_N x.
Proof.
  intros Hx.
  assert (x = 0 \/ x = 1 \/ x = 2 \/ x = 3 \/ x = 4 \/ x = 5 \/ x = 6
          \/ x = 7 \/ x = 8 \/ x = 9)%N as Hcases by lia.
  by repeat (destruct Hcases as [->|Hcases]; [done|]); subst.
Qed.

(** The digits that [pretty_N_go] writes are those that [Atoi] reads. *)
Lemma pretty_N_go_value x s :
  exists d,
    pretty_N_go x s = (d ++ s)%string /\
    all_bytes is_digit_byte d = true /\
    (x <> 0%N -> d <> "") /\
    decimalFrom 0 d = Z.of_N x.
Proof.
  revert s. induction (N.lt_wf_0 x) as [x _ IH]. intros s.
  destruct (decide (x = 0%N)) as [->|Hx].
  { exists "". by rewrite pretty_N_go_0. }
  rewrite pretty_N_go_step by lia.
  destruct (IH (x `div` 10)%N ltac:(apply N.div_lt; lia)
               (String (pretty_N_char (x `mod` 10)) s))
    as (d & -> & Hd & _ & Hval).
  assert (x `mod` 10 < 10)%N as Hmod by by apply N.mod_lt.
  exists (d ++ String (pretty_N_char (x `mod` 10)) "")%string.
  split; [by rewrite append_assoc|]. split; [|split].
  - rewrite all_bytes_append, Hd. cbn [all_bytes].
    by rewrite pretty_N_char_digit.
  - intros _. by destruct d.
  - rewrite decimalFrom_append, Hval. cbn [decimalFrom].
    rewrite pretty_N_char_value by done.
    rewrite (N.div_mod x 10) at 3 by done. lia.
Qed.

Lemma fmt_d_value n :
  0 <= n ->
  all_bytes is_digit_byte (fmt_d n) = true /\ fmt_d n <> "" /\
  decimalFrom 0 (fmt_d n) = n.
Proof.
  intros Hn. destruct n as [|p|p]; [done| |lia].
  unfold fmt_d, pretty, pretty_Z, pretty, pretty_positive, pretty, pretty_N.
  rewrite decide_False by done.
  destruct (pretty_N_go_value (N.pos p) "") as (d & -> & Hd & Hne & Hval).
  rewrite append_nil_r. split; [done|]. split; [by apply Hne|done].
Qed.

(** [Atoi] reads back what [%d] writes. *)
Lemma Atoi_fmt_d n : 0 <= n <= max_int -> Atoi (fmt_d n) = n.
Proof.
  intros [Hn Hmax]. destruct (fmt_d_value n Hn) as (Hd & Hne & Hval).
  destruct (fmt_d n) as [|c r] eqn:Hfmt; [done|]. unfold Atoi.
  pose proof Hd as Hc. cbn [all_bytes] in Hc. apply andb_prop in Hc as [Hc _].
  assert (Ascii.eqb c "-" = false) as ->.
  { destruct (Ascii.eqb c "-") eqn:He; [|done].
    apply Ascii.eqb_eq in He. by subst c. }
  assert (Ascii.eqb c "+" = false) as ->.
  { destruct (Ascii.eqb c "+") eqn:He; [|done].
    apply Ascii.eqb_eq in He. by subst c. }
  cbn [orb]. rewrite Hd, Hval. lia.
Qed.

Lemma digitRun_append ds c rest :
  all_bytes is_digit_byte ds = true -> is_digit_byte c = false ->
  digitRun (ds ++ String c rest) = (ds, String c rest).
Proof.
  intros Hds Hc. induction ds as [|d ds IH].
  - change ("" ++ String c rest)%string with (String c rest).
    cbn [digitRun]. by rewrite Hc.
  - cbn [all_bytes] in Hds. apply andb_prop in Hds as [Hd Hds].
    rewrite append_cons. cbn [digitRun]. by rewrite Hd, (IH Hds).
Qed.

Lemma durationGroup_take unit ds rest :
  all_bytes is_digit_byte ds = true -> ds <> "" ->
  is_digit_byte unit = false ->
  durationGroup unit (ds ++ String unit rest) = (ds, rest).
Proof.
  intros Hds Hne Hunit. unfold durationGroup.
  rewrite digitRun_append by done.
  destruct ds as [|d ds]; [done|]. by rewrite Ascii.eqb_refl.
Qed.

Lemma durationGroup_skip unit ds c rest :
  all_bytes is_digit_byte ds = true -> is_digit_byte c = false ->
  c <> unit ->
  durationGroup unit (ds ++ String c rest) = ("", (ds ++ String c rest)%string).
Proof.
  intros Hds Hc Hunit. unfold durationGroup.
  rewrite digitRun_append by done.
  destruct ds as [|d ds]; [done|].
  by destruct (Ascii.eqb_spec c unit).
Qed.

Lemma FindStringSubmatch_PT rest :
  isoDuration_FindStringSubmatch ("PT" ++ rest)
  = let '(hours, s1) := durationGroup "H" rest in
    let '(minutes, s2) := durationGroup "M" s1 in
    let '(seconds, s3) := durationGroup "S" s2 in
    Some [String.substring 0 (String.length ("PT" ++ rest) - 0
                                - String.length s3) ("PT" ++ rest);
          hours; minutes; seconds].
Proof.
  unfold isoDuration_FindStringSubmatch.
  assert (index_of "PT" ("PT" ++ rest) = Some O) as ->.
  { rewrite index_of_unfold. by rewrite prefix_append. }
  change (0 + 2)%nat with (String.length "PT").
  by rewrite from_append.
Qed.

Lemma durationMinutes_hours_minutes h m rest :
  0 <= h <= max_int -> 0 <= m <= max_int ->
  durationMinutes ("PT" ++ fmt_d h ++ "H" ++ fmt_d m ++ "M" ++ rest)
  = add (mul h 60) m.
Proof.
  intros Hh Hm. unfold durationMinutes. rewrite FindStringSubmatch_PT.
  destruct (fmt_d_value h (proj1 Hh)) as (Hhd & Hhne & _).
  destruct (fmt_d_value m (proj1 Hm)) as (Hmd & Hmne & _).
  change (fmt_d h ++ "H" ++ fmt_d m ++ "M" ++ rest)%string
    with (fmt_d h ++ String "H" (fmt_d m ++ "M" ++ rest))%string.
  rewrite durationGroup_take by done.
  change (fmt_d m ++ "M" ++ rest)%string
    with (fmt_d m ++ String "M" rest)%string.
  rewrite durationGroup_take by done.
  destruct (durationGroup "S" rest) as [seconds s3].
  cbn [lookup list_lookup default from_option id].
  by rewrite !Atoi_fmt_d.
Qed.

Lemma durationMinutes_hours h :
  0 <= h <= max_int -> durationMinutes ("PT" ++ fmt_d h ++ "H") = mul h 60.
Proof.
  intros Hh. unfold durationMinutes. rewrite FindStringSubmatch_PT.
  destruct (fmt_d_value h (proj1 Hh)) as (Hhd & Hhne & _).
  change (fmt_d h ++ "H")%string with (fmt_d h ++ String "H" "")%string.
  rewrite durationGroup_take by done.
  cbn [durationGroup digitRun lookup list_lookup default from_option id].
  rewrite Atoi_fmt_d by done. cbn [Atoi]. unfold add, mul.
  by rewrite wrap_add_l, Z.add_0_r.
Qed.

Lemma durationMinutes_minutes m rest :
  0 <= m <= max_int -> durationMinutes ("PT" ++ fmt_d m ++ "M" ++ rest) = m.
Proof.
  intros Hm. unfold durationMinutes. rewrite FindStringSubmatch_PT.
  destruct (fmt_d_value m (proj1 Hm)) as (Hmd & Hmne & _).
  change (fmt_d m ++ "M" ++ rest)%string
    with (fmt_d m ++ String "M" rest)%string.
  rewrite durationGroup_skip by done.
  rewrite durationGroup_take by done.
  destruct (durationGroup "S" rest) as [seconds s3].
  cbn [lookup list_lookup default from_option id].
  rewrite Atoi_fmt_d by done. cbn [Atoi]. unfold add, mul.
  change (wrap (0 * 60)) with 0. rewrite Z.add_0_l.
  apply wrap_id. unfold in_int, min_int, max_int in *. lia.
Qed.

Lemma durationMinutes_seconds s :
  0 <= s -> durationMinutes ("PT" ++ fmt_d s ++ "S") = 0.
Proof.
  intros Hs. unfold durationMinutes. rewrite FindStringSubmatch_PT.
  destruct (fmt_d_value s Hs) as (Hsd & Hsne & _).
  change (fmt_d s ++ "S")%string with (fmt_d s ++ String "S" "")%string.
  rewrite !durationGroup_skip by done.
  rewrite durationGroup_take by done. done.
Qed.


(** X27: when the minutes of two durations add up to a number that is
    not negative and fits an [int], [totalTime] writes a duration that
    reads back as their sum. *)
Theorem totalTime_adds (d1 d2 : string) :
  0 <= durationMinutes d1 + durationMinutes d2 <= max_int ->
  durationMinutes (totalTime d1 d2)
  = durationMinutes d1 + durationMinutes d2.
Proof.
  intros Hsum. unfold totalTime.
  set (total := durationMinutes d1 + durationMinutes d2) in *.
  assert (add (durationMinutes d1) (durationMinutes d2) = total) as ->.
  { apply wrap_id. unfold in_int, min_int, max_int in *. lia. }
  rewrite Z.quot_div_nonneg, Z.rem_mod_nonneg by lia.
  pose proof (Z.div_mod total 60 ltac:(done)) as Hdm.
  pose proof (Z.mod_pos_bound total 60 ltac:(done)) as Hmod.
  assert (0 <= total `div` 60 <= max_int) as Hh.
  { split; [apply Z.div_pos; lia|].
    assert (total `div` 60 <= total); [|lia].
    apply Z.div_le_upper_bound; lia. }
  assert (0 <= total `mod` 60 <= max_int) as Hm
    by (unfold max_int in *; lia).
  destruct (0 <? total `div` 60) eqn:Hhpos;
    [destruct (0 <? total `mod` 60) eqn:Hmpos|]; cbn [andb].
  - rewrite <- (append_nil_r "M").
    rewrite durationMinutes_hours_minutes by done.
    unfold add, mul. rewrite wrap_add_l.
    rewrite wrap_id by (unfold in_int, min_int, max_int in *; lia). lia.
  - rewrite durationMinutes_hours by done. unfold mul. apply Z.ltb_ge in Hmpos.
    replace (total `div` 60 * 60) with total by lia.
    apply wrap_id. unfold in_int, min_int, max_int in *. lia.
  - rewrite <- (append_nil_r "M").
    rewrite durationMinutes_minutes by done. apply Z.ltb_ge in Hhpos. lia.
Qed.

End Durations.

Section DurationWitnesses.
Import Go render.


Lemma totalTime_adds_witness :
  totalTime "PT45M" "PT1H30M" = "PT2H15M" /\
  durationMinutes (totalTime "PT45M" "PT1H30M")
  = durationMinutes "PT45M" + durationMinutes "PT1H30M".
Proof.
  split; [vm_compute; reflexivity|].
  apply (totalTime_adds "PT45M" "PT1H30M"). vm_compute.
  split; discriminate.
Defined.

End DurationWitnesses.

Section Numbers.
Import Go render.

(** The groups after the first, each behind its comma. *)
#[local] Abbreviation behind gs :=
  (String.concat "" ((fun g => ("," ++ g)%string) <$> gs)).

Lemma concat_cons (x : string) l :
  String.concat "" (x :: l) = (x ++ String.concat "" l)%string.
Proof. destruct l; cbn [String.concat]; [by rewrite append_nil_r|done]. Qed.

Lemma Join_behind (first : string) gs :
  Join (first :: gs) "," = (first ++ behind gs)%string.
Proof.
  unfold Join. revert first. induction gs as [|g gs IH]; intros first.
  - cbn [fmap list_fmap String.concat]. by rewrite append_nil_r.
  - change (String.concat "," (first :: g :: gs))
      with (first ++ "," ++ String.concat "," (g :: gs))%string.
    rewrite IH, fmap_cons, concat_cons. by rewrite !append_assoc.
Qed.

Lemma slen_cons c s : slen (String c s) = slen s + 1.
Proof. unfold slen. cbn [String.length]. lia. Qed.

(** From the second byte on, the loop writes a comma before every byte
    that has a multiple of three bytes from it to the end. *)
Lemma separate_groups n rest i result :
  0 < i -> n - i = slen rest ->
  exists h gs,
    separate n i rest result = (result ++ h ++ behind gs)%string /\
    rest = (h ++ String.concat "" gs)%string /\
    slen h = slen rest mod 3 /\
    Forall (fun g => slen g = 3) gs.
Proof.
  revert i result. induction rest as [|c r IH]; intros i result Hi Hn.
  { exists "", []. cbn [fmap list_fmap String.concat].
    by rewrite !append_nil_r. }
  rewrite slen_cons in *. pose proof (slen_nonneg r) as Hr0.
  cbn [separate]. rewrite Z.rem_mod_nonneg by lia.
  assert ((0 <? i) = true) as -> by lia. cbn [andb]. rewrite Hn.
  destruct ((slen r + 1) mod 3 =? 0) eqn:Hmod.
  - destruct (IH (i + 1) ((result ++ ",") ++ String c "")%string
                ltac:(lia) ltac:(lia)) as (h & gs & -> & Hr & Hh & Hgs).
    exists "", (String c h :: gs). split; [|split; [|split]].
    + rewrite fmap_cons, concat_cons. cbn [String.append].
      by rewrite !append_assoc.
    + rewrite concat_cons. cbn [String.append]. by rewrite Hr.
    + apply Z.eqb_eq in Hmod. by rewrite Hmod.
    + constructor; [|done]. rewrite slen_cons, Hh.
      apply Z.eqb_eq in Hmod. 
      pose proof (Z.mod_pos_bound (slen r) 3 ltac:(done)).
      rewrite Z.add_mod in Hmod by done.
      change (1 mod 3) with 1 in Hmod.
      destruct (decide (slen r mod 3 = 0)) as [H0|?];
        [rewrite H0 in Hmod; done|].
      destruct (decide (slen r mod 3 = 1)) as [H1|?];
        [rewrite H1 in Hmod; done|]. lia.
  - destruct (IH (i + 1) (result ++ String c "")%string
                ltac:(lia) ltac:(lia)) as (h & gs & -> & Hr & Hh & Hgs).
    exists (String c h), gs. split; [|split; [|split]].
    + rewrite !append_assoc. done.
    + rewrite append_cons. by rewrite Hr at 1.
    + rewrite slen_cons, Hh. apply Z.eqb_neq in Hmod.
      pose proof (Z.mod_pos_bound (slen r) 3 ltac:(done)).
      rewrite (Z.add_mod (slen r) 1) in * by done.
      change (1 mod 3) with 1 in *.
      destruct (decide (slen r mod 3 = 0)) as [H0|?];
        [by rewrite H0|].
      destruct (decide (slen r mod 3 = 1)) as [H1|?];
        [by rewrite H1|].
      assert (slen r mod 3 = 2) as H2 by lia. by rewrite H2 in Hmod.
    + done.
Qed.

Lemma fmt_d_nonempty num : fmt_d num <> "".
Proof.
  destruct num as [|p|p]; [done| |].
  - by destruct (fmt_d_value (Z.pos p) ltac:(lia)) as (_ & Hne & _).
  - unfold fmt_d, pretty, pretty_Z. done.
Qed.

(** X28: [formatNumber] cuts the decimal text of a number, its sign
    included, into groups that it joins by commas: the first group has
    one to three bytes and every other group has three.  So a negative
    number of three, six, ... digits gets a comma right after its sign. *)
Theorem formatNumber_groups (num : Z) :
  (exists first gs,
     formatNumber num = Join (first :: gs) "," /\
     fmt_d num = (first ++ String.concat "" gs)%string /\
     1 <= slen first <= 3 /\
     Forall (fun g => slen g = 3) gs) /\
  (num < 0 -> 3 < slen (fmt_d num) -> slen (fmt_d num) mod 3 = 1 ->
   HasPrefix (formatNumber num) "-," = true).
Proof.
  pose proof (fmt_d_nonempty num) as Hne. unfold formatNumber.
  destruct (fmt_d num) as [|c r] eqn:Hs; [done|]. clear Hne.
  rewrite slen_cons. pose proof (slen_nonneg r) as Hr0. split.
  - destruct (slen r + 1 <=? 3) eqn:Hshort.
    + exists (String c r), []. cbn [String.concat]. unfold Join.
      cbn [String.concat]. rewrite append_nil_r, slen_cons.
      repeat split; try done; lia.
    + cbn [separate]. change (0 <? 0) with false. cbn [andb].
      change ("" ++ String c "")%string with (String c "").
      destruct (separate_groups (slen r + 1) r (0 + 1) (String c ""))
        as (h & gs & -> & Hr & Hh & Hgs); [lia|lia|].
      exists (String c h), gs. rewrite Join_behind. split; [done|].
      split; [by rewrite append_cons, <- Hr|]. split; [|done].
      rewrite slen_cons, Hh.
      pose proof (Z.mod_pos_bound (slen r) 3 ltac:(done)). lia.
  - intros Hneg Hlong Hmod. assert ((slen r + 1 <=? 3) = false) as -> by lia.
    assert (c = "-"%char) as ->.
    { destruct num as [|p|p]; [lia|lia|].
      unfold fmt_d, pretty, pretty_Z in Hs. by injection Hs. }
    destruct r as [|d r']; [unfold slen in Hlong; simpl in Hlong; lia|].
    rewrite slen_cons in *. pose proof (slen_nonneg r') as Hr0'.
    cbn [separate]. change (0 <? 0) with false. cbn [andb].
    change (0 <? 0 + 1) with true. cbn [andb].
    rewrite Z.rem_mod_nonneg by lia.
    replace (slen r' + 1 + 1 - (0 + 1)) with (slen r' + 1) by lia.
    assert ((slen r' + 1) mod 3 = 0) as ->.
    { replace (slen r' + 1 + 1) with (1 + (slen r' + 1)) in Hmod by lia.
      rewrite Z.add_mod in Hmod by done. change (1 mod 3) with 1 in Hmod.
      pose proof (Z.mod_pos_bound (slen r' + 1) 3 ltac:(done)).
      destruct (decide ((slen r' + 1) mod 3 = 0)) as [|Hn0]; [done|].
      destruct (decide ((slen r' + 1) mod 3 = 1)) as [H1|Hn1];
        [by rewrite H1 in Hmod|].
      assert ((slen r' + 1) mod 3 = 2) as H2 by lia. by rewrite H2 in Hmod. }
    cbn [Z.eqb].
    destruct (separate_groups (slen r' + 1 + 1) r' (0 + 1 + 1)
                ((("" ++ String "-" "") ++ ",") ++ String d "")%string)
      as (h & gs & -> & _); [lia|lia|].
    change ((("" ++ String "-" "") ++ ",") ++ String d "")%string
      with ("-," ++ String d "")%string.
    rewrite !append_assoc. apply prefix_append.
Qed.

End Numbers.
